(** * An in-memory B-tree index: model of [indexes/btree.py] and its properties

    The Python classes [SmartKey], [Page], [BTree], [NaiveTreeIndex] and
    [NaiveListIndex] are embedded as pure functions.  A method that mutates [self] returns the new state of [self];
    a method that can raise returns a [result].  Integer keys and values are
    unbounded Python [int]s, hence [Z]. *)

From Stdlib Require Import ZArith Lia Bool.
From stdpp Require Import base tactics option list sorting gmap.

Local Open Scope Z_scope.

(** ** Outcomes of a call *)

(** The exceptions the code can raise: a list index out of range, and the
    lookup of an attribute that the class does not define. *)
Inductive exn := IndexError | AttributeError.

(** [OutOfFuel] is not a Python outcome: it is returned by the two loops of
    the model that are bounded by a counter ([Page.remove] and
    [BTree.print_tree]) when the counter is too small. *)
Inductive result (A : Type) : Type :=
| Ok (a : A)
| Raise (e : exn)
| OutOfFuel.
Arguments Ok {A} a.
Arguments Raise {A} e.
Arguments OutOfFuel {A}.

Definition bind {A B} (m : result A) (f : A -> result B) : result B :=
  match m with
  | Ok a => f a
  | Raise e => Raise e
  | OutOfFuel => OutOfFuel
  end.

Declare Scope py_scope.
Delimit Scope py_scope with py.
Notation "'let*' x := m 'in' k" := (bind m (fun x => k))
  (at level 10, x name, m at level 100, k at level 200) : py_scope.
Notation "'let*' ' pat := m 'in' k" :=
  (bind m (fun x => match x with pat => k end))
  (at level 10, pat pattern, m at level 100, k at level 200) : py_scope.
Local Open Scope py_scope.

(** ** Python list operations *)

Section PyList.
Context {A : Type}.

(** [l[i]] for [i >= 0]. *)
Definition py_get (l : list A) (i : nat) : result A :=
  match l !! i with
  | Some x => Ok x
  | None => Raise IndexError
  end.

(** A non-negative position for the index [i] of [l[i]], where a negative
    [i] counts from the end of the list. *)
Definition py_index (l : list A) (i : Z) : result nat :=
  let n := Z.of_nat (length l) in
  if (0 <=? i) && (i <? n) then Ok (Z.to_nat i)
  else if (i <? 0) && (0 <=? n + i) then Ok (Z.to_nat (n + i))
  else Raise IndexError.

(** [l[i]] for any integer [i]. *)
Definition py_getZ (l : list A) (i : Z) : result A :=
  let* j := py_index l i in py_get l j.

(** [l[i] = x] for [i >= 0]. *)
Definition py_set (l : list A) (i : nat) (x : A) : result (list A) :=
  if decide (i < length l)%nat then Ok (<[i := x]> l) else Raise IndexError.

(** [l.pop(i)] for [i >= 0]: the list without its element at [i]. *)
Definition py_pop (l : list A) (i : nat) : result (list A) :=
  if decide (i < length l)%nat then Ok (delete i l) else Raise IndexError.

(** [l.pop(i)] for any integer [i]. *)
Definition py_popZ (l : list A) (i : Z) : result (list A) :=
  let* j := py_index l i in py_pop l j.

(** [l.insert(i, x)] for [i >= 0]; a position past the end appends. *)
Definition py_insert (l : list A) (i : nat) (x : A) : list A :=
  take i l ++ x :: drop i l.

(** [f(l[i])], written so that [f] may be a recursive call on an element
    of a list of children. *)
Definition on_item {B} (f : A -> result B) : list A -> nat -> result B :=
  fix go l i :=
    match l, i with
    | [], _ => Raise IndexError
    | x :: _, O => f x
    | _ :: l', S i' => go l' i'
    end.

(** [f(l[-1])]. *)
Definition on_last {B} (f : A -> result B) : list A -> result B :=
  fix go l :=
    match l with
    | [] => Raise IndexError
    | [x] => f x
    | _ :: l' => go l'
    end.
End PyList.

(** ** Data *)

Definition DEGREE : nat := 16.

(** A stored [SmartKey]: a key and the list of the values added under it.
    A [SmartKey] that is only compared against ([SmartKey(key)]) is
    represented by its key: [__lt__] and [__eq__] read nothing else. *)
Record SmartKey := mkSmartKey { key : Z; value : list Z }.

#[warnings="-register-all"]
Inductive Page : Type :=
  mkPage (bottom : bool) (keys : list SmartKey) (children : list Page).

Definition bottom (p : Page) : bool := let 'mkPage b _ _ := p in b.
Definition keys (p : Page) : list SmartKey := let 'mkPage _ ks _ := p in ks.
Definition children (p : Page) : list Page := let 'mkPage _ _ cs := p in cs.

Definition set_keys (p : Page) (ks : list SmartKey) : Page :=
  mkPage (bottom p) ks (children p).
Definition set_children (p : Page) (cs : list Page) : Page :=
  mkPage (bottom p) (keys p) cs.

(** ** [bisect.bisect_right]

    The standard library's loop, comparing with [x < a[mid]], that is
    [x.key < a[mid].key].  [mid < hi <= len(a)], so [a[mid]] exists; the
    range [hi - lo] shrinks at every turn, so [len(a)] turns are enough
    ([bisect_loop_spec] below). *)
Fixpoint bisect_loop (fuel : nat) (a : list SmartKey) (x : Z) (lo hi : nat) : nat :=
  match fuel with
  | O => lo
  | S n =>
      if (lo <? hi)%nat then
        let mid := ((lo + hi) / 2)%nat in
        match a !! mid with
        | Some e =>
            if x <? key e then bisect_loop n a x lo mid
            else bisect_loop n a x (S mid) hi
        | None => lo
        end
      else lo
  end.

Definition bisect_right (a : list SmartKey) (x : Z) : nat :=
  bisect_loop (length a) a x 0 (length a).

(** ** class Page *)

Module Page.

(** [self.keys[i].value.extend(vs)] *)
Definition extend_value (e : SmartKey) (vs : list Z) : SmartKey :=
  mkSmartKey (key e) (value e ++ vs).

Definition add_key_value (self : Page) (k v : Z) : result Page :=
  let wrapped_key := mkSmartKey k [v] in
  if (length (keys self) =? 0)%nat then
    Ok (set_keys self (keys self ++ [wrapped_key]))
  else
    let left_upper_index := bisect_right (keys self) k in
    if (0 <? left_upper_index)%nat then
      let* e := py_get (keys self) (left_upper_index - 1) in
      if key e =? key wrapped_key then
        Ok (set_keys self
              (<[(left_upper_index - 1)%nat := extend_value e (value wrapped_key)]>
                 (keys self)))
      else Ok (set_keys self (py_insert (keys self) left_upper_index wrapped_key))
    else Ok (set_keys self (py_insert (keys self) left_upper_index wrapped_key)).

Definition is_external (self : Page) : bool := bottom self.

(** [key > self.keys[i]] is evaluated by the reflected [__lt__]:
    [self.keys[i].key < key.key]. *)
Fixpoint find (self : Page) (k : Z) : result (option (list Z)) :=
  match self with
  | mkPage b ks cs =>
      let left_upper_index := bisect_right ks k in
      if (left_upper_index =? 0)%nat then
        if (length cs =? 0)%nat then Ok None
        else
          let* k0 := py_get ks 0 in
          if key k0 <? k then on_item (fun c => find c k) cs 1
          else on_item (fun c => find c k) cs 0
      else
        let* prevKey := py_get ks (left_upper_index - 1) in
        if key prevKey =? k then Ok (Some (value prevKey))
        else if b then Ok None
        else if key prevKey <? k then on_item (fun c => find c k) cs left_upper_index
        else on_item (fun c => find c k) cs (left_upper_index - 1)
  end.

Definition next (self : Page) (k : Z) : result Page :=
  py_get (children self) (bisect_right (keys self) k).

Definition is_full (self : Page) : bool :=
  (length (keys self) =? DEGREE * 2 - 1)%nat.

(** Returns the state of [self] after the call, then the returned pair. *)
Definition split (self : Page) : result (Page * (SmartKey * Page)) :=
  let* r_key := py_get (keys self) (DEGREE - 1) in
  let new_page_keys := drop DEGREE (keys self) in
  let self_keys := take (DEGREE - 1) (keys self) in
  let new_page_children := drop DEGREE (children self) in
  let self_children := take DEGREE (children self) in
  let new_page := mkPage (bottom self) new_page_keys new_page_children in
  Ok (mkPage (bottom self) self_keys self_children, (r_key, new_page)).

(** [ind] is [self.children.index(ch)]: pages are compared by identity and
    [ch] is one element of [self.children], so [ch] is given by its
    position. *)
Definition split_and_add_page (self : Page) (ind : nat) : result Page :=
  let* ch := py_get (children self) ind in
  let* '(ch', (k, z)) := split ch in
  Ok (mkPage (bottom self)
        (py_insert (keys self) ind k)
        (py_insert (<[ind := ch']> (children self)) (ind + 1) z)).

Fixpoint find_predecessor (self : Page) : result SmartKey :=
  match self with
  | mkPage b ks cs =>
      if b then py_getZ ks (-1) else on_last find_predecessor cs
  end.

Fixpoint find_successor (self : Page) : result SmartKey :=
  match self with
  | mkPage b ks cs =>
      if b then py_get ks 0 else on_item find_successor cs 0
  end.

(** [left] and [right] are the children of [self] at [ind] and [ind + 1]
    at both calls.  [new_page] takes over the list object [left.keys];
    [left] is dropped from [self.children] by the last assignment, so
    nothing observes the sharing.  Returns the state of [self], then the
    new page (which is also [self.children[ind]]). *)
Definition merge (self : Page) (ind : nat) (left right : Page)
  : result (Page * Page) :=
  let* sep := py_get (keys self) ind in
  let new_page :=
    mkPage (is_external left && is_external right)
           (keys left ++ [sep] ++ keys right)
           (children left ++ children right) in
  let* cs1 := py_pop (children self) (ind + 1) in
  let* ks1 := py_pop (keys self) ind in
  let* cs2 := py_set cs1 ind new_page in
  Ok (mkPage (bottom self) ks1 cs2, new_page).

(** A child is an object held in [self.children]; it is read and written
    back at its position, so that the case where [self.children[ind - 1]]
    and [self.children[ind]] are one object ([ind = 0] and a single child)
    is the code's. *)
Definition borrow_from_left (self : Page) (kind ind : nat) : result Page :=
  let* li := py_index (children self) (Z.of_nat ind - 1) in
  let* cur := py_get (children self) ind in
  let* sep := py_get (keys self) kind in
  let cs1 := <[ind := set_keys cur (py_insert (keys cur) 0 sep)]> (children self) in
  let* left := py_get cs1 li in
  let* lk := py_getZ (keys left) (-1) in
  let* ks' := py_set (keys self) kind lk in
  let* lks := py_popZ (keys left) (Z.of_nat (length (keys left)) - 1) in
  let cs2 := <[li := set_keys left lks]> cs1 in
  let* cur := py_get cs2 ind in
  if negb (is_external cur) then
    let* left := py_get cs2 li in
    let* lc := py_getZ (children left) (-1) in
    let cs3 := <[ind := set_children cur (py_insert (children cur) 0 lc)]> cs2 in
    let* left := py_get cs3 li in
    let* lcs := py_popZ (children left) (Z.of_nat (length (children left)) - 1) in
    Ok (mkPage (bottom self) ks' (<[li := set_children left lcs]> cs3))
  else Ok (mkPage (bottom self) ks' cs2).

(** [self.children[ind + 1]] and [self.children[ind]] are two objects. *)
Definition borrow_from_right (self : Page) (ind : nat) : result Page :=
  let* right := py_get (children self) (ind + 1) in
  let* cur := py_get (children self) ind in
  let* sep := py_get (keys self) ind in
  let cur1 := set_keys cur (keys cur ++ [sep]) in
  let* rk := py_get (keys right) 0 in
  let* ks' := py_set (keys self) ind rk in
  let* rks := py_pop (keys right) 0 in
  let right1 := set_keys right rks in
  if negb (is_external cur1) then
    let* rc := py_get (children right1) 0 in
    let cur2 := set_children cur1 (children cur1 ++ [rc]) in
    let* rcs := py_pop (children right1) 0 in
    let right2 := set_children right1 rcs in
    Ok (mkPage (bottom self) ks' (<[(ind + 1)%nat := right2]> (<[ind := cur2]> (children self))))
  else
    Ok (mkPage (bottom self) ks' (<[(ind + 1)%nat := right1]> (<[ind := cur1]> (children self)))).

(** [len(self.children[i].keys) > DEGREE - 1]; both uses are guarded by a
    test that [i] is a position of [self.children]. *)
Definition has_surplus (cs : list Page) (i : nat) : bool :=
  match cs !! i with
  | Some c => (DEGREE - 1 <? length (keys c))%nat
  | None => false
  end.

(** Returns the state of [self] after the call, then the returned page:
    [self] again, or the page made by [merge].  A caller that drops the
    returned page goes on with the state of the page it called.  The
    recursion is neither on a child of [self] (children are rebuilt before
    the descent) nor on a smaller page ([self.remove(key)] is called again
    after a repair), so the model counts the nesting of calls. *)
Fixpoint remove (fuel : nat) (self : Page) (k : Z) : result (Page * Page) :=
  match fuel with
  | O => OutOfFuel
  | S n =>
      let left_upper_index := bisect_right (keys self) k in
      if is_external self then
        if (0 <? left_upper_index)%nat then
          let* e := py_get (keys self) (left_upper_index - 1) in
          if key e =? k then
            let* ks := py_pop (keys self) (left_upper_index - 1) in
            Ok (set_keys self ks, set_keys self ks)
          else Ok (self, self)
        else Ok (self, self)
      else
        let ind := Nat.max (left_upper_index - 1) 0 in
        let* e := py_get (keys self) ind in
        if key e =? k then
          let* pred_ch := py_get (children self) ind in
          let* succ_ch := py_get (children self) (ind + 1) in
          if (DEGREE <=? length (keys pred_ch))%nat then
            let* k' := find_predecessor pred_ch in
            let* ks := py_set (keys self) ind k' in
            let* '(pred_ch', _) := remove n pred_ch (key k') in
            let self1 := mkPage (bottom self) ks (<[ind := pred_ch']> (children self)) in
            Ok (self1, self1)
          else if (DEGREE <=? length (keys succ_ch))%nat then
            let* k' := find_successor succ_ch in
            let* ks := py_set (keys self) ind k' in
            let* '(succ_ch', _) := remove n succ_ch (key k') in
            let self1 :=
              mkPage (bottom self) ks (<[(ind + 1)%nat := succ_ch']> (children self)) in
            Ok (self1, self1)
          else
            let* '(self1, merged) := merge self ind pred_ch succ_ch in
            let* '(merged', _) := remove n merged k in
            let self2 := set_children self1 (<[ind := merged']> (children self1)) in
            if (length (keys self2) =? 0)%nat then Ok (self2, merged')
            else Ok (self2, self2)
        else
          let needed_ch_ind := if key e <? k then (ind + 1)%nat else ind in
          let* ch := py_get (children self) needed_ch_ind in
          if (length (keys ch) =? DEGREE - 1)%nat then
            if (needed_ch_ind + 1 <? length (children self))%nat
               && has_surplus (children self) (needed_ch_ind + 1)
            then
              let* self1 := borrow_from_right self needed_ch_ind in
              let* '(self2, _) := remove n self1 k in
              Ok (self2, self2)
            else if (0 <? needed_ch_ind)%nat
                    && has_surplus (children self) (needed_ch_ind - 1)
            then
              let* self1 := borrow_from_left self ind needed_ch_ind in
              let* '(self2, _) := remove n self1 k in
              Ok (self2, self2)
            else
              let* l := py_get (children self) ind in
              let* r := py_get (children self) (ind + 1) in
              let* '(self1, merged) := merge self ind l r in
              let* '(merged', _) := remove n merged k in
              let self2 := set_children self1 (<[ind := merged']> (children self1)) in
              if (length (keys self2) =? 0)%nat then Ok (self2, merged')
              else
                let* '(self3, _) := remove n self2 k in
                Ok (self3, self3)
          else
            let* '(ch', _) := remove n ch k in
            let self1 := set_children self (<[needed_ch_ind := ch']> (children self)) in
            Ok (self1, self1)
  end.

(** [Page] defines no [close]: looking the attribute up raises. *)
Definition close (self : Page) : result unit := Raise AttributeError.

End Page.

(** ** class BTree *)

Record BTree := mkBTree { root : Page }.

(** The number of levels below a page, along its first children. *)
Fixpoint depth (p : Page) : nat :=
  match p with
  | mkPage _ _ [] => O
  | mkPage _ _ (c :: _) => S (depth c)
  end.

Module BTree.

Definition __init__ : BTree := mkBTree (mkPage true [] []).

(** [key in page.keys] compares with [__eq__], that is by key.  The call
    [self._put(nxt, key)] changes the child in place: its new state is put
    back at its position. *)
Fixpoint _put (page : Page) (k v : Z) : result Page :=
  match page with
  | mkPage b ks cs =>
      if b || existsb (fun e => key e =? k) ks then Page.add_key_value page k v
      else
        let i := bisect_right ks k in
        let* nxt := on_item (fun nxt => _put nxt k v) cs i in
        let page1 := mkPage b ks (<[i := nxt]> cs) in
        let* page2 :=
          (if Page.is_full nxt then Page.split_and_add_page page1 i else Ok page1) in
        let* _ := Page.close nxt in
        Ok page2
  end.

Definition add_key_value (self : BTree) (k v : Z) : result BTree :=
  let* root1 := _put (root self) k v in
  if Page.is_full root1 then
    let* '(left_, (k', right_)) := Page.split root1 in
    Ok (mkBTree (mkPage false [k'] [left_; right_]))
  else Ok (mkBTree root1).

Definition find_key (self : BTree) (k : Z) : result (option (list Z)) :=
  Page.find (root self) k.

(** Calls nest at most twice per level (a page, then the same page again
    after a repair). *)
Definition remove (self : BTree) (k : Z) : result BTree :=
  let* '(_, r) := Page.remove (2 * depth (root self) + 1) (root self) k in
  Ok (mkBTree r).

(** The printed lines: for every level, the key lists of its pages. *)
Fixpoint print_levels (fuel : nat) (this_level : list Page)
  : result (list (list (list Z))) :=
  match this_level with
  | [] => Ok []
  | _ =>
      match fuel with
      | O => OutOfFuel
      | S n =>
          let next_level := concat (map children this_level) in
          let output := map (fun node => map key (keys node)) this_level in
          let* rest := print_levels n next_level in
          Ok (output :: rest)
      end
  end.

Definition print_tree (self : BTree) : result (list (list (list Z))) :=
  print_levels (S (depth (root self))) [root self].

End BTree.

(** ** class NaiveTreeIndex *)

(** The index on a Python [dict], from keys to the list of their values.  No
    method raises, so they are plain functions to the new [self.tree]. *)
Module NaiveTreeIndex.

Definition __init__ : gmap Z (list Z) := ∅.

Definition add_key_value (self : gmap Z (list Z)) (k v : Z) : gmap Z (list Z) :=
  match self !! k with
  | Some vs => <[k := vs ++ [v]]> self
  | None => <[k := [v]]> self
  end.

Definition find (self : gmap Z (list Z)) (k : Z) : option (list Z) :=
  match self !! k with
  | Some vs => Some vs
  | None => None
  end.

Definition remove (self : gmap Z (list Z)) (k : Z) : gmap Z (list Z) :=
  match self !! k with
  | Some _ => delete k self
  | None => self
  end.

End NaiveTreeIndex.

(** ** class NaiveListIndex *)

(** The index on a Python list of pairs [(key, values)]. *)
Module NaiveListIndex.

Definition __init__ : list (Z * list Z) := [].

(** The loop appends to the values of the first pair with the key and
    returns; when it ends, a new pair is appended to the list. *)
Fixpoint add_key_value (self : list (Z * list Z)) (q v : Z) : list (Z * list Z) :=
  match self with
  | [] => [(q, [v])]
  | (k, vs) :: rest =>
      if k =? q then (k, vs ++ [v]) :: rest
      else (k, vs) :: add_key_value rest q v
  end.

(** [for k, v in self.list: if k == key.key: return self.list[k]]: at the
    first pair with the key, the list is read at the index [k], the key
    itself.  [rest] is what the loop has still to visit of [self.list]. *)
Fixpoint find_loop (self rest : list (Z * list Z)) (q : Z)
  : result (option (Z * list Z)) :=
  match rest with
  | [] => Ok None
  | (k, _) :: rest' =>
      if k =? q then let* e := py_getZ self k in Ok (Some e)
      else find_loop self rest' q
  end.

Definition find_key (self : list (Z * list Z)) (q : Z) : result (option (Z * list Z)) :=
  find_loop self self q.

End NaiveListIndex.

(** * Vocabulary of the properties *)

Definition key_lt (a b : SmartKey) : Prop := key a < key b.

(** Strictly increasing by key: sorted, with no duplicate key. *)
Definition sorted (l : list SmartKey) : Prop := StronglySorted key_lt l.

(** The entries of a page and of the pages below it, in key order of a
    well-formed tree: child 0, key 0, child 1, key 1, ..., last child. *)
Fixpoint interleave (cs : list (list SmartKey)) (ks : list SmartKey) : list SmartKey :=
  match cs, ks with
  | [], _ => ks
  | c :: cs', [] => c ++ interleave cs' []
  | c :: cs', k :: ks' => c ++ k :: interleave cs' ks'
  end.

(** What follows a child in [interleave]: the next key, then the rest. *)
Definition after (cs : list (list SmartKey)) (ks : list SmartKey) : list SmartKey :=
  match ks with
  | [] => interleave cs []
  | k :: ks' => k :: interleave cs ks'
  end.

Fixpoint contents (p : Page) : list SmartKey :=
  match p with
  | mkPage _ ks cs => interleave (map contents cs) ks
  end.

(** What [find] is expected to return on a list of entries. *)
Fixpoint assoc (k : Z) (l : list SmartKey) : option (list Z) :=
  match l with
  | [] => None
  | e :: l' => if key e =? k then Some (value e) else assoc k l'
  end.

(** The entries without those of key [k]. *)
Definition without (k : Z) (l : list SmartKey) : list SmartKey :=
  filter (fun e => key e <> k) l.

(** A page of height [h]: leaves are at depth [h]; below the root every page
    holds at least [DEGREE - 1] entries; a page that is not a leaf holds at
    least one entry and one more child than entries. *)
Fixpoint shape (h : nat) (p : Page) : Prop :=
  match h with
  | O => bottom p = true /\ children p = []
  | S h' =>
      bottom p = false /\ keys p <> [] /\
      length (children p) = S (length (keys p)) /\
      Forall (fun c => shape h' c /\ (DEGREE - 1 <= length (keys c))%nat) (children p)
  end.

(** A well-formed tree of height [h] (the root may hold fewer than
    [DEGREE - 1] entries; no upper bound is asked). *)
Definition wf (h : nat) (p : Page) : Prop := shape h p /\ sorted (contents p).



(** What a call [remove] on a well-formed page [p] of height [h] returns:
    the state of [p] and the returned page.  The returned page holds the
    entries of [p] without the key; it is [p] itself, well-formed, with at
    most one entry less, or [p] held one entry and the returned page is the
    merged page, one level lower. *)
Definition removed (h : nat) (p : Page) (k : Z) (res : Page * Page) : Prop :=
  contents (snd res) = without k (contents p) /\
  ((snd res = fst res /\ shape h (fst res) /\
    (length (keys p) <= S (length (keys (fst res))))%nat)
   \/ (exists h', h = S h' /\ length (keys p) = 1%nat /\ shape h' (snd res))).

(** Calls on the public surface, and a run of them from a tree. *)
Inductive op := Insert (k v : Z) | Remove (k : Z).

Definition step (t : BTree) (o : op) : result BTree :=
  match o with
  | Insert k v => BTree.add_key_value t k v
  | Remove k => BTree.remove t k
  end.

Fixpoint run (t : BTree) (ops : list op) : result BTree :=
  match ops with
  | [] => Ok t
  | o :: ops' => let* t' := step t o in run t' ops'
  end.



(** The entry that the insertion of a key and a value makes, and the
    insertions of a list of keys with their values. *)
Definition entry_of (kv : Z * Z) : SmartKey := mkSmartKey (fst kv) [snd kv].

Definition inserts_of (kvs : list (Z * Z)) : list op :=
  map (fun kv => Insert (fst kv) (snd kv)) kvs.

(** Inputs of the examples: the entries and the insertions of the keys
    [1 .. n] (each with its key as value), and the seven insertions of the
    scenario with a repeated key. *)
Definition entries_upto (n : nat) : list SmartKey :=
  map (fun i => mkSmartKey (Z.of_nat i) [Z.of_nat i]) (seq 1 n).

Definition pairs_upto (n : nat) : list (Z * Z) :=
  map (fun i => (Z.of_nat i, Z.of_nat i)) (seq 1 n).

Definition inserts_upto (n : nat) : list op :=
  map (fun i => Insert (Z.of_nat i) (Z.of_nat i)) (seq 1 n).

(** The tree that the insertions of the keys [1 .. 31] build: the entry 16
    over the leaves of [1 .. 15] and [17 .. 31]. *)
Definition two_level : BTree :=
  mkBTree (mkPage false (take 1 (drop 15 (entries_upto 31)))
             [mkPage true (take 15 (entries_upto 31)) [];
              mkPage true (drop 16 (entries_upto 31)) []]).

Definition scenario : list op :=
  [Insert 13 0; Insert 8 1; Insert 3 2; Insert 2 3; Insert 5 4; Insert 1 5; Insert 1 6].

(** The same calls on the index that the tests compare with, and the
    insertions alone on the list index (it has no removal). *)
Definition naive_step (n : gmap Z (list Z)) (o : op) : gmap Z (list Z) :=
  match o with
  | Insert k v => NaiveTreeIndex.add_key_value n k v
  | Remove k => NaiveTreeIndex.remove n k
  end.

Definition naive_run (n : gmap Z (list Z)) (ops : list op) : gmap Z (list Z) :=
  foldl naive_step n ops.

Definition list_run (l : list (Z * list Z)) (kvs : list (Z * Z)) : list (Z * list Z) :=
  foldl (fun l kv => NaiveListIndex.add_key_value l (fst kv) (snd kv)) l kvs.

(** * Properties *)

(** ** Lists at a known position *)

Section PyListFacts.
Context {A : Type}.
Implicit Types (l : list A) (x : A).

Lemma py_get_Some l i x : l !! i = Some x -> py_get l i = Ok x.
Proof. unfold py_get. by intros ->. Qed.

Lemma py_get_middle l1 l2 x : py_get (l1 ++ x :: l2) (length l1) = Ok x.
Proof. apply py_get_Some. by apply list_lookup_middle. Qed.

Lemma py_get_Ok l i x : py_get l i = Ok x -> l !! i = Some x.
Proof. unfold py_get. destruct (l !! i); naive_solver. Qed.

Lemma py_set_middle l1 l2 x y :
  py_set (l1 ++ x :: l2) (length l1) y = Ok (l1 ++ y :: l2).
Proof.
  unfold py_set. rewrite decide_True by (rewrite length_app; simpl; lia).
  rewrite insert_app_r_alt by lia. by rewrite Nat.sub_diag.
Qed.

Lemma py_pop_middle l1 l2 x : py_pop (l1 ++ x :: l2) (length l1) = Ok (l1 ++ l2).
Proof.
  unfold py_pop. rewrite decide_True by (rewrite length_app; simpl; lia).
  by rewrite delete_middle.
Qed.

Lemma insert_middle l1 l2 x y : <[length l1 := y]> (l1 ++ x :: l2) = l1 ++ y :: l2.
Proof. rewrite insert_app_r_alt by lia. by rewrite Nat.sub_diag. Qed.

Lemma py_index_last l x : py_index (l ++ [x]) (-1) = Ok (length l).
Proof.
  unfold py_index. rewrite length_app. simpl.
  replace (Z.to_nat (Z.of_nat (length l + 1) + -1)) with (length l) by lia.
  destruct (Z.of_nat (length l + 1) + -1) eqn:E; try lia; done.
Qed.

Lemma py_index_nat l (i : nat) :
  (i < length l)%nat -> py_index l (Z.of_nat i) = Ok i.
Proof.
  intros Hi. unfold py_index.
  destruct (Z.leb_spec 0 (Z.of_nat i)); [|lia].
  destruct (Z.ltb_spec (Z.of_nat i) (Z.of_nat (length l))); [|lia].
  simpl. by rewrite Nat2Z.id.
Qed.

Lemma py_getZ_last l x : py_getZ (l ++ [x]) (-1) = Ok x.
Proof. unfold py_getZ. rewrite py_index_last. simpl. apply py_get_middle. Qed.

Lemma py_popZ_last l x :
  py_popZ (l ++ [x]) (Z.of_nat (length (l ++ [x])) - 1) = Ok l.
Proof.
  unfold py_popZ. rewrite length_app. simpl.
  replace (Z.of_nat (length l + 1) - 1) with (Z.of_nat (length l)) by lia.
  rewrite py_index_nat by (rewrite length_app; simpl; lia). simpl.
  rewrite py_pop_middle. by rewrite app_nil_r.
Qed.

Lemma on_item_lookup {B} (f : A -> result B) l i :
  on_item f l i = match l !! i with Some x => f x | None => Raise IndexError end.
Proof.
  revert i. induction l as [|y l IH]; intros [|i]; simpl; auto.
Qed.

Lemma on_item_middle {B} (f : A -> result B) l1 l2 x :
  on_item f (l1 ++ x :: l2) (length l1) = f x.
Proof. rewrite on_item_lookup. by rewrite list_lookup_middle. Qed.

Lemma on_last_snoc {B} (f : A -> result B) l x : on_last f (l ++ [x]) = f x.
Proof.
  induction l as [|y l IH]; simpl; [done|].
  destruct (l ++ [x]) eqn:E; [by destruct l|]. by rewrite <- IH.
Qed.

Lemma py_insert_app l1 l2 x : py_insert (l1 ++ l2) (length l1) x = l1 ++ x :: l2.
Proof. unfold py_insert. by rewrite take_app_length, drop_app_length. Qed.
End PyListFacts.

Lemma bind_Ok {A B} (m : result A) (f : A -> result B) b :
  bind m f = Ok b -> exists a, m = Ok a /\ f a = Ok b.
Proof. destruct m; simpl; [eauto|done|done]. Qed.

(** ** Sorted entries and [bisect_right] *)

Lemma sorted_lookup l i j a b :
  sorted l -> (i < j)%nat -> l !! i = Some a -> l !! j = Some b -> key a < key b.
Proof.
  intros Hs. revert i j. induction Hs as [|x l Hs IH Hx]; intros i j Hij Ha Hb.
  - done.
  - destruct j as [|j]; [lia|]. simpl in Hb. destruct i as [|i]; simpl in Ha.
    + injection Ha as ->. rewrite Forall_forall in Hx.
      apply Hx. by eapply list_elem_of_lookup_2.
    + eapply (IH i j); [lia|done..].
Qed.

Lemma sorted_app l1 l2 :
  sorted (l1 ++ l2) <->
  Forall (fun a => Forall (fun b => key a < key b) l2) l1 /\ sorted l1 /\ sorted l2.
Proof.
  unfold sorted. rewrite StronglySorted_app. rewrite Forall_forall.
  setoid_rewrite Forall_forall. unfold key_lt. split.
  - intros (H12 & Hl & Hr). eauto.
  - intros (H12 & Hl & Hr). eauto.
Qed.

Lemma sorted_cons x l :
  sorted (x :: l) <-> Forall (fun b => key x < key b) l /\ sorted l.
Proof. unfold sorted. by rewrite StronglySorted_cons. Qed.

Lemma sorted_nil : sorted [].
Proof. constructor. Qed.

Lemma sorted_singleton x : sorted [x].
Proof. apply sorted_cons. split; [constructor | apply sorted_nil]. Qed.

Lemma bisect_loop_spec fuel a x lo hi :
  sorted a -> (lo <= hi <= length a)%nat -> (hi - lo <= fuel)%nat ->
  (forall j e, (j < lo)%nat -> a !! j = Some e -> key e <= x) ->
  (forall j e, (hi <= j)%nat -> a !! j = Some e -> x < key e) ->
  let r := bisect_loop fuel a x lo hi in
  (lo <= r <= hi)%nat /\
  (forall j e, (j < r)%nat -> a !! j = Some e -> key e <= x) /\
  (forall j e, (r <= j)%nat -> a !! j = Some e -> x < key e).
Proof.
  intros Hs. revert lo hi.
  induction fuel as [|n IH]; intros lo hi Hb Hf Hlo Hhi; cbn [bisect_loop]; cbv zeta.
  - assert (lo = hi) as -> by lia. eauto with lia.
  - destruct (Nat.ltb_spec lo hi) as [Hlt|Hge].
    2:{ assert (lo = hi) as -> by lia. eauto with lia. }
    pose proof (Nat.div_mod_eq (lo + hi) 2) as Hd.
    pose proof (Nat.mod_upper_bound (lo + hi) 2) as Hm.
    set (mid := ((lo + hi) / 2)%nat) in *.
    assert (lo <= mid < hi)%nat as Hmid by lia.
    destruct (lookup_lt_is_Some_2 a mid) as [e He]; [lia|].
    rewrite He. destruct (Z.ltb_spec x (key e)) as [Hx|Hx].
    + destruct (IH lo mid) as (Hr & H1 & H2); [lia|lia|done| |].
      * intros j e' Hj He'. destruct (decide (j = mid)) as [->|Hne].
        -- replace e' with e by congruence. lia.
        -- pose proof (sorted_lookup a mid j e e' Hs ltac:(lia) He He'). lia.
      * split; [lia|done].
    + destruct (IH (S mid) hi) as (Hr & H1 & H2); [lia|lia| |done|].
      * intros j e' Hj He'. destruct (decide (j = mid)) as [->|Hne].
        -- replace e' with e by congruence. lia.
        -- pose proof (sorted_lookup a j mid e' e Hs ltac:(lia) He' He). lia.
      * split; [lia|done].
Qed.

Lemma bisect_right_spec a x :
  sorted a ->
  let r := bisect_right a x in
  (r <= length a)%nat /\
  Forall (fun e => key e <= x) (take r a) /\
  Forall (fun e => x < key e) (drop r a).
Proof.
  intros Hs. unfold bisect_right.
  destruct (bisect_loop_spec (length a) a x 0 (length a) Hs) as (Hr & H1 & H2);
    [lia|lia|lia| |].
  { intros j e Hj He. apply lookup_lt_Some in He. lia. }
  simpl. split; [lia|]. split; apply Forall_lookup_2; intros i e He.
  - apply lookup_take_Some in He as [He Hi]. eauto.
  - rewrite lookup_drop in He. eapply H2; [|done]. lia.
Qed.

(** [bisect_right] finds the boundary between the entries with a key at most
    [x] and those with a greater key. *)
Lemma bisect_right_app l1 l2 x :
  sorted (l1 ++ l2) ->
  Forall (fun e => key e <= x) l1 -> Forall (fun e => x < key e) l2 ->
  bisect_right (l1 ++ l2) x = length l1.
Proof.
  intros Hs H1 H2. destruct (bisect_right_spec _ x Hs) as (Hr & Hl & Hg).
  set (r := bisect_right (l1 ++ l2) x) in *.
  destruct (Nat.lt_trichotomy r (length l1)) as [Hlt|[Heq|Hgt]]; [|done|].
  - destruct (lookup_lt_is_Some_2 l1 r Hlt) as [e He].
    rewrite Forall_lookup in H1. specialize (H1 _ _ He).
    rewrite Forall_lookup in Hg. specialize (Hg 0%nat e).
    rewrite lookup_drop, Nat.add_0_r, lookup_app_l in Hg by done.
    specialize (Hg He). lia.
  - rewrite length_app in Hr. destruct l2 as [|e l2]; [simpl in Hr; lia|].
    apply Forall_cons in H2 as [H2 _].
    rewrite Forall_lookup in Hl. specialize (Hl (length l1) e).
    rewrite lookup_take_lt, list_lookup_middle in Hl by done.
    specialize (Hl eq_refl). lia.
Qed.

Lemma bisect_right_split a x :
  sorted a ->
  exists l1 l2, a = l1 ++ l2 /\ bisect_right a x = length l1 /\
    Forall (fun e => key e <= x) l1 /\ Forall (fun e => x < key e) l2.
Proof.
  intros Hs. destruct (bisect_right_spec a x Hs) as (Hr & H1 & H2).
  exists (take (bisect_right a x) a), (drop (bisect_right a x) a).
  rewrite take_drop, length_take. split; [done|]. split; [lia|done].
Qed.

Lemma sorted_snoc l x :
  sorted (l ++ [x]) <-> Forall (fun a => key a < key x) l /\ sorted l.
Proof.
  rewrite sorted_app. split.
  - intros (H & Hl & _). split; [|done].
    eapply Forall_impl; [exact H|]. intros a Ha. cbv beta in Ha. by rewrite Forall_singleton in Ha.
  - intros (H & Hl). split; [|split; [done | apply sorted_singleton]].
    eapply Forall_impl; [exact H|]. intros a Ha. cbv beta. by rewrite Forall_singleton.
Qed.

Lemma sorted_middle l1 x l2 :
  sorted (l1 ++ x :: l2) <->
  Forall (fun a => key a < key x) l1 /\ Forall (fun b => key x < key b) l2 /\
  Forall (fun a => Forall (fun b => key a < key b) l2) l1 /\ sorted l1 /\ sorted l2.
Proof.
  rewrite sorted_app, sorted_cons. split.
  - intros (H & Hl & Hx & Hr). repeat split; try done.
    + eapply Forall_impl; [exact H|]. intros a Ha. cbv beta in Ha. rewrite Forall_cons in Ha. tauto.
    + eapply Forall_impl; [exact H|]. intros a Ha. cbv beta in Ha. rewrite Forall_cons in Ha. tauto.
  - intros (H1 & H2 & H12 & Hl & Hr). repeat split; try done.
    rewrite Forall_forall in H1, H12. apply Forall_forall. intros a Ha.
    apply Forall_cons. eauto.
Qed.

Lemma Forall_keys_ext (P : Z -> Prop) l l' :
  map key l = map key l' ->
  Forall (fun e => P (key e)) l -> Forall (fun e => P (key e)) l'.
Proof.
  revert l'. induction l as [|x l IH]; intros [|y l'] Heq H;
    simpl in Heq; try discriminate; [constructor|].
  injection Heq as Hxy Heq. apply Forall_cons in H as [Hx H].
  constructor; [by rewrite <- Hxy | by apply IH].
Qed.

(** Sortedness reads the keys only. *)
Lemma sorted_keys_ext l l' : map key l = map key l' -> sorted l -> sorted l'.
Proof.
  revert l'. induction l as [|x l IH]; intros [|y l'] Heq Hs;
    simpl in Heq; try discriminate.
  - apply sorted_nil.
  - injection Heq as Hxy Heq. apply sorted_cons in Hs as [Hx Hs].
    apply sorted_cons. split; [|by apply IH].
    rewrite <- Hxy. by apply (Forall_keys_ext (fun b => key x < b) l l').
Qed.

Lemma bisect_right_nil x : bisect_right [] x = 0%nat.
Proof. reflexivity. Qed.

(** ** Adding to a page (C10) *)

(** C10.  On a page whose entries are strictly increasing by key,
    [add_key_value] returns, and the entries are strictly increasing again:
    an entry that has the key gets the value appended to its value list and
    nothing else changes; when no entry has the key, a new entry holding the
    one value is inserted at the position found by [bisect_right]. *)
Theorem add_key_value_keeps_sorted (self : Page) (k v : Z) :
  sorted (keys self) ->
  exists self',
    Page.add_key_value self k v = Ok self' /\
    sorted (keys self') /\
    bottom self' = bottom self /\ children self' = children self /\
    (forall i e, keys self !! i = Some e -> key e = k ->
       keys self' = <[i := mkSmartKey k (value e ++ [v])]> (keys self)) /\
    ((forall e, e ∈ keys self -> key e <> k) ->
       keys self' = py_insert (keys self) (bisect_right (keys self) k) (mkSmartKey k [v])).
Proof.
  intros Hs. destruct self as [b ks cs]. unfold Page.add_key_value. simpl in *.
  destruct (bisect_right_split ks k Hs) as (l1 & l2 & -> & Hr & H1 & H2).
  destruct l1 as [|e l1 _] using rev_ind.
  - (* every key is greater: insertion in front *)
    rewrite Hr. simpl. assert (Hins : sorted (mkSmartKey k [v] :: l2)).
    { apply sorted_cons. split; [done|]. by apply sorted_app in Hs as (_ & _ & ?). }
    destruct l2 as [|e2 l2]; simpl.
    + eexists. split; [done|]. repeat split; try done.
    + eexists. split; [done|]. repeat split; try done.
      intros i e Hi Hk. apply list_elem_of_lookup_2 in Hi.
      rewrite Forall_forall in H2. specialize (H2 _ Hi). lia.
  - rewrite <- app_assoc in Hr, Hs |- *. simpl in Hr, Hs |- *.
    rewrite length_app in Hr. simpl in Hr. rewrite Hr.
    replace (length (l1 ++ e :: l2) =? 0)%nat with false.
    2:{ symmetry. apply Nat.eqb_neq. rewrite !length_app. simpl. lia. }
    replace (0 <? length l1 + 1)%nat with true by (symmetry; apply Nat.ltb_lt; lia).
    replace (length l1 + 1 - 1)%nat with (length l1) by lia.
    rewrite py_get_middle. simpl.
    apply sorted_middle in Hs as (Hl & Hg & Hlg & Hs1 & Hs2).
    apply Forall_app in H1 as [H1 He]. rewrite Forall_singleton in He.
    destruct (Z.eqb_spec (key e) k) as [Hek|Hek].
    + (* the key is there *)
      eexists. split; [done|]. simpl. rewrite insert_middle.
      split.
      { eapply (sorted_keys_ext (l1 ++ e :: l2)).
        - by rewrite !map_app.
        - apply sorted_middle. done. }
      repeat split; try done.
      * intros i e' Hi Hk.
        assert (i = length l1) as ->.
        { destruct (Nat.lt_trichotomy i (length l1)) as [Hlt|[Heq|Hgt]]; [|done|].
          - rewrite lookup_app_l in Hi by done. apply list_elem_of_lookup_2 in Hi.
            rewrite Forall_forall in Hl. specialize (Hl _ Hi). lia.
          - rewrite lookup_app_r in Hi by lia.
            destruct (i - length l1)%nat as [|j] eqn:Ej; [lia|]. simpl in Hi.
            apply list_elem_of_lookup_2 in Hi.
            rewrite Forall_forall in H2. specialize (H2 _ Hi). lia. }
        rewrite list_lookup_middle in Hi by done. injection Hi as <-.
        rewrite insert_middle. unfold Page.extend_value. by rewrite Hek.
      * intros Hno. exfalso. apply (Hno e); [|done].
        rewrite elem_of_app, elem_of_cons. tauto.
    + (* the key is new: insertion after the entries with a smaller key *)
      eexists. split; [done|]. simpl.
      replace (l1 ++ e :: l2) with ((l1 ++ [e]) ++ l2) by (by rewrite <- app_assoc).
      replace (length l1 + 1)%nat with (length (l1 ++ [e])) by (rewrite length_app; simpl; lia).
      rewrite py_insert_app. split.
      { apply sorted_middle. repeat split.
        - apply Forall_app. split.
          + eapply Forall_impl; [exact Hl|]. simpl. lia.
          + apply Forall_singleton. simpl. lia.
        - done.
        - apply Forall_app. split; [done|]. by apply Forall_singleton.
        - apply sorted_snoc. done.
        - done. }
      repeat split; try done.
      intros i e' Hi Hk. exfalso.
      apply list_elem_of_lookup_2 in Hi.
      rewrite !elem_of_app, list_elem_of_singleton in Hi.
      destruct Hi as [[Hi| ->]|Hi]; [|done|].
      * rewrite Forall_forall in Hl. specialize (Hl _ Hi). lia.
      * rewrite Forall_forall in H2. specialize (H2 _ Hi). lia.
Qed.

Lemma add_key_value_keeps_sorted_witness :
  exists self',
    Page.add_key_value (mkPage true [mkSmartKey 1 [10]; mkSmartKey 3 [30]] []) 3 31
      = Ok self' /\
    sorted (keys self') /\
    bottom self' = true /\ children self' = [] /\
    (forall i e, [mkSmartKey 1 [10]; mkSmartKey 3 [30]] !! i = Some e -> key e = 3 ->
       keys self' = <[i := mkSmartKey 3 (value e ++ [31])]>
                      [mkSmartKey 1 [10]; mkSmartKey 3 [30]]) /\
    ((forall e, e ∈ [mkSmartKey 1 [10]; mkSmartKey 3 [30]] -> key e <> 3) ->
       keys self' = py_insert [mkSmartKey 1 [10]; mkSmartKey 3 [30]]
                      (bisect_right [mkSmartKey 1 [10]; mkSmartKey 3 [30]] 3)
                      (mkSmartKey 3 [31])).
Proof.
  apply (add_key_value_keeps_sorted
           (mkPage true [mkSmartKey 1 [10]; mkSmartKey 3 [30]] []) 3 31).
  unfold sorted, key_lt. simpl. repeat constructor; simpl; lia.
Defined.

(** ** Splitting a full page (C4) *)

(** The right page that [split] makes of the full leaf with the keys
    [1 .. 31] holds 15 entries, [17 .. 31]: not the last [DEGREE] entries of
    the page. *)
Lemma split_right_half_counterexample :
  let p := mkPage true (entries_upto 31) [] in
  length (keys p) = (2 * DEGREE - 1)%nat /\
  exists l k r, Page.split p = Ok (l, (k, r)) /\
    length (keys r) = 15%nat /\
    keys r <> drop (length (keys p) - DEGREE) (keys p).
Proof.
  split; [reflexivity|]. do 3 eexists. split; [reflexivity|].
  split; [reflexivity|]. vm_compute. discriminate.
Qed.

(** C4, amended.  [split] of a full page (31 entries) returns: the entry at
    position [DEGREE - 1]; [self] left with the first [DEGREE - 1] entries and
    the first [DEGREE] children; and a new page of the same kind with the
    last [DEGREE - 1] entries and the other children.  The three parts make up
    the entries of the page. *)
Theorem split_full (self : Page) :
  length (keys self) = (2 * DEGREE - 1)%nat ->
  exists r_key,
    keys self !! (DEGREE - 1)%nat = Some r_key /\
    Page.split self =
      Ok (mkPage (bottom self) (take (DEGREE - 1) (keys self)) (take DEGREE (children self)),
          (r_key,
           mkPage (bottom self) (drop DEGREE (keys self)) (drop DEGREE (children self)))) /\
    keys self = take (DEGREE - 1) (keys self) ++ r_key :: drop DEGREE (keys self) /\
    length (take (DEGREE - 1) (keys self)) = (DEGREE - 1)%nat /\
    length (drop DEGREE (keys self)) = (DEGREE - 1)%nat /\
    drop DEGREE (keys self) = drop (length (keys self) - (DEGREE - 1)) (keys self) /\
    children self = take DEGREE (children self) ++ drop DEGREE (children self).
Proof.
  intros Hlen. unfold Page.split.
  change (DEGREE - 1)%nat with 15%nat in *. change DEGREE with 16%nat in *.
  destruct (lookup_lt_is_Some_2 (keys self) 15) as [r_key Hk]; [lia|].
  exists r_key. split; [done|].
  rewrite (py_get_Some _ _ _ Hk). simpl bind. split; [done|]. split.
  { symmetry. by apply take_drop_middle. }
  rewrite length_take, length_drop, Hlen. repeat split; try lia.
  by rewrite take_drop.
Qed.

Lemma split_full_witness :
  exists r_key,
    keys (mkPage true (entries_upto 31) []) !! (DEGREE - 1)%nat = Some r_key /\
    Page.split (mkPage true (entries_upto 31) []) =
      Ok (mkPage true (take (DEGREE - 1) (entries_upto 31)) (take DEGREE []),
          (r_key, mkPage true (drop DEGREE (entries_upto 31)) (drop DEGREE []))) /\
    entries_upto 31 = take (DEGREE - 1) (entries_upto 31) ++ r_key :: drop DEGREE (entries_upto 31) /\
    length (take (DEGREE - 1) (entries_upto 31)) = (DEGREE - 1)%nat /\
    length (drop DEGREE (entries_upto 31)) = (DEGREE - 1)%nat /\
    drop DEGREE (entries_upto 31) = drop (length (entries_upto 31) - (DEGREE - 1)) (entries_upto 31) /\
    @nil Page = take DEGREE [] ++ drop DEGREE [].
Proof.
  apply (split_full (mkPage true (entries_upto 31) [])). reflexivity.
Defined.

(** ** A new tree (C9) *)

(** C9.  A new tree has an empty leaf as root; [find_key] returns [None] for
    any key and [remove] of any key returns with the tree unchanged. *)
Theorem fresh_tree_find_remove (k : Z) :
  root BTree.__init__ = mkPage true [] [] /\
  BTree.find_key BTree.__init__ k = Ok None /\
  BTree.remove BTree.__init__ k = Ok BTree.__init__.
Proof. repeat split. Qed.

(** ** Insertion below the root (C1) *)

Lemma put_Ok_inv page k v page' :
  BTree._put page k v = Ok page' ->
  (bottom page || existsb (fun e => key e =? k) (keys page)) = true /\
  Page.add_key_value page k v = Ok page'.
Proof.
  destruct page as [b ks cs]. simpl.
  destruct (b || existsb (fun e => key e =? k) ks); [done|].
  intros H. exfalso.
  apply bind_Ok in H as (nxt & _ & H).
  apply bind_Ok in H as (page2 & _ & H).
  discriminate H.
Qed.

(** C1 fails on the code.  [_put] never returns from a page that is not a
    leaf and does not hold the key: the call ends in [nxt.close()], which
    raises.  The insertions of the keys [1 .. 31] return and leave a root with
    two leaves; the insertion of the key [32] then raises [AttributeError]. *)
Theorem put_below_root_raises :
  (forall page k v,
     bottom page = false -> Forall (fun e => key e <> k) (keys page) ->
     forall page', BTree._put page k v <> Ok page') /\
  exists t,
    run BTree.__init__ (inserts_upto 31) = Ok t /\
    depth (root t) = 1%nat /\
    BTree.add_key_value t 32 32 = Raise AttributeError.
Proof.
  split.
  - intros page k v Hb Hk page' H. apply put_Ok_inv in H as [H _].
    rewrite Hb in H. simpl in H. apply existsb_exists in H as (e & He & Hek).
    rewrite Forall_forall in Hk. apply (Hk e); [by apply list_elem_of_In|lia].
  - eexists. split; [vm_compute; reflexivity|]. split; reflexivity.
Qed.

(** ** The root split (C7) *)

Lemma add_key_value_frame self k v self' :
  Page.add_key_value self k v = Ok self' ->
  bottom self' = bottom self /\ children self' = children self.
Proof.
  unfold Page.add_key_value. intros H.
  repeat match type of H with
         | (if ?c then _ else _) = _ => destruct c
         | bind _ _ = Ok _ => apply bind_Ok in H as (? & _ & H)
         end; injection H as <-; done.
Qed.

Lemma bisect_right_all_le a x :
  sorted a -> Forall (fun e => key e <= x) a -> bisect_right a x = length a.
Proof.
  intros Hs Ha. rewrite <- (app_nil_r a) at 1.
  apply bisect_right_app; [by rewrite app_nil_r|done|constructor].
Qed.

Lemma py_insert_end {A} (l : list A) x : py_insert l (length l) x = l ++ [x].
Proof. unfold py_insert. by rewrite firstn_all, drop_all. Qed.

Lemma put_leaf_append ks k v :
  sorted ks -> Forall (fun e => key e < k) ks ->
  BTree._put (mkPage true ks []) k v = Ok (mkPage true (ks ++ [mkSmartKey k [v]]) []).
Proof.
  intros Hs Hk. simpl. unfold Page.add_key_value. simpl.
  destruct ks as [|e ks _] using rev_ind; [done|].
  replace (length (ks ++ [e]) =? 0)%nat with false
    by (symmetry; apply Nat.eqb_neq; rewrite length_app; simpl; lia).
  rewrite bisect_right_all_le; [|done|].
  2:{ eapply Forall_impl; [exact Hk|]. simpl. lia. }
  rewrite py_insert_end, length_app. simpl.
  replace (0 <? length ks + 1)%nat with true by (symmetry; apply Nat.ltb_lt; lia).
  replace (length ks + 1 - 1)%nat with (length ks) by lia.
  rewrite py_get_middle. simpl.
  apply Forall_app in Hk as [_ He]. rewrite Forall_singleton in He.
  destruct (Z.eqb_spec (key e) k); [lia|].
  done.
Qed.

Lemma run_app t ops1 ops2 :
  run t (ops1 ++ ops2) = let* t' := run t ops1 in run t' ops2.
Proof.
  revert t. induction ops1 as [|o ops1 IH]; intros t; simpl; [done|].
  destruct (step t o); simpl; auto.
Qed.

Lemma run_ascending kvs es :
  sorted (es ++ map entry_of kvs) -> (length es + length kvs < 31)%nat ->
  run (mkBTree (mkPage true es [])) (inserts_of kvs)
  = Ok (mkBTree (mkPage true (es ++ map entry_of kvs) [])).
Proof.
  revert es. induction kvs as [|[k v] kvs IH]; intros es Hs Hlen.
  { simpl. by rewrite app_nil_r. }
  change (inserts_of ((k, v) :: kvs)) with (Insert k v :: inserts_of kvs).
  cbn [run step].
  simpl in Hs, Hlen. pose proof Hs as Hs'.
  apply sorted_middle in Hs' as (Hlt & _ & _ & Hes & _).
  unfold BTree.add_key_value. simpl root.
  rewrite put_leaf_append by done. simpl bind.
  unfold Page.is_full. simpl keys.
  replace (length (es ++ [{| key := k; value := [v] |}]) =? DEGREE * 2 - 1)%nat with false.
  2:{ symmetry. apply Nat.eqb_neq. rewrite length_app. unfold DEGREE. simpl. lia. }
  cbn [bind]. rewrite IH.
  - simpl. by rewrite <- app_assoc.
  - by rewrite <- app_assoc.
  - rewrite length_app. simpl. lia.
Qed.

Lemma print_tree_leaf ks :
  BTree.print_tree (mkBTree (mkPage true ks [])) = Ok [[map key ks]].
Proof. reflexivity. Qed.

Lemma map_key_entry_of kvs : map key (map entry_of kvs) = map fst kvs.
Proof. rewrite map_map. by apply map_ext. Qed.

Lemma depth_take b ks cs n :
  depth (mkPage b ks (take (S n) cs)) = depth (mkPage b ks cs).
Proof. by destruct cs. Qed.

(** C7.  When [_put] has returned to [add_key_value]: the height is the one
    before the call; a root that is not full stays the root; a full root is
    split, and the new root is a page that is not a leaf, with the promoted
    entry as its one entry and the two halves as its children, one level
    higher.  Insertions of 31 keys in increasing order: the tree is one leaf
    (one printed level) after each of the first 30 and has two levels after
    the 31st, the 16th key above the first 15 and the last 15 keys. *)
Theorem root_split_only_when_full :
  (forall t k v root1,
     BTree._put (root t) k v = Ok root1 ->
     depth root1 = depth (root t) /\
     (Page.is_full root1 = false ->
        BTree.add_key_value t k v = Ok (mkBTree root1)) /\
     (Page.is_full root1 = true ->
        exists left_ k' right_,
          Page.split root1 = Ok (left_, (k', right_)) /\
          BTree.add_key_value t k v = Ok (mkBTree (mkPage false [k'] [left_; right_])) /\
          depth (mkPage false [k'] [left_; right_]) = S (depth (root t)))) /\
  (forall kvs,
     length kvs = 31%nat -> sorted (map entry_of kvs) ->
     (forall n, (n < 31)%nat ->
        exists t, run BTree.__init__ (inserts_of (take n kvs)) = Ok t /\
                  BTree.print_tree t = Ok [[map fst (take n kvs)]]) /\
     exists t, run BTree.__init__ (inserts_of kvs) = Ok t /\
               BTree.print_tree t =
                 Ok [[map fst (take 1 (drop 15 kvs))];
                     [map fst (take 15 kvs); map fst (drop 16 kvs)]]).
Proof.
  split.
  - intros t k v root1 Hput.
    pose proof (put_Ok_inv _ _ _ _ Hput) as [_ Hadd].
    apply add_key_value_frame in Hadd as [Hb Hc].
    assert (Hd : depth root1 = depth (root t)).
    { destruct root1, (root t). simpl in *. by subst. }
    unfold BTree.add_key_value. rewrite Hput. simpl bind.
    split; [done|]. split.
    + by intros ->.
    + intros Hfull. rewrite Hfull. unfold Page.is_full in Hfull.
      apply Nat.eqb_eq in Hfull.
      destruct (lookup_lt_is_Some_2 (keys root1) (DEGREE - 1)) as [rk Hrk].
      { rewrite Hfull. unfold DEGREE. simpl. lia. }
      unfold Page.split. rewrite (py_get_Some _ _ _ Hrk). simpl bind.
      do 3 eexists. split; [done|]. split; [done|].
      rewrite <- Hd. destruct root1 as [b ks [|c cs]]; done.
  - intros kvs Hlen Hs. split.
    + intros n Hn. eexists. unfold BTree.__init__. rewrite run_ascending.
      * split; [done|]. rewrite print_tree_leaf. simpl.
        by rewrite map_key_entry_of.
      * simpl. rewrite <- (take_drop n kvs), map_app in Hs.
        by apply sorted_app in Hs as (_ & ? & _).
      * simpl. rewrite length_take. lia.
    + destruct (drop 30 kvs) as [|[k v] [|? ?]] eqn:Hd;
        try (apply (f_equal length) in Hd; rewrite length_drop in Hd; simpl in Hd; lia).
      assert (Hkvs : kvs = take 30 kvs ++ [(k, v)]).
      { rewrite <- Hd. by rewrite take_drop. }
      assert (Hrun : run BTree.__init__ (inserts_of kvs)
                     = BTree.add_key_value
                         (mkBTree (mkPage true (map entry_of (take 30 kvs)) [])) k v).
      { rewrite Hkvs at 1. unfold inserts_of. rewrite map_app, run_app.
        fold (inserts_of (take 30 kvs)). unfold BTree.__init__.
        rewrite run_ascending; simpl.
        - by destruct (BTree.add_key_value _ k v).
        - rewrite <- (take_drop 30 kvs), map_app in Hs.
          by apply sorted_app in Hs as (_ & ? & _).
        - rewrite length_take. lia. }
      rewrite Hrun. clear Hrun.
      pose proof Hs as Hs'. rewrite Hkvs, map_app in Hs'. simpl in Hs'.
      apply sorted_snoc in Hs' as [Hlt Hs'].
      unfold BTree.add_key_value. simpl root.
      rewrite put_leaf_append by done. simpl bind.
      replace (map entry_of (take 30 kvs) ++ [{| key := k; value := [v] |}])
        with (map entry_of kvs) by (rewrite Hkvs at 1; by rewrite map_app).
      unfold Page.is_full. simpl keys. rewrite length_map, Hlen. simpl.
      destruct (lookup_lt_is_Some_2 kvs 15) as [kv Hkv]; [lia|].
      unfold Page.split. simpl keys. change (DEGREE - 1)%nat with 15%nat.
      rewrite (py_get_Some _ 15 (entry_of kv)).
      2:{ change (map entry_of kvs) with (entry_of <$> kvs).
          by rewrite list_lookup_fmap, Hkv. }
      simpl. eexists. split; [done|]. unfold BTree.print_tree. simpl.
      change DEGREE with 16%nat.
      rewrite firstn_map, skipn_map, !map_key_entry_of.
      by rewrite (drop_S _ _ _ Hkv).
Qed.

Lemma root_split_only_when_full_witness :
  (forall n, (n < 31)%nat ->
     exists t, run BTree.__init__ (inserts_of (take n (pairs_upto 31))) = Ok t /\
               BTree.print_tree t = Ok [[map fst (take n (pairs_upto 31))]]) /\
  exists t, run BTree.__init__ (inserts_of (pairs_upto 31)) = Ok t /\
            BTree.print_tree t =
              Ok [[map fst (take 1 (drop 15 (pairs_upto 31)))];
                  [map fst (take 15 (pairs_upto 31)); map fst (drop 16 (pairs_upto 31))]].
Proof.
  apply (proj2 root_split_only_when_full (pairs_upto 31)).
  - reflexivity.
  - unfold sorted, key_lt. simpl. repeat constructor; simpl; lia.
Defined.

(** ** The cases of [remove] *)

Lemma bisect_right_found ks i e :
  sorted ks -> ks !! i = Some e -> bisect_right ks (key e) = S i.
Proof.
  intros Hs Hi. rewrite <- (take_drop_middle _ _ _ Hi) in Hs |- *.
  apply sorted_middle in Hs as Hm. destruct Hm as (Hl & Hg & _).
  replace (take i ks ++ e :: drop (S i) ks) with ((take i ks ++ [e]) ++ drop (S i) ks)
    in Hs |- * by (by rewrite <- app_assoc).
  rewrite bisect_right_app; [|done| |done].
  - rewrite length_app, length_take. apply lookup_lt_Some in Hi. simpl. lia.
  - apply Forall_app. split.
    + eapply Forall_impl; [exact Hl|]. simpl. lia.
    + apply Forall_singleton. lia.
Qed.

Lemma py_set_lookup {A} (l : list A) i x y :
  l !! i = Some x -> py_set l i y = Ok (<[i := y]> l).
Proof.
  intros Hi. unfold py_set. by rewrite decide_True by (by eapply lookup_lt_Some).
Qed.

Lemma py_pop_lookup {A} (l : list A) i x :
  l !! i = Some x -> py_pop l i = Ok (delete i l).
Proof.
  intros Hi. unfold py_pop. by rewrite decide_True by (by eapply lookup_lt_Some).
Qed.

Lemma merge_lookup self ind e l r x :
  keys self !! ind = Some e -> children self !! (ind + 1)%nat = Some x ->
  Page.merge self ind l r =
    Ok (mkPage (bottom self) (delete ind (keys self))
          (<[ind := mkPage (bottom l && bottom r) (keys l ++ [e] ++ keys r)
                      (children l ++ children r)]> (delete (ind + 1)%nat (children self))),
        mkPage (bottom l && bottom r) (keys l ++ [e] ++ keys r) (children l ++ children r)).
Proof.
  intros Hk Hc. unfold Page.merge, Page.is_external.
  rewrite (py_get_Some _ _ _ Hk). cbn [bind].
  rewrite (py_pop_lookup _ _ _ Hc). cbn [bind].
  rewrite (py_pop_lookup _ _ _ Hk). cbn [bind].
  unfold py_set. rewrite decide_True; [done|].
  rewrite length_delete by eauto. apply lookup_lt_Some in Hc. lia.
Qed.

Lemma remove_at_separator n self ind e pred_ch succ_ch :
  bottom self = false -> sorted (keys self) ->
  keys self !! ind = Some e ->
  children self !! ind = Some pred_ch ->
  children self !! (ind + 1)%nat = Some succ_ch ->
  Page.remove (S n) self (key e) =
    if (DEGREE <=? length (keys pred_ch))%nat then
      let* k' := Page.find_predecessor pred_ch in
      let* '(pred_ch', _) := Page.remove n pred_ch (key k') in
      let self1 :=
        mkPage false (<[ind := k']> (keys self)) (<[ind := pred_ch']> (children self)) in
      Ok (self1, self1)
    else if (DEGREE <=? length (keys succ_ch))%nat then
      let* k' := Page.find_successor succ_ch in
      let* '(succ_ch', _) := Page.remove n succ_ch (key k') in
      let self1 :=
        mkPage false (<[ind := k']> (keys self))
          (<[(ind + 1)%nat := succ_ch']> (children self)) in
      Ok (self1, self1)
    else
      let merged :=
        mkPage (bottom pred_ch && bottom succ_ch)
          (keys pred_ch ++ [e] ++ keys succ_ch)
          (children pred_ch ++ children succ_ch) in
      let* '(merged', _) := Page.remove n merged (key e) in
      let self2 :=
        mkPage false (delete ind (keys self))
          (<[ind := merged']> (delete (ind + 1)%nat (children self))) in
      if (length (keys self2) =? 0)%nat then Ok (self2, merged') else Ok (self2, self2).
Proof.
  intros Hb Hs Hk Hp Hsu. cbn [Page.remove]. cbv zeta.
  unfold Page.is_external. rewrite Hb.
  rewrite (bisect_right_found _ _ _ Hs Hk).
  replace (Nat.max (S ind - 1) 0) with ind by lia.
  rewrite (py_get_Some _ _ _ Hk). cbn [bind]. rewrite Z.eqb_refl.
  rewrite (py_get_Some _ _ _ Hp), (py_get_Some _ _ _ Hsu). cbn [bind].
  destruct (DEGREE <=? length (keys pred_ch))%nat.
  { destruct (Page.find_predecessor pred_ch) as [k'| |]; cbn [bind]; try done.
    rewrite (py_set_lookup _ _ _ _ Hk). cbn [bind].
    destruct (Page.remove n pred_ch (key k')) as [[? ?]| |]; done. }
  destruct (DEGREE <=? length (keys succ_ch))%nat.
  { destruct (Page.find_successor succ_ch) as [k'| |]; cbn [bind]; try done.
    rewrite (py_set_lookup _ _ _ _ Hk). cbn [bind].
    destruct (Page.remove n succ_ch (key k')) as [[? ?]| |]; done. }
  rewrite (merge_lookup _ _ _ _ _ _ Hk Hsu). cbn [bind].
  destruct (Page.remove n _ (key e)) as [[m' ?]| |]; cbn [bind]; try done.
  unfold set_children. cbn [keys children bottom].
  by rewrite Hb, !list_insert_insert_eq.
Qed.

(** Where the key is not an entry of the page, the entry that [remove] reads
    and the child that it picks: the child at the position of [bisect_right]. *)
Lemma remove_needed_child ks k :
  sorted ks -> ks <> [] -> Forall (fun e => key e <> k) ks ->
  let idx := bisect_right ks k in
  exists e, py_get ks (Nat.max (idx - 1) 0) = Ok e /\ (key e =? k) = false /\
    (if key e <? k then (Nat.max (idx - 1) 0 + 1)%nat else Nat.max (idx - 1) 0) = idx.
Proof.
  intros Hs Hne Hk. destruct (bisect_right_split ks k Hs) as (l1 & l2 & -> & Hr & H1 & H2).
  cbv zeta. rewrite Hr. clear Hr.
  destruct l1 as [|e l1 _] using rev_ind.
  - destruct l2 as [|e l2]; [done|]. exists e. simpl.
    apply Forall_cons in H2 as [H2 _]. split; [done|].
    split; [lia|]. destruct (Z.ltb_spec (key e) k); [lia|done].
  - exists e. rewrite length_app. simpl.
    replace (Nat.max (length l1 + 1 - 1) 0) with (length l1) by lia.
    rewrite <- app_assoc. simpl. rewrite py_get_middle. split; [done|].
    apply Forall_app in H1 as [_ H1]. rewrite Forall_singleton in H1.
    rewrite <- app_assoc in Hk. apply Forall_app in Hk as [_ Hk].
    apply Forall_cons in Hk as [Hk _].
    split; [lia|]. destruct (Z.ltb_spec (key e) k); [done|lia].
Qed.

Lemma remove_descend n self k ch :
  bottom self = false -> sorted (keys self) -> keys self <> [] ->
  Forall (fun e => key e <> k) (keys self) ->
  children self !! bisect_right (keys self) k = Some ch ->
  let idx := bisect_right (keys self) k in
  Page.remove (S n) self k =
    if (length (keys ch) =? DEGREE - 1)%nat then
      if (idx + 1 <? length (children self))%nat
         && Page.has_surplus (children self) (idx + 1)
      then
        let* self1 := Page.borrow_from_right self idx in
        let* '(self2, _) := Page.remove n self1 k in
        Ok (self2, self2)
      else if (0 <? idx)%nat && Page.has_surplus (children self) (idx - 1)
      then
        let* self1 := Page.borrow_from_left self (idx - 1) idx in
        let* '(self2, _) := Page.remove n self1 k in
        Ok (self2, self2)
      else
        let* l := py_get (children self) (idx - 1) in
        let* r := py_get (children self) (idx - 1 + 1) in
        let* '(self1, merged) := Page.merge self (idx - 1) l r in
        let* '(merged', _) := Page.remove n merged k in
        let self2 := set_children self1 (<[(idx - 1)%nat := merged']> (children self1)) in
        if (length (keys self2) =? 0)%nat then Ok (self2, merged')
        else
          let* '(self3, _) := Page.remove n self2 k in
          Ok (self3, self3)
    else
      let* '(ch', _) := Page.remove n ch k in
      let self1 := set_children self (<[idx := ch']> (children self)) in
      Ok (self1, self1).
Proof.
  intros Hb Hs Hne Hk Hch. cbv zeta.
  destruct (remove_needed_child _ _ Hs Hne Hk) as (e & He & Hek & Hn).
  cbv zeta in He, Hn. cbn [Page.remove]. cbv zeta.
  unfold Page.is_external. rewrite Hb, He. cbn [bind]. rewrite Hek, Hn.
  rewrite (py_get_Some _ _ _ Hch). cbn [bind].
  replace (Nat.max (bisect_right (keys self) k - 1) 0)
    with (bisect_right (keys self) k - 1)%nat by lia.
  done.
Qed.




(** ** The entries of a tree, in order *)

Lemma interleave_app C1 ks1 C2 ks2 :
  length C1 = length ks1 ->
  interleave (C1 ++ C2) (ks1 ++ ks2) = interleave C1 ks1 ++ interleave C2 ks2.
Proof.
  revert ks1. induction C1 as [|c C1 IH]; intros [|k ks1] Hl; simpl in *; try done.
  rewrite IH by lia. by rewrite <- app_assoc.
Qed.

Lemma interleave_cons_after x C ks : interleave (x :: C) ks = x ++ after C ks.
Proof. by destruct ks. Qed.

Lemma interleave_snoc C ks c e :
  length C = length ks ->
  interleave (C ++ [c]) (ks ++ [e]) = interleave C ks ++ c ++ [e].
Proof. intros Hl. by rewrite interleave_app. Qed.

Lemma elem_of_interleave_keys C ks e : e ∈ ks -> e ∈ interleave C ks.
Proof.
  revert ks. induction C as [|c C IH]; intros ks He; simpl; [done|].
  destruct ks as [|k ks]; [by apply elem_of_nil in He|].
  rewrite elem_of_app, elem_of_cons. apply elem_of_cons in He as [->|He]; auto.
Qed.

Lemma elem_of_interleave_child C ks c e : c ∈ C -> e ∈ c -> e ∈ interleave C ks.
Proof.
  revert ks. induction C as [|c' C IH]; intros ks Hc He; [by apply elem_of_nil in Hc|].
  apply elem_of_cons in Hc as [->|Hc]; destruct ks as [|k ks]; simpl;
    rewrite elem_of_app, ?elem_of_cons; auto.
Qed.

Lemma sorted_interleave_keys C ks : sorted (interleave C ks) -> sorted ks.
Proof.
  revert ks. induction C as [|c C IH]; intros ks Hs; simpl in *; [done|].
  destruct ks as [|k ks]; [apply sorted_nil|].
  apply sorted_app in Hs as (_ & _ & Hs). apply sorted_cons in Hs as [Hk Hs].
  apply sorted_cons. split; [|by apply IH].
  apply Forall_forall. intros x Hx. rewrite Forall_forall in Hk. apply Hk.
  by apply elem_of_interleave_keys.
Qed.

Lemma sorted_interleave_child C ks c : sorted (interleave C ks) -> c ∈ C -> sorted c.
Proof.
  revert ks. induction C as [|c' C IH]; intros ks Hs Hc; [by apply elem_of_nil in Hc|].
  apply elem_of_cons in Hc as [->|Hc]; destruct ks as [|k ks]; simpl in Hs;
    apply sorted_app in Hs as (_ & Hc' & Hs); try done.
  - by apply (IH []).
  - apply sorted_cons in Hs as [_ Hs]. by apply (IH ks).
Qed.

Lemma contents_node b ks cs :
  contents (mkPage b ks cs) = interleave (map contents cs) ks.
Proof. reflexivity. Qed.

Lemma contents_leaf ks : contents (mkPage true ks []) = ks.
Proof. reflexivity. Qed.

Lemma contents_at_child b ks1 ks2 cs1 c cs2 :
  length cs1 = length ks1 ->
  contents (mkPage b (ks1 ++ ks2) (cs1 ++ c :: cs2)) =
    interleave (map contents cs1) ks1 ++ contents c ++ after (map contents cs2) ks2.
Proof.
  intros Hl. rewrite contents_node, map_app, interleave_app by (by rewrite length_map).
  cbn [map]. by rewrite interleave_cons_after.
Qed.

Lemma contents_at_sep b ks1 e ks2 cs1 c d cs2 :
  length cs1 = length ks1 ->
  contents (mkPage b (ks1 ++ e :: ks2) (cs1 ++ c :: d :: cs2)) =
    interleave (map contents cs1) ks1 ++ contents c ++ e :: contents d
      ++ after (map contents cs2) ks2.
Proof.
  intros Hl. rewrite contents_at_child by done. cbn [map after].
  by rewrite interleave_cons_after.
Qed.

(** ** Lookup and removal in a list of entries *)

Lemma assoc_app_l k l1 l2 :
  Forall (fun e => key e <> k) l1 -> assoc k (l1 ++ l2) = assoc k l2.
Proof.
  induction 1 as [|e l1 He _ IH]; simpl; [done|].
  by destruct (Z.eqb_spec (key e) k).
Qed.

Lemma assoc_app_r k l1 l2 :
  Forall (fun e => key e <> k) l2 -> assoc k (l1 ++ l2) = assoc k l1.
Proof.
  intros H2. induction l1 as [|e l1 IH]; simpl.
  - induction H2 as [|e l2 He _ IH]; simpl; [done|].
    by destruct (Z.eqb_spec (key e) k).
  - by rewrite IH.
Qed.

Lemma assoc_None k l : Forall (fun e => key e <> k) l -> assoc k l = None.
Proof. intros H. rewrite <- (app_nil_r l). by rewrite assoc_app_l. Qed.

Lemma without_app k l1 l2 : without k (l1 ++ l2) = without k l1 ++ without k l2.
Proof. apply filter_app. Qed.

Lemma without_id k l : Forall (fun e => key e <> k) l -> without k l = l.
Proof.
  induction 1 as [|e l He _ IH]; [done|].
  unfold without in *. rewrite filter_cons_True by done. by rewrite IH.
Qed.

Lemma without_cons_eq k e l : key e = k -> without k (e :: l) = without k l.
Proof. intros He. unfold without. rewrite filter_cons_False; [done|]. by intros []. Qed.

Lemma without_cons_ne k e l : key e <> k -> without k (e :: l) = e :: without k l.
Proof. intros He. unfold without. by rewrite filter_cons_True. Qed.

Lemma Forall_without k l : Forall (fun e => key e <> k) (without k l).
Proof.
  apply Forall_forall. intros e He. unfold without in He.
  by apply list_elem_of_filter in He as [? _].
Qed.

Lemma without_subset k l e : e ∈ without k l -> e ∈ l.
Proof. unfold without. intros He. by apply list_elem_of_filter in He as [_ ?]. Qed.

Lemma sorted_without k l : sorted l -> sorted (without k l).
Proof.
  induction l as [|e l IH]; intros Hs; [done|].
  apply sorted_cons in Hs as [He Hs].
  destruct (decide (key e = k)) as [Hk|Hk].
  - rewrite without_cons_eq by done. auto.
  - rewrite without_cons_ne by done. apply sorted_cons. split; [|auto].
    apply Forall_forall. intros x Hx. rewrite Forall_forall in He.
    apply He. by eapply without_subset.
Qed.

Lemma without_without k l : without k (without k l) = without k l.
Proof. apply without_id, Forall_without. Qed.

Lemma assoc_without_eq k l : assoc k (without k l) = None.
Proof. apply assoc_None, Forall_without. Qed.

Lemma assoc_without_ne k k' l : k' <> k -> assoc k' (without k l) = assoc k' l.
Proof.
  intros Hne. induction l as [|e l IH]; [done|].
  destruct (decide (key e = k)) as [Hk|Hk].
  - rewrite without_cons_eq by done. simpl.
    destruct (Z.eqb_spec (key e) k'); [lia|done].
  - rewrite without_cons_ne by done. simpl. by rewrite IH.
Qed.

(** In a sorted list, the entries around one of key [k] do not have it. *)
Lemma sorted_middle_ne l1 e l2 :
  sorted (l1 ++ e :: l2) ->
  Forall (fun x => key x <> key e) l1 /\ Forall (fun x => key x <> key e) l2.
Proof.
  intros Hs. apply sorted_middle in Hs as (H1 & H2 & _).
  split; (eapply Forall_impl; [eassumption|]); simpl; lia.
Qed.

Lemma without_middle l1 e l2 :
  sorted (l1 ++ e :: l2) -> without (key e) (l1 ++ e :: l2) = l1 ++ l2.
Proof.
  intros Hs. apply sorted_middle_ne in Hs as [H1 H2].
  rewrite without_app, without_cons_eq by done. by rewrite !without_id.
Qed.

Lemma assoc_middle l1 e l2 :
  sorted (l1 ++ e :: l2) -> assoc (key e) (l1 ++ e :: l2) = Some (value e).
Proof.
  intros Hs. apply sorted_middle_ne in Hs as [H1 H2].
  rewrite assoc_app_l by done. simpl. by rewrite Z.eqb_refl.
Qed.

(** ** Well-formed pages *)

Lemma shape_leaf_inv p : shape 0 p -> exists ks, p = mkPage true ks [].
Proof. destruct p as [b ks cs]. simpl. intros [-> ->]. eauto. Qed.

Lemma shape_node_inv h p :
  shape (S h) p ->
  exists ks cs, p = mkPage false ks cs /\ ks <> [] /\ length cs = S (length ks) /\
    Forall (fun c => shape h c /\ (DEGREE - 1 <= length (keys c))%nat) cs.
Proof. destruct p as [b ks cs]. simpl. intros (-> & ? & ? & ?). eauto 10. Qed.

Lemma children_split {A B} (cs : list A) (l1 l2 : list B) :
  length cs = S (length (l1 ++ l2)) ->
  exists cs1 c cs2, cs = cs1 ++ c :: cs2 /\ length cs1 = length l1 /\ length cs2 = length l2.
Proof.
  rewrite length_app. intros Hl.
  destruct (lookup_lt_is_Some_2 cs (length l1)) as [c Hc]; [lia|].
  exists (take (length l1) cs), c, (drop (S (length l1)) cs).
  rewrite take_drop_middle by done. rewrite length_take, length_drop.
  split; [done|lia].
Qed.

Lemma interleave_before_lt C ks Z k :
  length C = length ks -> sorted (interleave C ks ++ Z) ->
  Forall (fun e => key e < k) ks -> Forall (fun e => key e < k) (interleave C ks).
Proof.
  intros Hl Hs Hk. destruct ks as [|e ks _] using rev_ind.
  { by destruct C. }
  destruct C as [|c C _] using rev_ind.
  { rewrite length_app in Hl. simpl in Hl. lia. }
  rewrite !length_app in Hl. simpl in Hl.
  rewrite interleave_snoc in Hs |- * by lia.
  apply Forall_app in Hk as [_ He]. rewrite Forall_singleton in He.
  apply sorted_app in Hs as (_ & Hs & _).
  rewrite app_assoc in Hs |- *. apply sorted_snoc in Hs as [Hlt _].
  apply Forall_app. split; [|by apply Forall_singleton].
  eapply Forall_impl; [exact Hlt|]. simpl. lia.
Qed.

Lemma after_gt C ks Y k :
  length C = length ks -> sorted (Y ++ after C ks) ->
  Forall (fun e => k < key e) ks -> Forall (fun e => k < key e) (after C ks).
Proof.
  intros Hl Hs Hk. destruct ks as [|e ks]; simpl in *.
  { by destruct C. }
  apply Forall_cons in Hk as [He _].
  apply sorted_app in Hs as (_ & _ & Hs). apply sorted_cons in Hs as [Hgt _].
  constructor; [done|]. eapply Forall_impl; [exact Hgt|]. simpl. lia.
Qed.

Lemma Forall_lt_ne k l : Forall (fun e => key e < k) l -> Forall (fun e => key e <> k) l.
Proof. intros H. eapply Forall_impl; [exact H|]. simpl. lia. Qed.

Lemma Forall_gt_ne k l : Forall (fun e => k < key e) l -> Forall (fun e => key e <> k) l.
Proof. intros H. eapply Forall_impl; [exact H|]. simpl. lia. Qed.

(** The entries of a page around the child at the position of [bisect_right]
    do not have the key, when the page itself does not hold it. *)
Lemma around_child_ne C1 ks1 X C2 ks2 k :
  length C1 = length ks1 -> length C2 = length ks2 ->
  sorted (interleave C1 ks1 ++ X ++ after C2 ks2) ->
  Forall (fun e => key e < k) ks1 -> Forall (fun e => k < key e) ks2 ->
  Forall (fun e => key e <> k) (interleave C1 ks1) /\
  Forall (fun e => key e <> k) (after C2 ks2).
Proof.
  intros Hl1 Hl2 Hs H1 H2. split.
  - apply Forall_lt_ne. by eapply interleave_before_lt.
  - apply Forall_gt_ne. rewrite app_assoc in Hs. by eapply after_gt.
Qed.

(** The position of [bisect_right] with the keys split in strictly smaller
    and greater ones, or at the key. *)
Lemma bisect_cases ks k :
  sorted ks ->
  (exists l1 e l2, ks = l1 ++ e :: l2 /\ key e = k /\ bisect_right ks k = S (length l1)) \/
  (exists l1 l2, ks = l1 ++ l2 /\ bisect_right ks k = length l1 /\
     Forall (fun e => key e < k) l1 /\ Forall (fun e => k < key e) l2).
Proof.
  intros Hs. destruct (bisect_right_split ks k Hs) as (l1 & l2 & -> & Hr & H1 & H2).
  destruct l1 as [|e l1 _] using rev_ind.
  { right. exists [], l2. repeat split; try done. }
  apply Forall_app in H1 as [H1 He]. rewrite Forall_singleton in He.
  destruct (decide (key e = k)) as [Hk|Hk].
  - left. exists l1, e, l2. rewrite length_app in Hr. simpl in Hr.
    rewrite <- app_assoc in Hr |- *. simpl in Hr |- *.
    repeat split; try done. rewrite Hr. lia.
  - right. exists (l1 ++ [e]), l2. repeat split; try done.
    rewrite <- app_assoc in Hs. simpl in Hs.
    apply sorted_middle in Hs as (Hlt & _).
    apply Forall_app. split; [|apply Forall_singleton; lia].
    eapply Forall_impl; [exact Hlt|]. simpl. lia.
Qed.

Lemma wf_child h ks1 ks2 cs1 c cs2 :
  wf (S h) (mkPage false (ks1 ++ ks2) (cs1 ++ c :: cs2)) ->
  length cs1 = length ks1 ->
  wf h c /\ (DEGREE - 1 <= length (keys c))%nat.
Proof.
  intros [Hsh Hs] Hl. simpl in Hsh. destruct Hsh as (_ & _ & _ & Hall).
  apply Forall_app in Hall as [_ Hall]. apply Forall_cons in Hall as [[Hc Hmin] _].
  split; [|done]. split; [done|].
  rewrite contents_at_child in Hs by done.
  apply sorted_app in Hs as (_ & _ & Hs). by apply sorted_app in Hs as (_ & Hs & _).
Qed.

(** ** Lookup *)

Lemma find_assoc h p k : wf h p -> Page.find p k = Ok (assoc k (contents p)).
Proof.
  revert p. induction h as [|h IH]; intros p [Hsh Hs].
  - apply shape_leaf_inv in Hsh as [ks ->]. rewrite contents_leaf in *.
    cbn [Page.find]. cbv zeta.
    destruct (bisect_cases ks k Hs) as [(l1 & e & l2 & -> & Hk & Hr)|(l1 & l2 & -> & Hr & H1 & H2)];
      rewrite Hr.
    + simpl. replace (length l1 - 0)%nat with (length l1) by lia.
      rewrite py_get_middle. cbn [bind]. rewrite <- Hk, Z.eqb_refl.
      by rewrite assoc_middle.
    + rewrite assoc_None.
      2:{ apply Forall_app. split; [by apply Forall_lt_ne|by apply Forall_gt_ne]. }
      destruct l1 as [|e l1 _] using rev_ind; [done|].
      rewrite length_app. simpl.
      replace (length l1 + 1 =? 0)%nat with false by (symmetry; apply Nat.eqb_neq; lia).
      replace (length l1 + 1 - 1)%nat with (length l1) by lia.
      rewrite <- app_assoc. simpl. rewrite py_get_middle. cbn [bind].
      apply Forall_app in H1 as [_ He]. rewrite Forall_singleton in He.
      destruct (Z.eqb_spec (key e) k); [lia|done].
  - pose proof Hsh as Hsh'.
    apply shape_node_inv in Hsh' as (ks & cs & -> & Hne & Hlen & Hall).
    pose proof (sorted_interleave_keys _ _ Hs) as Hks.
    cbn [Page.find]. cbv zeta.
    destruct (bisect_cases ks k Hks) as [(l1 & e & l2 & -> & Hk & Hr)|(l1 & l2 & -> & Hr & H1 & H2)];
      rewrite Hr.
    + change (S (length l1) =? 0)%nat with false. cbv iota.
      replace (S (length l1) - 1)%nat with (length l1) by lia.
      rewrite py_get_middle. cbn [bind]. rewrite <- Hk, Z.eqb_refl.
      destruct (children_split cs l1 (e :: l2) Hlen) as (cs1 & c & cs2 & -> & Hl1 & Hl2).
      rewrite contents_at_child in Hs |- * by done. cbn [after] in Hs |- *.
      rewrite app_assoc in Hs |- *. by rewrite assoc_middle.
    + destruct (children_split cs l1 l2 Hlen) as (cs1 & c & cs2 & -> & Hl1 & Hl2).
      destruct (wf_child h l1 l2 cs1 c cs2 (conj Hsh Hs) Hl1) as [Hwc _].
      rewrite contents_at_child in Hs |- * by done.
      destruct (around_child_ne (map contents cs1) l1 (contents c)
                  (map contents cs2) l2 k) as [Hb Ha];
        [by rewrite length_map|by rewrite length_map|done..|].
      rewrite assoc_app_l, assoc_app_r by done.
      destruct l1 as [|e l1 _] using rev_ind.
      * destruct cs1; [|done]. simpl.
        destruct l2 as [|e2 l2]; [done|]. simpl.
        apply Forall_cons in H2 as [He2 _].
        destruct (Z.ltb_spec (key e2) k); [lia|]. by apply IH.
      * rewrite length_app. simpl.
        replace (length l1 + 1 =? 0)%nat with false by (symmetry; apply Nat.eqb_neq; lia).
        replace (length l1 + 1 - 1)%nat with (length l1) by lia.
        rewrite <- app_assoc. simpl. rewrite py_get_middle. cbn [bind].
        apply Forall_app in H1 as [_ He]. rewrite Forall_singleton in He.
        destruct (Z.eqb_spec (key e) k); [lia|].
        destruct (Z.ltb_spec (key e) k); [|lia].
        rewrite length_app in Hl1. simpl in Hl1.
        rewrite <- Hl1, on_item_middle. by apply IH.
Qed.

(** ** The pieces of [remove] on well-formed pages *)

Lemma interleave_sep C1 ks1 e C2 ks2 :
  length C1 = S (length ks1) ->
  interleave (C1 ++ C2) (ks1 ++ e :: ks2) = interleave C1 ks1 ++ e :: interleave C2 ks2.
Proof.
  intros Hl. destruct C1 as [|c C1 _] using rev_ind; [done|].
  rewrite length_app in Hl. simpl in Hl.
  rewrite <- (app_nil_r ks1) at 2.
  rewrite <- !app_assoc, !interleave_app by lia. simpl.
  by rewrite app_nil_r, <- !app_assoc.
Qed.

Lemma shape_contents_nonempty h p : shape h p -> keys p <> [] -> contents p <> [].
Proof.
  intros _ Hne Hc. destruct p as [b ks cs]. simpl in Hne.
  destruct ks as [|e ks]; [done|].
  assert (He : e ∈ contents (mkPage b (e :: ks) cs)).
  { rewrite contents_node. apply elem_of_interleave_keys. by left. }
  rewrite Hc in He. by apply elem_of_nil in He.
Qed.

Lemma min_fill_nonempty (c : Page) : (DEGREE - 1 <= length (keys c))%nat -> keys c <> [].
Proof. unfold DEGREE. destruct (keys c); simpl; [lia|done]. Qed.

(** The last entry below a page, and the first one. *)
Lemma find_predecessor_last h p :
  shape h p -> keys p <> [] ->
  exists X kp, contents p = X ++ [kp] /\ Page.find_predecessor p = Ok kp.
Proof.
  revert p. induction h as [|h IH]; intros p Hsh Hne.
  - apply shape_leaf_inv in Hsh as [ks ->]. simpl in Hne.
    destruct ks as [|kp ks _] using rev_ind; [done|].
    exists ks, kp. split; [done|]. simpl. apply py_getZ_last.
  - apply shape_node_inv in Hsh as (ks & cs & -> & _ & Hlen & Hall).
    destruct cs as [|c cs _] using rev_ind; [done|].
    rewrite length_app in Hlen. simpl in Hlen.
    apply Forall_app in Hall as [_ Hc]. rewrite Forall_singleton in Hc.
    destruct Hc as [Hc Hmin].
    destruct (IH c Hc (min_fill_nonempty c Hmin)) as (X & kp & HX & Hp).
    exists (interleave (map contents cs) ks ++ X), kp. split.
    + rewrite <- (app_nil_r ks) at 1.
      rewrite contents_at_child by lia. simpl. rewrite HX.
      by rewrite app_nil_r, app_assoc.
    + simpl. by rewrite on_last_snoc.
Qed.

Lemma find_successor_first h p :
  shape h p -> keys p <> [] ->
  exists X ks, contents p = ks :: X /\ Page.find_successor p = Ok ks.
Proof.
  revert p. induction h as [|h IH]; intros p Hsh Hne.
  - apply shape_leaf_inv in Hsh as [ks ->]. simpl in Hne.
    destruct ks as [|e ks]; [done|]. by exists ks, e.
  - apply shape_node_inv in Hsh as (ks & cs & -> & _ & Hlen & Hall).
    destruct cs as [|c cs]; [done|].
    apply Forall_cons in Hall as [[Hc Hmin] _].
    destruct (IH c Hc (min_fill_nonempty c Hmin)) as (X & e & HX & Hp).
    exists (X ++ after (map contents cs) ks), e. split.
    + rewrite contents_node. cbn [map]. rewrite interleave_cons_after, HX. done.
    + done.
Qed.

(** The page that [merge] makes of two pages of one height. *)
Lemma merged_shape h c e d :
  shape h c -> shape h d ->
  shape h (mkPage (bottom c && bottom d) (keys c ++ [e] ++ keys d)
             (children c ++ children d)).
Proof.
  destruct h as [|h]; simpl.
  - by intros [-> ->] [-> ->].
  - intros (-> & _ & Hlc & Hac) (-> & _ & Hld & Had). repeat split.
    + by destruct (keys c).
    + rewrite !length_app. simpl. lia.
    + by apply Forall_app.
Qed.

Lemma merged_contents h c e d :
  shape h c -> shape h d ->
  contents (mkPage (bottom c && bottom d) (keys c ++ [e] ++ keys d)
              (children c ++ children d))
  = contents c ++ e :: contents d.
Proof.
  intros Hc Hd. destruct c as [bc kc cc], d as [bd kd cd].
  rewrite !contents_node. cbn [keys children bottom app].
  destruct h as [|h]; simpl in Hc, Hd.
  - destruct Hc as [_ ->], Hd as [_ ->]. done.
  - destruct Hc as (_ & _ & Hlc & _). rewrite map_app.
    by rewrite interleave_sep by (by rewrite length_map).
Qed.

Lemma lookup_second {A} (l1 l2 : list A) x y :
  (l1 ++ x :: y :: l2) !! (length l1 + 1)%nat = Some y.
Proof.
  replace (l1 ++ x :: y :: l2) with ((l1 ++ [x]) ++ y :: l2) by (by rewrite <- app_assoc).
  apply list_lookup_middle. rewrite length_app. simpl. lia.
Qed.

Lemma insert_second {A} (l1 l2 : list A) x y z :
  <[(length l1 + 1)%nat := z]> (l1 ++ x :: y :: l2) = l1 ++ x :: z :: l2.
Proof.
  replace (l1 ++ x :: y :: l2) with ((l1 ++ [x]) ++ y :: l2) by (by rewrite <- app_assoc).
  replace (length l1 + 1)%nat with (length (l1 ++ [x])) by (rewrite length_app; simpl; lia).
  rewrite insert_middle. by rewrite <- app_assoc.
Qed.

Lemma py_get_second {A} (l1 l2 : list A) x y :
  py_get (l1 ++ x :: y :: l2) (length l1 + 1) = Ok y.
Proof. apply py_get_Some, lookup_second. Qed.

Ltac len_tac :=
  cbn [keys children bottom] in *; rewrite ?length_app in *; cbn [length] in *;
  unfold DEGREE in *; lia.

(** [borrow_from_right] between two children of one height, the right one
    with an entry to spare. *)
Lemma borrow_from_right_wf h ks1 sep ks2 cs1 c d cs2 :
  length cs1 = length ks1 -> shape h c -> shape h d ->
  (DEGREE - 1 < length (keys d))%nat ->
  exists c' d' rk,
    Page.borrow_from_right (mkPage false (ks1 ++ sep :: ks2) (cs1 ++ c :: d :: cs2))
      (length ks1)
    = Ok (mkPage false (ks1 ++ rk :: ks2) (cs1 ++ c' :: d' :: cs2)) /\
    shape h c' /\ shape h d' /\
    length (keys c') = S (length (keys c)) /\
    S (length (keys d')) = length (keys d) /\
    rk ∈ keys d /\
    contents c' ++ rk :: contents d' = contents c ++ sep :: contents d.
Proof.
  intros Hl Hc Hd Hsur. unfold Page.borrow_from_right. cbn [keys children bottom].
  rewrite <- Hl. rewrite py_get_second, py_get_middle. cbn [bind].
  rewrite Hl, py_get_middle. cbn [bind].
  destruct c as [bc kc cc], d as [bd kd cd]. cbn [keys children bottom] in *.
  destruct kd as [|rk rks]; [simpl in Hsur; lia|].
  change (py_get (rk :: rks) 0) with (Ok rk). cbn [bind].
  rewrite py_set_middle. cbn [bind].
  change (py_pop (rk :: rks) 0) with (Ok rks). cbn [bind].
  unfold Page.is_external, set_keys, set_children. cbn [keys children bottom].
  rewrite <- Hl.
  destruct h as [|h]; simpl in Hc, Hd.
  - destruct Hc as [-> ->], Hd as [-> ->]. cbn [negb].
    rewrite insert_middle, insert_second.
    eexists _, _, rk. split; [done|]. repeat split; try done; try len_tac;
      try (by cbn [keys]; rewrite ?elem_of_app, ?elem_of_cons, ?list_elem_of_singleton; auto).
    rewrite !contents_leaf. by rewrite <- app_assoc.
  - destruct Hc as (-> & Hnc & Hlc & Hac), Hd as (-> & Hnd & Hld & Had). cbn [negb].
    destruct cd as [|rc rcs]; [done|].
    change (py_get (rc :: rcs) 0) with (Ok rc). cbn [bind].
    change (py_pop (rc :: rcs) 0) with (Ok rcs). cbn [bind].
    apply Forall_cons in Had as [Hrc Had]. simpl in Hld, Hsur.
    rewrite insert_middle, insert_second.
    eexists _, _, rk. split; [done|]. repeat split; try done; try len_tac;
      try (by cbn [keys]; rewrite ?elem_of_app, ?elem_of_cons, ?list_elem_of_singleton; auto).
    + by destruct kc.
    + apply Forall_app. split; [done|]. by apply Forall_singleton.
    + destruct rks; [len_tac|done].
    + rewrite !contents_node, map_app. cbn [map].
      rewrite interleave_sep by (by rewrite length_map). simpl.
      by rewrite app_nil_r, <- !app_assoc.
Qed.

Lemma py_insert_0 {A} (l : list A) x : py_insert l 0 x = x :: l.
Proof. reflexivity. Qed.

(** [borrow_from_left] between two children of one height, the left one
    with an entry to spare. *)
Lemma borrow_from_left_wf h ks1 sep ks2 cs1 l c cs2 :
  length cs1 = length ks1 -> shape h l -> shape h c ->
  (DEGREE - 1 < length (keys l))%nat ->
  exists l' c' lk,
    Page.borrow_from_left (mkPage false (ks1 ++ sep :: ks2) (cs1 ++ l :: c :: cs2))
      (length ks1) (length ks1 + 1)
    = Ok (mkPage false (ks1 ++ lk :: ks2) (cs1 ++ l' :: c' :: cs2)) /\
    shape h l' /\ shape h c' /\
    length (keys c') = S (length (keys c)) /\
    S (length (keys l')) = length (keys l) /\
    lk ∈ keys l /\
    contents l' ++ lk :: contents c' = contents l ++ sep :: contents c.
Proof.
  intros Hl Hsl Hsc Hsur. unfold Page.borrow_from_left. cbn [keys children bottom].
  replace (Z.of_nat (length ks1 + 1) - 1) with (Z.of_nat (length cs1)) by lia.
  rewrite py_index_nat by (rewrite length_app; simpl; lia). cbn [bind].
  rewrite <- Hl. rewrite py_get_second. cbn [bind].
  rewrite Hl, py_get_middle. cbn [bind]. rewrite <- Hl. rewrite py_insert_0.
  rewrite insert_second, py_get_middle. cbn [bind].
  destruct l as [bl kl cl], c as [bc kc cc]. cbn [keys children bottom] in *.
  destruct kl as [|lk lks _] using rev_ind; [simpl in Hsur; lia|].
  rewrite py_getZ_last. cbn [bind].
  rewrite Hl, py_set_middle. cbn [bind]. rewrite <- Hl.
  rewrite py_popZ_last. cbn [bind].
  unfold Page.is_external, set_keys, set_children.
  cbn [keys children bottom].
  rewrite insert_middle, py_get_second. cbn [bind bottom].
  rewrite length_app in Hsur. simpl in Hsur.
  destruct h as [|h]; simpl in Hsl, Hsc.
  - destruct Hsl as [-> ->], Hsc as [-> ->]. cbn [negb].
    eexists _, _, lk. split; [done|]. repeat split; try done; try len_tac;
      try (by cbn [keys]; rewrite ?elem_of_app, ?elem_of_cons, ?list_elem_of_singleton; auto).
    rewrite !contents_leaf. by rewrite <- app_assoc.
  - destruct Hsl as (-> & Hnl & Hll & Hal), Hsc as (-> & Hnc & Hlc & Hac). cbn [negb].
    rewrite py_get_middle. cbn [bind children].
    destruct cl as [|lc lcs _] using rev_ind; [done|].
    rewrite py_getZ_last. cbn [bind keys bottom children]. rewrite py_insert_0.
    rewrite insert_second, py_get_middle. cbn [bind children].
    rewrite py_popZ_last. cbn [bind]. rewrite insert_middle. cbn [keys bottom].
    apply Forall_app in Hal as [Hal Hlc']. rewrite Forall_singleton in Hlc'.
    rewrite !length_app in Hll. simpl in Hll.
    eexists _, _, lk. split; [done|]. repeat split; try done; try len_tac;
      try (by cbn [keys]; rewrite ?elem_of_app, ?elem_of_cons, ?list_elem_of_singleton; auto).
    + destruct lks; [len_tac|done].
    + by constructor.
    + rewrite !contents_node, map_app. cbn [map].
      rewrite interleave_sep by (rewrite length_map; lia). simpl.
      by rewrite app_nil_r, <- !app_assoc.
Qed.

(** ** [remove] on well-formed pages *)

Lemma delete_second {A} (l1 l2 : list A) x y :
  delete (length l1 + 1)%nat (l1 ++ x :: y :: l2) = l1 ++ x :: l2.
Proof.
  replace (l1 ++ x :: y :: l2) with ((l1 ++ [x]) ++ y :: l2) by (by rewrite <- app_assoc).
  replace (length l1 + 1)%nat with (length (l1 ++ [x])) by (rewrite length_app; simpl; lia).
  rewrite delete_middle. by rewrite <- app_assoc.
Qed.

Lemma has_surplus_first cs1 x cs2 :
  Page.has_surplus (cs1 ++ x :: cs2) (length cs1) = (DEGREE - 1 <? length (keys x))%nat.
Proof. unfold Page.has_surplus. by rewrite list_lookup_middle. Qed.

Lemma has_surplus_second cs1 x y cs2 :
  Page.has_surplus (cs1 ++ x :: y :: cs2) (length cs1 + 1)
  = (DEGREE - 1 <? length (keys y))%nat.
Proof. unfold Page.has_surplus. by rewrite lookup_second. Qed.

Lemma merge_middle ks1 e ks2 cs1 c d cs2 :
  length cs1 = length ks1 ->
  Page.merge (mkPage false (ks1 ++ e :: ks2) (cs1 ++ c :: d :: cs2)) (length ks1) c d =
    Ok (mkPage false (ks1 ++ ks2)
          (cs1 ++ mkPage (bottom c && bottom d) (keys c ++ [e] ++ keys d)
                    (children c ++ children d) :: cs2),
        mkPage (bottom c && bottom d) (keys c ++ [e] ++ keys d) (children c ++ children d)).
Proof.
  intros Hl. rewrite (merge_lookup _ _ e _ _ d); cbn [keys children bottom].
  - rewrite delete_middle, <- Hl, delete_second, insert_middle. done.
  - apply list_lookup_middle. done.
  - rewrite <- Hl. apply lookup_second.
Qed.

(** A leaf: the entry of the key is dropped. *)
Lemma remove_leaf n ks k :
  sorted ks ->
  Page.remove (S n) (mkPage true ks []) k =
    Ok (mkPage true (without k ks) [], mkPage true (without k ks) []).
Proof.
  intros Hs. cbn [Page.remove]. cbv zeta. unfold Page.is_external, set_keys.
  cbn [keys children bottom].
  destruct (bisect_cases ks k Hs) as [(l1 & e & l2 & -> & Hk & Hr)|(l1 & l2 & -> & Hr & H1 & H2)];
    rewrite Hr.
  - change (0 <? S (length l1))%nat with true. cbv iota.
    replace (S (length l1) - 1)%nat with (length l1) by lia.
    rewrite py_get_middle. cbn [bind]. rewrite <- Hk, Z.eqb_refl.
    rewrite py_pop_middle. cbn [bind]. by rewrite without_middle.
  - rewrite without_id.
    2:{ apply Forall_app. split; [by apply Forall_lt_ne|by apply Forall_gt_ne]. }
    destruct l1 as [|e l1 _] using rev_ind; [done|].
    rewrite length_app. cbn [length].
    replace (0 <? length l1 + 1)%nat with true by (symmetry; apply Nat.ltb_lt; lia).
    replace (length l1 + 1 - 1)%nat with (length l1) by lia.
    rewrite <- app_assoc. cbn [app]. rewrite py_get_middle. cbn [bind].
    apply Forall_app in H1 as [_ He]. rewrite Forall_singleton in He.
    destruct (Z.eqb_spec (key e) k); [lia|done].
Qed.

(** The child for the key is the first of two neighbours: what [remove]
    does when that child holds [DEGREE - 1] entries. *)
Lemma remove_first_of_two n ks1 sep ks2 cs1 c d cs2 k :
  length cs1 = length ks1 -> sorted (ks1 ++ sep :: ks2) ->
  Forall (fun e => key e < k) ks1 -> Forall (fun e => k < key e) (sep :: ks2) ->
  length (keys c) = (DEGREE - 1)%nat ->
  let self := mkPage false (ks1 ++ sep :: ks2) (cs1 ++ c :: d :: cs2) in
  Page.remove (S n) self k =
    if (DEGREE - 1 <? length (keys d))%nat then
      let* self1 := Page.borrow_from_right self (length ks1) in
      let* '(self2, _) := Page.remove n self1 k in
      Ok (self2, self2)
    else if (0 <? length ks1)%nat && Page.has_surplus (children self) (length ks1 - 1)
    then
      let* self1 := Page.borrow_from_left self (length ks1 - 1) (length ks1) in
      let* '(self2, _) := Page.remove n self1 k in
      Ok (self2, self2)
    else
      let* l := py_get (children self) (length ks1 - 1) in
      let* r := py_get (children self) (length ks1 - 1 + 1) in
      let* '(self1, merged) := Page.merge self (length ks1 - 1) l r in
      let* '(merged', _) := Page.remove n merged k in
      let self2 :=
        set_children self1 (<[(length ks1 - 1)%nat := merged']> (children self1)) in
      if (length (keys self2) =? 0)%nat then Ok (self2, merged')
      else
        let* '(self3, _) := Page.remove n self2 k in
        Ok (self3, self3).
Proof.
  intros Hl Hs H1 H2 Hlen self.
  assert (Hr : bisect_right (keys self) k = length ks1).
  { apply bisect_right_app; [done| |done]. eapply Forall_impl; [exact H1|]. simpl. lia. }
  pose proof (remove_descend n self k c) as H. cbv zeta in H.
  rewrite H; clear H; try done.
  - rewrite Hr, Hlen, Nat.eqb_refl. cbn [children self].
    rewrite <- Hl at 1 2. rewrite has_surplus_second.
    replace (length cs1 + 1 <? length (cs1 ++ c :: d :: cs2))%nat with true.
    2:{ symmetry. apply Nat.ltb_lt. rewrite length_app. simpl. lia. }
    done.
  - by destruct ks1.
  - apply Forall_app. split; [by apply Forall_lt_ne|by apply Forall_gt_ne].
  - rewrite Hr, <- Hl. apply list_lookup_middle. done.
Qed.

(** The child for the key is the last child, or its right neighbour has no
    entry to spare. *)
Lemma remove_second_of_two n ks1 sep ks2 cs1 l c cs2 k :
  length cs1 = length ks1 -> sorted (ks1 ++ sep :: ks2) ->
  Forall (fun e => key e < k) (ks1 ++ [sep]) -> Forall (fun e => k < key e) ks2 ->
  length (keys c) = (DEGREE - 1)%nat ->
  Forall (fun d => (length (keys d) <= DEGREE - 1)%nat) (take 1 cs2) ->
  let self := mkPage false (ks1 ++ sep :: ks2) (cs1 ++ l :: c :: cs2) in
  Page.remove (S n) self k =
    if (DEGREE - 1 <? length (keys l))%nat then
      let* self1 := Page.borrow_from_left self (length ks1) (length ks1 + 1) in
      let* '(self2, _) := Page.remove n self1 k in
      Ok (self2, self2)
    else
      let* '(self1, merged) := Page.merge self (length ks1) l c in
      let* '(merged', _) := Page.remove n merged k in
      let self2 :=
        set_children self1 (<[length ks1 := merged']> (children self1)) in
      if (length (keys self2) =? 0)%nat then Ok (self2, merged')
      else
        let* '(self3, _) := Page.remove n self2 k in
        Ok (self3, self3).
Proof.
  intros Hl Hs H1 H2 Hlen Hright self.
  assert (Hr : bisect_right (keys self) k = (length ks1 + 1)%nat).
  { unfold self. cbn [keys].
    replace (ks1 ++ sep :: ks2) with ((ks1 ++ [sep]) ++ ks2) in Hs |- *
      by (by rewrite <- app_assoc).
    rewrite bisect_right_app; [|done| |done].
    - rewrite length_app. simpl. lia.
    - eapply Forall_impl; [exact H1|]. simpl. lia. }
  pose proof (remove_descend n self k c) as H. cbv zeta in H.
  rewrite H; clear H; try done.
  - rewrite Hr, Hlen, Nat.eqb_refl. cbn [children self].
    replace (length ks1 + 1 - 1)%nat with (length ks1) by lia.
    assert (Hno : ((length ks1 + 1 + 1 <? length (cs1 ++ l :: c :: cs2))%nat
                   && Page.has_surplus (cs1 ++ l :: c :: cs2) (length ks1 + 1 + 1)) = false).
    { destruct cs2 as [|d cs2].
      - apply andb_false_intro1. apply Nat.ltb_ge. rewrite length_app. simpl. lia.
      - apply andb_false_intro2. unfold Page.has_surplus.
        replace (cs1 ++ l :: c :: d :: cs2) with ((cs1 ++ [l]) ++ c :: d :: cs2)
          by (by rewrite <- app_assoc).
        replace (length ks1 + 1 + 1)%nat with (length (cs1 ++ [l]) + 1)%nat
          by (rewrite length_app; simpl; lia).
        rewrite lookup_second. simpl in Hright. apply Forall_cons in Hright as [Hd _].
        apply Nat.ltb_ge. done. }
    rewrite Hno. clear Hno.
    replace (0 <? length ks1 + 1)%nat with true by (symmetry; apply Nat.ltb_lt; lia).
    rewrite <- Hl at 1. rewrite has_surplus_first. cbn [andb].
    destruct (DEGREE - 1 <? length (keys l))%nat; [done|].
    rewrite (py_get_Some (cs1 ++ l :: c :: cs2) (length ks1) l)
      by (rewrite <- Hl; by apply list_lookup_middle).
    rewrite (py_get_Some (cs1 ++ l :: c :: cs2) (length ks1 + 1) c)
      by (rewrite <- Hl; apply lookup_second).
    done.
  - by destruct ks1.
  - unfold self. cbn [keys].
    replace (ks1 ++ sep :: ks2) with ((ks1 ++ [sep]) ++ ks2) by (by rewrite <- app_assoc).
    apply Forall_app. split; [by apply Forall_lt_ne|by apply Forall_gt_ne].
  - rewrite Hr, <- Hl. apply lookup_second.
Qed.

(** Pages rebuilt around changed children. *)
Lemma shape_child_replace h ks cs1 c c' cs2 :
  shape (S h) (mkPage false ks (cs1 ++ c :: cs2)) ->
  shape h c' -> (DEGREE - 1 <= length (keys c'))%nat ->
  shape (S h) (mkPage false ks (cs1 ++ c' :: cs2)).
Proof.
  simpl. intros (_ & Hne & Hlen & Hall) Hc Hmin.
  apply Forall_app in Hall as [H1 Hall]. apply Forall_cons in Hall as [_ H2].
  repeat split; try done.
  - rewrite length_app in Hlen |- *. done.
  - apply Forall_app. split; [done|]. by constructor.
Qed.

Lemma shape_two_replace h ks1 e e' ks2 cs1 c d c' d' cs2 :
  shape (S h) (mkPage false (ks1 ++ e :: ks2) (cs1 ++ c :: d :: cs2)) ->
  shape h c' -> (DEGREE - 1 <= length (keys c'))%nat ->
  shape h d' -> (DEGREE - 1 <= length (keys d'))%nat ->
  shape (S h) (mkPage false (ks1 ++ e' :: ks2) (cs1 ++ c' :: d' :: cs2)).
Proof.
  simpl. intros (_ & Hne & Hlen & Hall) Hc Hminc Hd Hmind.
  apply Forall_app in Hall as [H1 Hall]. apply Forall_cons in Hall as [_ Hall].
  apply Forall_cons in Hall as [_ H2].
  repeat split.
  - by destruct ks1.
  - rewrite !length_app in Hlen |- *. done.
  - apply Forall_app. split; [done|]. by repeat constructor.
Qed.

Lemma shape_merged_replace h ks1 e ks2 cs1 c d m cs2 :
  shape (S h) (mkPage false (ks1 ++ e :: ks2) (cs1 ++ c :: d :: cs2)) ->
  shape h m -> (DEGREE - 1 <= length (keys m))%nat -> ks1 ++ ks2 <> [] ->
  shape (S h) (mkPage false (ks1 ++ ks2) (cs1 ++ m :: cs2)).
Proof.
  simpl. intros (_ & _ & Hlen & Hall) Hm Hmin Hne.
  apply Forall_app in Hall as [H1 Hall]. apply Forall_cons in Hall as [_ Hall].
  apply Forall_cons in Hall as [_ H2].
  repeat split; try done.
  - rewrite !length_app in Hlen |- *. simpl in *. lia.
  - apply Forall_app. split; [done|]. by constructor.
Qed.

(** What a well-formed page with two neighbouring children gives. *)
Lemma wf_two h ks1 e ks2 cs1 c d cs2 :
  wf (S h) (mkPage false (ks1 ++ e :: ks2) (cs1 ++ c :: d :: cs2)) ->
  length cs1 = length ks1 ->
  wf h c /\ wf h d /\
  (DEGREE - 1 <= length (keys c))%nat /\ (DEGREE - 1 <= length (keys d))%nat /\
  length cs2 = length ks2 /\
  sorted (interleave (map contents cs1) ks1 ++ contents c ++ e :: contents d
            ++ after (map contents cs2) ks2).
Proof.
  intros Hw Hl. pose proof Hw as [Hsh Hs].
  destruct (wf_child h ks1 (e :: ks2) cs1 c (d :: cs2) Hw Hl) as [Hc Hminc].
  assert (Hw' : wf (S h) (mkPage false ((ks1 ++ [e]) ++ ks2) ((cs1 ++ [c]) ++ d :: cs2))).
  { by rewrite <- !app_assoc. }
  destruct (wf_child h (ks1 ++ [e]) ks2 (cs1 ++ [c]) d cs2 Hw') as [Hd Hmind].
  { rewrite !length_app. simpl. lia. }
  rewrite contents_at_sep in Hs by done.
  simpl in Hsh. destruct Hsh as (_ & _ & Hlen & _).
  rewrite !length_app in Hlen. simpl in Hlen.
  do 4 (split; [done|]). split; [lia|done].
Qed.

Section RemoveStep.
Variable h : nat.
Hypothesis IH : forall p k n,
  wf h p -> (2 * h + 1 <= n)%nat ->
  exists res, Page.remove n p k = Ok res /\ removed h p k res.

Lemma remove_child c k n :
  wf h c -> length (keys c) <> 1%nat -> (2 * h + 1 <= n)%nat ->
  exists c', Page.remove n c k = Ok (c', c') /\
    contents c' = without k (contents c) /\ shape h c' /\
    (length (keys c) <= S (length (keys c')))%nat.
Proof.
  intros Hw Hne Hn. destruct (IH c k n Hw Hn) as ([p' r] & Hrem & Hc & Hcase).
  simpl in *. destruct Hcase as [(-> & Hsh & Hlen)|(h' & _ & Hone & _)]; [|lia].
  eauto.
Qed.

(** The child for the key does not hold [DEGREE - 1] entries: [remove] goes
    down into it. *)
Lemma remove_ready ks1 ks2 cs1 ch cs2 k n :
  wf (S h) (mkPage false (ks1 ++ ks2) (cs1 ++ ch :: cs2)) ->
  length cs1 = length ks1 ->
  Forall (fun e => key e < k) ks1 -> Forall (fun e => k < key e) ks2 ->
  length (keys ch) <> (DEGREE - 1)%nat -> (2 * h + 2 <= n)%nat ->
  exists ch',
    Page.remove n (mkPage false (ks1 ++ ks2) (cs1 ++ ch :: cs2)) k =
      Ok (mkPage false (ks1 ++ ks2) (cs1 ++ ch' :: cs2),
          mkPage false (ks1 ++ ks2) (cs1 ++ ch' :: cs2)) /\
    contents (mkPage false (ks1 ++ ks2) (cs1 ++ ch' :: cs2))
      = without k (contents (mkPage false (ks1 ++ ks2) (cs1 ++ ch :: cs2))) /\
    shape (S h) (mkPage false (ks1 ++ ks2) (cs1 ++ ch' :: cs2)).
Proof.
  intros Hw Hl H1 H2 Hne Hn. destruct n as [|n]; [lia|].
  pose proof Hw as [Hsh Hs].
  destruct (wf_child h _ _ _ _ _ Hw Hl) as [Hwc Hmin].
  pose proof (sorted_interleave_keys _ _ Hs) as Hks.
  assert (Hr : bisect_right (ks1 ++ ks2) k = length ks1).
  { apply bisect_right_app; [done| |done]. eapply Forall_impl; [exact H1|]. simpl. lia. }
  destruct (remove_child ch k n Hwc) as (ch' & Hrem & Hc & Hshc & Hlen);
    [unfold DEGREE in *; lia|lia|].
  exists ch'. split; [|split].
  - pose proof (remove_descend n (mkPage false (ks1 ++ ks2) (cs1 ++ ch :: cs2)) k ch) as H.
    cbv zeta in H. cbn [keys children bottom] in H. rewrite H; clear H; try done.
    + apply Nat.eqb_neq in Hne. rewrite Hne, Hrem. cbn [bind].
      unfold set_children. cbn [keys children bottom].
      by rewrite Hr, <- Hl, insert_middle.
    + simpl in Hsh. tauto.
    + apply Forall_app. split; [by apply Forall_lt_ne|by apply Forall_gt_ne].
    + rewrite Hr, <- Hl. by apply list_lookup_middle.
  - rewrite contents_at_child in Hs by done. rewrite !contents_at_child by done.
    simpl in Hsh. destruct Hsh as (_ & _ & Hlcs & _).
    rewrite !length_app in Hlcs. simpl in Hlcs.
    destruct (around_child_ne (map contents cs1) ks1 (contents ch)
                (map contents cs2) ks2 k) as [Hb Ha];
      [by rewrite length_map|rewrite length_map; lia|done..|].
    rewrite !without_app, Hc. by rewrite (without_id k _ Hb), (without_id k _ Ha).
  - eapply shape_child_replace; [exact Hsh|done|]. unfold DEGREE in *. lia.
Qed.

(** The two neighbours hold [DEGREE - 1] entries each: the page that
    [merge] makes of them, with the key removed from it. *)
Lemma remove_merged ks1 e ks2 cs1 c d cs2 k n :
  wf (S h) (mkPage false (ks1 ++ e :: ks2) (cs1 ++ c :: d :: cs2)) ->
  length cs1 = length ks1 ->
  length (keys c) = (DEGREE - 1)%nat -> length (keys d) = (DEGREE - 1)%nat ->
  Forall (fun x => key x < k) ks1 -> Forall (fun x => k < key x) ks2 ->
  (2 * h + 1 <= n)%nat ->
  exists m',
    Page.remove n (mkPage (bottom c && bottom d) (keys c ++ [e] ++ keys d)
                     (children c ++ children d)) k = Ok (m', m') /\
    shape h m' /\ (2 * DEGREE - 2 <= length (keys m'))%nat /\
    contents (mkPage false (ks1 ++ ks2) (cs1 ++ m' :: cs2))
      = without k (contents (mkPage false (ks1 ++ e :: ks2) (cs1 ++ c :: d :: cs2))).
Proof.
  intros Hw Hl Hlc Hld H1 H2 Hn.
  destruct (wf_two h _ _ _ _ _ _ _ Hw Hl) as ([Hc Hsc] & [Hd Hsd] & _ & _ & Hl2 & Hs).
  set (m := mkPage (bottom c && bottom d) (keys c ++ [e] ++ keys d)
              (children c ++ children d)).
  assert (Hcm : contents m = contents c ++ e :: contents d) by (by eapply merged_contents).
  assert (Hwm : wf h m).
  { split; [by apply merged_shape|]. rewrite Hcm.
    apply sorted_app in Hs as (_ & _ & Hs).
    replace (contents c ++ e :: contents d ++ after (map contents cs2) ks2)
      with ((contents c ++ e :: contents d) ++ after (map contents cs2) ks2) in Hs
      by (by rewrite <- app_assoc).
    by apply sorted_app in Hs as (_ & Hs & _). }
  destruct (remove_child m k n Hwm) as (m' & Hrem & Hcm' & Hshm & Hlen); [|done|].
  { unfold m. cbn [keys]. rewrite !length_app, Hlc, Hld. unfold DEGREE. simpl. lia. }
  exists m'. split; [done|]. split; [done|]. split.
  { unfold m in Hlen. cbn [keys] in Hlen. rewrite !length_app, Hlc, Hld in Hlen.
    unfold DEGREE in *. simpl in Hlen. lia. }
  rewrite contents_at_child, contents_at_sep by done.
  replace (contents c ++ e :: contents d ++ after (map contents cs2) ks2)
    with ((contents c ++ e :: contents d) ++ after (map contents cs2) ks2) in Hs |- *
    by (by rewrite <- app_assoc).
  destruct (around_child_ne (map contents cs1) ks1 (contents c ++ e :: contents d)
              (map contents cs2) ks2 k) as [Hb Ha];
    [by rewrite length_map|by rewrite length_map|done..|].
  rewrite Hcm', Hcm, !without_app, (without_id k _ Hb), (without_id k _ Ha).
  by rewrite <- ?app_assoc.
Qed.

(** After the merge: the merged page is returned when no entry is left,
    else [remove] is called on the page again and goes down. *)
Lemma finish_merge ks1 e ks2 cs1 c d cs2 k n (retry : bool) :
  wf (S h) (mkPage false (ks1 ++ e :: ks2) (cs1 ++ c :: d :: cs2)) ->
  length cs1 = length ks1 ->
  length (keys c) = (DEGREE - 1)%nat -> length (keys d) = (DEGREE - 1)%nat ->
  Forall (fun x => key x < k) ks1 -> Forall (fun x => k < key x) ks2 ->
  (2 * h + 2 <= n)%nat ->
  exists res,
    (let* '(merged', _) :=
       Page.remove n (mkPage (bottom c && bottom d) (keys c ++ [e] ++ keys d)
                        (children c ++ children d)) k in
     let self2 := mkPage false (ks1 ++ ks2) (cs1 ++ merged' :: cs2) in
     if (length (keys self2) =? 0)%nat then Ok (self2, merged')
     else if retry then
       let* '(self3, _) := Page.remove n self2 k in
       Ok (self3, self3)
     else Ok (self2, self2)) = Ok res /\
    removed (S h) (mkPage false (ks1 ++ e :: ks2) (cs1 ++ c :: d :: cs2)) k res.
Proof.
  intros Hw Hl Hlc Hld H1 H2 Hn.
  destruct (remove_merged _ _ _ _ _ _ _ k n Hw Hl Hlc Hld H1 H2) as
    (m' & Hrem & Hshm & Hlen & Hcont); [lia|].
  rewrite Hrem. cbn [bind]. cbv zeta. cbn [keys].
  set (P := mkPage false (ks1 ++ e :: ks2) (cs1 ++ c :: d :: cs2)) in *.
  set (P2 := mkPage false (ks1 ++ ks2) (cs1 ++ m' :: cs2)) in *.
  destruct (wf_two h _ _ _ _ _ _ _ Hw Hl) as (_ & _ & _ & _ & Hl2 & _).
  destruct (Nat.eqb_spec (length (ks1 ++ ks2)) 0) as [Hz|Hnz].
  - apply nil_length_inv in Hz. apply app_eq_nil in Hz as [-> ->].
    destruct cs1; [|done]. destruct cs2; [|done].
    eexists. split; [done|]. split.
    + cbn [snd]. rewrite <- Hcont. unfold P2. rewrite contents_node. simpl.
      by rewrite app_nil_r.
    + right. exists h. by repeat split.
  - assert (Hne : ks1 ++ ks2 <> []).
    { intros Hz. by rewrite Hz in Hnz. }
    pose proof Hw as [Hsh Hs].
    assert (HshP2 : shape (S h) P2).
    { eapply shape_merged_replace; [exact Hsh|done| |done]. unfold DEGREE in *. lia. }
    assert (HP2len : (length (keys P) <= S (length (keys P2)))%nat).
    { unfold P, P2. cbn [keys]. rewrite !length_app. simpl. lia. }
    destruct retry.
    + destruct (remove_ready ks1 ks2 cs1 m' cs2 k n) as (m2 & Hrem2 & Hc2 & Hsh2);
        try done.
      { split; [done|]. fold P2. rewrite Hcont. by apply sorted_without. }
      { unfold DEGREE in *. lia. }
      fold P2 in Hrem2, Hc2. rewrite Hrem2. cbn [bind].
      eexists. split; [done|]. split.
      * cbn [snd]. by rewrite Hc2, Hcont, without_without.
      * left. cbn [fst snd]. split; [done|]. split; [done|]. exact HP2len.
    + eexists. split; [done|]. split; [done|]. left. cbn [fst snd].
      split; [done|]. split; [done|]. exact HP2len.
Qed.

(** After a borrow: [remove] is called on the page again and goes down into
    the child that got an entry more. *)
Lemma finish_borrow ks1 e e' ks2 cs1 c d c' d' cs2 k n (second : bool) :
  wf (S h) (mkPage false (ks1 ++ e :: ks2) (cs1 ++ c :: d :: cs2)) ->
  length cs1 = length ks1 ->
  shape h c' -> shape h d' ->
  (DEGREE - 1 <= length (keys c'))%nat -> (DEGREE - 1 <= length (keys d'))%nat ->
  contents c' ++ e' :: contents d' = contents c ++ e :: contents d ->
  Forall (fun x => key x < k) ks1 -> Forall (fun x => k < key x) ks2 ->
  (if second then key e' < k /\ length (keys d') <> (DEGREE - 1)%nat
   else k < key e' /\ length (keys c') <> (DEGREE - 1)%nat) ->
  (2 * h + 2 <= n)%nat ->
  exists res,
    (let* '(self2, _) :=
       Page.remove n (mkPage false (ks1 ++ e' :: ks2) (cs1 ++ c' :: d' :: cs2)) k in
     Ok (self2, self2)) = Ok res /\
    removed (S h) (mkPage false (ks1 ++ e :: ks2) (cs1 ++ c :: d :: cs2)) k res.
Proof.
  intros Hw Hl Hc Hd Hminc Hmind Heq H1 H2 Hside Hn.
  pose proof Hw as [Hsh Hs].
  set (P := mkPage false (ks1 ++ e :: ks2) (cs1 ++ c :: d :: cs2)) in *.
  set (P1 := mkPage false (ks1 ++ e' :: ks2) (cs1 ++ c' :: d' :: cs2)).
  assert (Hc1 : contents P1 = contents P).
  { unfold P1, P. rewrite !contents_at_sep by done.
    f_equal. rewrite !app_comm_cons, !app_assoc. by rewrite Heq. }
  assert (Hw1 : wf (S h) P1).
  { split; [|by rewrite Hc1]. by eapply shape_two_replace. }
  assert (Hfin : forall P3, contents P3 = without k (contents P1) -> shape (S h) P3 ->
                   keys P3 = keys P1 -> removed (S h) P k (P3, P3)).
  { intros P3 Hc3 Hsh3 Hk3. split; [cbn [snd]; by rewrite Hc3, Hc1|].
    left. cbn [fst snd]. split; [done|]. split; [done|].
    rewrite Hk3. unfold P, P1. cbn [keys]. rewrite !length_app. simpl. lia. }
  destruct second.
  - destruct Hside as [Hlt Hne].
    unfold P1 in Hw1 |- *.
    replace (ks1 ++ e' :: ks2) with ((ks1 ++ [e']) ++ ks2) in Hw1 |- *
      by (by rewrite <- app_assoc).
    replace (cs1 ++ c' :: d' :: cs2) with ((cs1 ++ [c']) ++ d' :: cs2) in Hw1 |- *
      by (by rewrite <- app_assoc).
    destruct (remove_ready (ks1 ++ [e']) ks2 (cs1 ++ [c']) d' cs2 k n)
      as (d2 & Hrem & Hc2 & Hsh2); try done.
    { rewrite !length_app. simpl. lia. }
    { apply Forall_app. split; [done|]. by apply Forall_singleton. }
    rewrite Hrem. cbn [bind]. eexists. split; [done|].
    apply Hfin; try done.
    + rewrite Hc2. unfold P1. by rewrite <- !app_assoc.
    + cbn [keys]. unfold P1. cbn [keys]. by rewrite <- app_assoc.
  - destruct Hside as [Hgt Hne]. unfold P1 in Hw1 |- *.
    destruct (remove_ready ks1 (e' :: ks2) cs1 c' (d' :: cs2) k n)
      as (c2 & Hrem & Hc2 & Hsh2); try done.
    { by constructor. }
    rewrite Hrem. cbn [bind]. eexists. split; [done|].
    apply Hfin; try done.
Qed.

Lemma step_borrow_right ks1 sep ks2 cs1 c d cs2 k n :
  wf (S h) (mkPage false (ks1 ++ sep :: ks2) (cs1 ++ c :: d :: cs2)) ->
  length cs1 = length ks1 ->
  Forall (fun e => key e < k) ks1 -> Forall (fun e => k < key e) (sep :: ks2) ->
  length (keys c) = (DEGREE - 1)%nat -> (DEGREE - 1 < length (keys d))%nat ->
  (2 * h + 2 <= n)%nat ->
  exists res,
    Page.remove (S n) (mkPage false (ks1 ++ sep :: ks2) (cs1 ++ c :: d :: cs2)) k = Ok res /\
    removed (S h) (mkPage false (ks1 ++ sep :: ks2) (cs1 ++ c :: d :: cs2)) k res.
Proof.
  intros Hw Hl H1 H2 Hlc Hsur Hn. pose proof Hw as [Hsh Hs].
  pose proof (sorted_interleave_keys _ _ Hs) as Hks.
  destruct (wf_two h _ _ _ _ _ _ _ Hw Hl) as ([Hc _] & [Hd _] & Hminc & Hmind & Hl2 & Hs2).
  pose proof (remove_first_of_two n ks1 sep ks2 cs1 c d cs2 k Hl Hks H1 H2 Hlc) as H.
  cbv zeta in H. rewrite H. clear H.
  apply Nat.ltb_lt in Hsur as Hsur'. rewrite Hsur'.
  destruct (borrow_from_right_wf h ks1 sep ks2 cs1 c d cs2 Hl Hc Hd Hsur)
    as (c' & d' & rk & Hb & Hc' & Hd' & Hlc' & Hld' & Hrk & Heq).
  rewrite Hb. cbn [bind].
  apply Forall_cons in H2 as [Hsep H2].
  apply (finish_borrow ks1 sep rk ks2 cs1 c d c' d' cs2 k n false); try done.
  - lia.
  - lia.
  - split; [|lia].
    assert (Hin : rk ∈ contents d).
    { destruct d as [bd kd cd]. rewrite contents_node. by apply elem_of_interleave_keys. }
    rewrite (app_assoc _ (contents c)) in Hs2.
    apply sorted_middle in Hs2 as (_ & Hgt & _).
    rewrite Forall_forall in Hgt. specialize (Hgt rk).
    rewrite elem_of_app in Hgt. specialize (Hgt (or_introl Hin)). lia.
Qed.

Lemma step_second_of_two ks1 sep ks2 cs1 l c cs2 k n :
  wf (S h) (mkPage false (ks1 ++ sep :: ks2) (cs1 ++ l :: c :: cs2)) ->
  length cs1 = length ks1 ->
  Forall (fun e => key e < k) (ks1 ++ [sep]) -> Forall (fun e => k < key e) ks2 ->
  length (keys c) = (DEGREE - 1)%nat ->
  Forall (fun d => (length (keys d) <= DEGREE - 1)%nat) (take 1 cs2) ->
  (2 * h + 2 <= n)%nat ->
  exists res,
    Page.remove (S n) (mkPage false (ks1 ++ sep :: ks2) (cs1 ++ l :: c :: cs2)) k = Ok res /\
    removed (S h) (mkPage false (ks1 ++ sep :: ks2) (cs1 ++ l :: c :: cs2)) k res.
Proof.
  intros Hw Hl H1 H2 Hlc Hright Hn. pose proof Hw as [Hsh Hs].
  pose proof (sorted_interleave_keys _ _ Hs) as Hks.
  destruct (wf_two h _ _ _ _ _ _ _ Hw Hl) as ([Hsl _] & [Hsc _] & Hminl & Hminc & Hl2 & Hs2).
  pose proof (remove_second_of_two n ks1 sep ks2 cs1 l c cs2 k Hl Hks H1 H2 Hlc Hright) as H.
  cbv zeta in H. rewrite H. clear H.
  apply Forall_app in H1 as [H1 Hsep]. rewrite Forall_singleton in Hsep.
  destruct (Nat.ltb_spec (DEGREE - 1) (length (keys l))) as [Hsur|Hsur].
  - destruct (borrow_from_left_wf h ks1 sep ks2 cs1 l c cs2 Hl Hsl Hsc Hsur)
      as (l' & c' & lk & Hb & Hl' & Hc' & Hlc' & Hll' & Hlk & Heq).
    rewrite Hb. cbn [bind].
    apply (finish_borrow ks1 sep lk ks2 cs1 l c l' c' cs2 k n true); try done.
    + lia.
    + lia.
    + split; [|lia].
      assert (Hin : lk ∈ contents l).
      { destruct l as [bl kl cl]. rewrite contents_node. by apply elem_of_interleave_keys. }
      rewrite (app_assoc _ (contents l)) in Hs2.
      apply sorted_middle in Hs2 as (Hlt & _).
      rewrite Forall_forall in Hlt. specialize (Hlt lk).
      rewrite elem_of_app in Hlt. specialize (Hlt (or_intror Hin)). lia.
  - rewrite merge_middle by done. cbn [bind].
    unfold set_children. cbn [keys children bottom].
    destruct (finish_merge ks1 sep ks2 cs1 l c cs2 k n true) as (res & Hres & Hrm);
      try done; [lia|].
    exists res. split; [|done]. rewrite <- Hres.
    destruct (Page.remove n _ k) as [[m' ?]| |]; cbn [bind]; try done.
    by rewrite <- Hl, insert_middle.
Qed.

Lemma step_merge_first sep ks2 c d cs2 k n :
  wf (S h) (mkPage false (sep :: ks2) (c :: d :: cs2)) ->
  Forall (fun e => k < key e) (sep :: ks2) ->
  length (keys c) = (DEGREE - 1)%nat -> (length (keys d) <= DEGREE - 1)%nat ->
  (2 * h + 2 <= n)%nat ->
  exists res,
    Page.remove (S n) (mkPage false (sep :: ks2) (c :: d :: cs2)) k = Ok res /\
    removed (S h) (mkPage false (sep :: ks2) (c :: d :: cs2)) k res.
Proof.
  intros Hw H2 Hlc Hld Hn. pose proof Hw as [Hsh Hs].
  pose proof (sorted_interleave_keys _ _ Hs) as Hks.
  destruct (wf_two h [] sep ks2 [] c d cs2 Hw eq_refl) as (_ & _ & Hminc & Hmind & Hl2 & Hs2).
  pose proof (remove_first_of_two n [] sep ks2 [] c d cs2 k eq_refl Hks (Forall_nil_2 _) H2 Hlc)
    as H.
  cbv zeta in H. cbn [app length] in H. rewrite H. clear H.
  replace (DEGREE - 1 <? length (keys d))%nat with false by (symmetry; by apply Nat.ltb_ge).
  cbn [Nat.ltb Nat.leb andb Nat.sub Nat.add children].
  change (py_get (c :: d :: cs2) 0) with (Ok c).
  change (py_get (c :: d :: cs2) 1) with (Ok d). cbn [bind].
  pose proof (merge_middle [] sep ks2 [] c d cs2 eq_refl) as Hm.
  cbn [app length] in Hm. rewrite Hm. clear Hm. cbn [bind app].
  unfold set_children. cbn [keys children bottom].
  apply Forall_cons in H2 as [Hsep H2].
  destruct (finish_merge [] sep ks2 [] c d cs2 k n true) as (res & Hres & Hrm);
    try done; [lia|].
  exists res. split; [|done]. rewrite <- Hres.
  destruct (Page.remove n _ k) as [[m' ?]| |]; cbn [bind]; done.
Qed.

(** The key is an entry of the page. *)
Lemma step_separator l1 e l2 cs1 c d cs2 n :
  wf (S h) (mkPage false (l1 ++ e :: l2) (cs1 ++ c :: d :: cs2)) ->
  length cs1 = length l1 -> (2 * h + 2 <= n)%nat ->
  exists res,
    Page.remove (S n) (mkPage false (l1 ++ e :: l2) (cs1 ++ c :: d :: cs2)) (key e) = Ok res /\
    removed (S h) (mkPage false (l1 ++ e :: l2) (cs1 ++ c :: d :: cs2)) (key e) res.
Proof.
  intros Hw Hl Hn. pose proof Hw as [Hsh Hs].
  pose proof (sorted_interleave_keys _ _ Hs) as Hks.
  pose proof Hks as Hks'. apply sorted_middle in Hks' as (Hlt & Hgt & _).
  destruct (wf_two h _ _ _ _ _ _ _ Hw Hl) as (Hwc & Hwd & Hminc & Hmind & Hl2 & Hs2).
  rewrite (remove_at_separator n _ (length l1) e c d); cbn [keys children bottom]; try done.
  2:{ by apply list_lookup_middle. }
  2:{ rewrite <- Hl. by apply list_lookup_middle. }
  2:{ rewrite <- Hl. apply lookup_second. }
  set (B := interleave (map contents cs1) l1) in *.
  set (A := after (map contents cs2) l2) in *.
  destruct (Nat.leb_spec DEGREE (length (keys c))) as [Hcs|Hcs].
  { (* the last entry below the child before *)
    destruct (find_predecessor_last h c) as (X & kp & HX & Hp);
      [apply Hwc|by apply min_fill_nonempty|].
    rewrite Hp. cbn [bind].
    destruct (remove_child c (key kp) n Hwc) as (c' & Hrem & Hc' & Hshc & Hlenc);
      [unfold DEGREE in *; lia|lia|].
    rewrite Hrem. cbn [bind]. cbv zeta.
    rewrite insert_middle. rewrite <- Hl, insert_middle.
    eexists. split; [done|]. split.
    - cbn [snd]. rewrite !contents_at_sep by done. fold A B. rewrite Hc', HX.
      destruct Hwc as [_ Hsc]. rewrite HX in Hsc, Hs2.
      pose proof (without_middle X kp [] Hsc) as Hwm. rewrite app_nil_r in Hwm.
      rewrite Hwm. rewrite (app_assoc B) in Hs2. rewrite (app_assoc B (X ++ [kp])).
      rewrite (without_middle _ e _ Hs2). by rewrite <- !app_assoc.
    - left. cbn [fst snd]. split; [done|]. split.
      + eapply shape_two_replace; [exact Hsh|done| |apply Hwd|done].
        unfold DEGREE in *. lia.
      + cbn [keys]. rewrite !length_app. simpl. lia. }
  destruct (Nat.leb_spec DEGREE (length (keys d))) as [Hds|Hds].
  { (* the first entry below the child after *)
    destruct (find_successor_first h d) as (X & kn & HX & Hp);
      [apply Hwd|by apply min_fill_nonempty|].
    rewrite Hp. cbn [bind].
    destruct (remove_child d (key kn) n Hwd) as (d' & Hrem & Hd' & Hshd & Hlend);
      [unfold DEGREE in *; lia|lia|].
    rewrite Hrem. cbn [bind]. cbv zeta.
    rewrite insert_middle. rewrite <- Hl, insert_second.
    eexists. split; [done|]. split.
    - cbn [snd]. rewrite !contents_at_sep by done. fold A B. rewrite Hd', HX.
      destruct Hwd as [_ Hsd]. rewrite HX in Hsd, Hs2.
      pose proof (without_middle [] kn X Hsd) as Hwm. cbn [app] in Hwm.
      rewrite Hwm. rewrite (app_assoc B) in Hs2. rewrite (app_assoc B (contents c) (e :: _)).
      rewrite (without_middle _ e _ Hs2). by rewrite <- !app_assoc.
    - left. cbn [fst snd]. split; [done|]. split.
      + eapply shape_two_replace; [exact Hsh|apply Hwc|done|done|].
        unfold DEGREE in *. lia.
      + cbn [keys]. rewrite !length_app. simpl. lia. }
  (* merge *)
  cbv zeta. cbn [keys].
  rewrite delete_middle. rewrite <- Hl, delete_second.
  destruct (finish_merge l1 e l2 cs1 c d cs2 (key e) n false) as (res & Hres & Hrm);
    try done; try (unfold DEGREE in *; lia).
  exists res. split; [|done]. rewrite <- Hres.
  destruct (Page.remove n _ (key e)) as [[m' ?]| |]; cbn [bind]; try done.
  by rewrite insert_middle.
Qed.

Lemma remove_step p k n :
  wf (S h) p -> (2 * S h + 1 <= n)%nat ->
  exists res, Page.remove n p k = Ok res /\ removed (S h) p k res.
Proof.
  intros Hw Hn. destruct n as [|n]; [lia|].
  pose proof Hw as [Hsh Hs].
  pose proof Hsh as Hsh'.
  apply shape_node_inv in Hsh' as (ks & cs & -> & Hne & Hlen & Hall).
  pose proof (sorted_interleave_keys _ _ Hs) as Hks.
  destruct (bisect_cases ks k Hks) as [(l1 & e & l2 & -> & Hk & Hr)|(l1 & l2 & -> & Hr & H1 & H2)].
  - destruct (children_split cs l1 (e :: l2) Hlen) as (cs1 & c & cs2' & -> & Hl1 & Hl2).
    destruct cs2' as [|d cs2]; [done|]. subst k.
    apply step_separator; [done|done|lia].
  - destruct (children_split cs l1 l2 Hlen) as (cs1 & ch & cs2 & -> & Hl1 & Hl2).
    destruct (decide (length (keys ch) = (DEGREE - 1)%nat)) as [Hch|Hch].
    2:{ destruct (remove_ready l1 l2 cs1 ch cs2 k (S n)) as (ch' & Hrem & Hc & Hsh');
          try done; [lia|].
        rewrite Hrem. eexists. split; [done|]. split; [done|]. left.
        split; [done|]. split; [done|]. cbn [fst keys]. lia. }
    assert (Hleft : (exists l1' sep cs1' l, l1 = l1' ++ [sep] /\ cs1 = cs1' ++ [l] /\
                       length cs1' = length l1') \/ (l1 = [] /\ cs1 = [])).
    { destruct l1 as [|sep l1' _] using rev_ind.
      - right. by destruct cs1.
      - left. destruct cs1 as [|l cs1' _] using rev_ind.
        + rewrite length_app in Hl1. simpl in Hl1. lia.
        + exists l1', sep, cs1', l. rewrite !length_app in Hl1. simpl in Hl1.
          repeat split; lia. }
    destruct cs2 as [|d cs2]; destruct l2 as [|sep2 l2]; try done.
    + (* the last child *)
      destruct Hleft as [(l1' & sep & cs1' & l & -> & -> & Hl')|[-> ->]]; [|done].
      revert Hw Hsh Hs Hks Hr H1 Hlen Hall Hne.
      rewrite <- !app_assoc. cbn [app]. intros.
      apply step_second_of_two; try done. lia.
    + destruct (Nat.ltb_spec (DEGREE - 1) (length (keys d))) as [Hd|Hd].
      * apply step_borrow_right; try done. lia.
      * destruct Hleft as [(l1' & sep & cs1' & l & -> & -> & Hl')|[-> ->]].
        -- revert Hw Hsh Hs Hks Hr H1 Hlen Hall Hne.
           rewrite <- !app_assoc. cbn [app]. intros.
           apply step_second_of_two; try done; [|lia].
           change (take 1 (d :: cs2)) with [d]. constructor; [exact Hd|constructor].
        -- cbn [app]. apply step_merge_first; try done. lia.
Qed.
End RemoveStep.

Lemma length_without_sorted k l :
  sorted l -> (length l <= S (length (without k l)))%nat.
Proof.
  induction l as [|e l IH]; intros Hs; [simpl; lia|].
  apply sorted_cons in Hs as [He Hs]. destruct (decide (key e = k)) as [Hk|Hk].
  - rewrite without_cons_eq by done. rewrite without_id; [done|].
    eapply Forall_impl; [exact He|]. simpl. lia.
  - rewrite without_cons_ne by done. simpl. specialize (IH Hs). lia.
Qed.

(** [remove] returns on every well-formed page, given [2 h + 1] nested
    calls, and [removed] holds of what it returns. *)
Lemma remove_wf h p k n :
  wf h p -> (2 * h + 1 <= n)%nat ->
  exists res, Page.remove n p k = Ok res /\ removed h p k res.
Proof.
  revert p k n. induction h as [|h IH]; intros p k n Hw Hn.
  - destruct Hw as [Hsh Hs]. apply shape_leaf_inv in Hsh as [ks ->].
    destruct n as [|n]; [lia|]. rewrite contents_leaf in Hs.
    rewrite remove_leaf by done. eexists. split; [done|]. split; [done|].
    left. cbn [fst snd]. split; [done|]. split; [done|].
    cbn [keys]. by apply length_without_sorted.
  - by apply remove_step.
Qed.

(** ** The tree *)

Lemma shape_depth h p : shape h p -> depth p = h.
Proof.
  revert p. induction h as [|h IH]; intros p Hsh.
  - by apply shape_leaf_inv in Hsh as [ks ->].
  - apply shape_node_inv in Hsh as (ks & cs & -> & _ & Hlen & Hall).
    destruct cs as [|c cs]; [done|]. apply Forall_cons in Hall as [[Hc _] _].
    simpl. f_equal. by apply IH.
Qed.

Lemma assoc_None_inv k l : assoc k l = None -> Forall (fun e => key e <> k) l.
Proof.
  induction l as [|e l IH]; simpl; [constructor|].
  destruct (Z.eqb_spec (key e) k); [done|]. intros H. constructor; auto.
Qed.

(** [BTree.remove] on a well-formed tree returns a well-formed tree, with the
    entries of the tree but those of the key. *)
Lemma remove_ok h t k :
  wf h (root t) ->
  exists t' h', BTree.remove t k = Ok t' /\ wf h' (root t') /\
    contents (root t') = without k (contents (root t)).
Proof.
  intros Hw. unfold BTree.remove.
  destruct (remove_wf h (root t) k (2 * depth (root t) + 1) Hw) as ([p' r] & Hrem & Hc & Hcase).
  { rewrite (shape_depth h) by apply Hw. lia. }
  rewrite Hrem. cbn [bind snd fst] in *.
  assert (Hs : sorted (contents r)).
  { rewrite Hc. apply sorted_without, Hw. }
  destruct Hcase as [(-> & Hsh & _)|(h' & _ & _ & Hsh)].
  - exists (mkBTree p'), h. by repeat split.
  - exists (mkBTree r), h'. by repeat split.
Qed.

(** What [Page.add_key_value] does on sorted entries. *)
Lemma add_key_value_cases self k v :
  sorted (keys self) ->
  (exists l1 e l2, keys self = l1 ++ e :: l2 /\ key e = k /\
     Page.add_key_value self k v
     = Ok (set_keys self (l1 ++ mkSmartKey k (value e ++ [v]) :: l2))) \/
  (exists l1 l2, keys self = l1 ++ l2 /\
     Forall (fun e => key e < k) l1 /\ Forall (fun e => k < key e) l2 /\
     Page.add_key_value self k v = Ok (set_keys self (l1 ++ mkSmartKey k [v] :: l2))).
Proof.
  intros Hs. unfold Page.add_key_value.
  destruct (bisect_cases _ k Hs) as [(l1 & e & l2 & Hks & Hk & Hr)|(l1 & l2 & Hks & Hr & H1 & H2)];
    rewrite Hr, Hks.
  - left. exists l1, e, l2. split; [done|]. split; [done|].
    replace (length (l1 ++ e :: l2) =? 0)%nat with false
      by (symmetry; apply Nat.eqb_neq; rewrite length_app; simpl; lia).
    change (0 <? S (length l1))%nat with true. cbv iota.
    replace (S (length l1) - 1)%nat with (length l1) by lia.
    rewrite py_get_middle. cbn [bind key]. rewrite Hk, Z.eqb_refl.
    rewrite insert_middle. unfold Page.extend_value. by rewrite Hk.
  - right. exists l1, l2. do 3 (split; [done|]).
    destruct (Nat.eqb_spec (length (l1 ++ l2)) 0) as [Hz|Hnz].
    { apply nil_length_inv in Hz. apply app_eq_nil in Hz as [-> ->]. done. }
    rewrite py_insert_app.
    destruct l1 as [|e l1 _] using rev_ind; [done|].
    rewrite length_app. cbn [length].
    replace (0 <? length l1 + 1)%nat with true by (symmetry; apply Nat.ltb_lt; lia).
    replace (length l1 + 1 - 1)%nat with (length l1) by lia.
    rewrite <- app_assoc. cbn [app]. rewrite py_get_middle. cbn [bind key].
    apply Forall_app in H1 as [_ He]. rewrite Forall_singleton in He.
    destruct (Z.eqb_spec (key e) k); [lia|done].
Qed.

Lemma assoc_skip k' L e R :
  key e <> k' -> assoc k' (L ++ e :: R) = assoc k' (L ++ R).
Proof.
  intros He. induction L as [|x L IH]; simpl.
  - destruct (Z.eqb_spec (key e) k'); [lia|done].
  - by rewrite IH.
Qed.

(** The values of the keys after an insertion, in a sorted list of entries:
    a value more at the end for the key, nothing else. *)
Lemma replace_entry_spec L e R k v :
  sorted (L ++ e :: R) -> key e = k ->
  sorted (L ++ mkSmartKey k (value e ++ [v]) :: R) /\
  forall k', assoc k' (L ++ mkSmartKey k (value e ++ [v]) :: R)
             = if decide (k' = k)
               then Some (default [] (assoc k (L ++ e :: R)) ++ [v])
               else assoc k' (L ++ e :: R).
Proof.
  intros Hs Hk.
  assert (Hs' : sorted (L ++ mkSmartKey k (value e ++ [v]) :: R)).
  { eapply sorted_keys_ext; [|exact Hs]. rewrite !map_app. simpl. by rewrite Hk. }
  split; [done|]. intros k'. destruct (decide (k' = k)) as [->|Hne].
  - pose proof (assoc_middle L e R Hs) as H1. rewrite Hk in H1.
    pose proof (assoc_middle L _ R Hs') as H2. cbn [key value] in H2.
    by rewrite H1, H2.
  - rewrite !assoc_skip; [done|by rewrite Hk|done].
Qed.

Lemma insert_entry_spec l1 l2 k v :
  sorted (l1 ++ l2) -> Forall (fun e => key e < k) l1 -> Forall (fun e => k < key e) l2 ->
  sorted (l1 ++ mkSmartKey k [v] :: l2) /\
  forall k', assoc k' (l1 ++ mkSmartKey k [v] :: l2)
             = if decide (k' = k)
               then Some (default [] (assoc k (l1 ++ l2)) ++ [v])
               else assoc k' (l1 ++ l2).
Proof.
  intros Hs H1 H2.
  assert (Hs' : sorted (l1 ++ mkSmartKey k [v] :: l2)).
  { apply sorted_app in Hs as (H12 & Hs1 & Hs2). apply sorted_middle. done. }
  split; [done|]. intros k'. destruct (decide (k' = k)) as [->|Hne].
  - pose proof (assoc_middle l1 _ l2 Hs') as H3. cbn [key value] in H3.
    rewrite H3, assoc_None; [done|].
    apply Forall_app. split; [by apply Forall_lt_ne|by apply Forall_gt_ne].
  - by rewrite assoc_skip.
Qed.

(** [_put] that returns: the page is well-formed again and holds one value
    more for the key. *)
Lemma put_ok h p k v p1 :
  wf h p -> BTree._put p k v = Ok p1 ->
  wf h p1 /\
  forall k', assoc k' (contents p1)
             = if decide (k' = k)
               then Some (default [] (assoc k (contents p)) ++ [v])
               else assoc k' (contents p).
Proof.
  intros [Hsh Hs] Hput. apply put_Ok_inv in Hput as [Hcond Hadd].
  pose proof (sorted_interleave_keys (map contents (children p)) (keys p)) as Hks.
  destruct p as [b ks cs]. cbn [keys children bottom] in *.
  specialize (Hks Hs).
  destruct (add_key_value_cases (mkPage b ks cs) k v Hks)
    as [(l1 & e & l2 & Hk & Hek & Ha)|(l1 & l2 & Hk & H1 & H2 & Ha)];
    cbn [keys] in Hk; subst ks; rewrite Ha in Hadd; injection Hadd as <-;
    unfold set_keys; cbn [keys children bottom].
  - (* the key is there *)
    destruct h as [|h]; simpl in Hsh.
    + destruct Hsh as [-> ->]. rewrite !contents_leaf in *.
      destruct (replace_entry_spec l1 e l2 k v Hs Hek) as [Hs' Hassoc].
      by repeat split.
    + pose proof Hsh as (-> & Hne & Hlen & Hall).
      destruct (children_split cs l1 (e :: l2) Hlen) as (cs1 & c & cs2 & -> & Hl1 & Hl2).
      rewrite contents_at_child in Hs |- * by done. rewrite contents_at_child by done.
      cbn [after] in *. rewrite app_assoc in Hs |- *.
      rewrite (app_assoc _ (contents c) (e :: _)).
      destruct (replace_entry_spec _ e _ k v Hs Hek) as [Hs' Hassoc].
      split; [|done].
      split; [|rewrite contents_at_child by done; cbn [after]; by rewrite app_assoc].
      simpl. repeat split; try done.
      * by destruct l1.
      * rewrite Hlen, !length_app. done.
  - (* the key is new: the page is a leaf *)
    destruct b.
    2:{ simpl in Hcond. apply existsb_exists in Hcond as (x & Hx & Hxk).
        apply list_elem_of_In in Hx. apply Z.eqb_eq in Hxk.
        apply elem_of_app in Hx as [Hx|Hx].
        - rewrite Forall_forall in H1. specialize (H1 _ Hx). lia.
        - rewrite Forall_forall in H2. specialize (H2 _ Hx). lia. }
    destruct h as [|h]; simpl in Hsh; [|by destruct Hsh as [? _]].
    destruct Hsh as [_ ->]. rewrite !contents_leaf in *.
    destruct (insert_entry_spec l1 l2 k v Hs H1 H2) as [Hs' Hassoc].
    by repeat split.
Qed.

(** A page with 31 entries that becomes the root's two children. *)
Lemma split_root h p :
  wf h p -> length (keys p) = 31%nat ->
  exists l rk r, Page.split p = Ok (l, (rk, r)) /\
    wf (S h) (mkPage false [rk] [l; r]) /\
    contents (mkPage false [rk] [l; r]) = contents p.
Proof.
  intros [Hsh Hs] Hlen. destruct p as [b ks cs]. cbn [keys] in Hlen.
  destruct (lookup_lt_is_Some_2 ks 15) as [rk Hrk]; [lia|].
  unfold Page.split. cbn [keys children bottom]. change (DEGREE - 1)%nat with 15%nat.
  change DEGREE with 16%nat. rewrite (py_get_Some _ _ _ Hrk). cbn [bind].
  do 3 eexists. split; [done|].
  assert (Hks : ks = take 15 ks ++ rk :: drop 16 ks) by (symmetry; by apply take_drop_middle).
  assert (Hcs : cs = take 16 cs ++ drop 16 cs) by (by rewrite take_drop).
  assert (Hc : contents (mkPage false [rk]
                 [mkPage b (take 15 ks) (take 16 cs); mkPage b (drop 16 ks) (drop 16 cs)])
               = contents (mkPage b ks cs)).
  { rewrite contents_node. cbn [map interleave]. rewrite !contents_node, app_nil_r.
    rewrite Hks at 3. rewrite Hcs at 3. rewrite map_app.
    destruct h as [|h]; simpl in Hsh.
    - destruct Hsh as [_ ->]. done.
    - destruct Hsh as (_ & _ & Hl & _). rewrite interleave_sep; [done|].
      rewrite length_map, !length_take. lia. }
  split; [|done]. split; [|by rewrite Hc].
  cbn [shape keys children bottom]. split; [done|]. split; [done|]. split; [done|].
  assert (Hmin1 : (DEGREE - 1 <= length (take 15 ks))%nat)
    by (rewrite length_take; unfold DEGREE; lia).
  assert (Hmin2 : (DEGREE - 1 <= length (drop 16 ks))%nat)
    by (rewrite length_drop; unfold DEGREE; lia).
  destruct h as [|h]; simpl in Hsh |- *.
  - destruct Hsh as [-> ->]. by repeat constructor.
  - destruct Hsh as (-> & _ & Hl & Hall).
    repeat constructor; try done.
    + intros Hz. cbn [keys] in Hz. rewrite Hz in Hmin1. unfold DEGREE in Hmin1. simpl in Hmin1. lia.
    + cbn [keys children]. rewrite !length_take. lia.
    + by apply Forall_take.
    + intros Hz. cbn [keys] in Hz. rewrite Hz in Hmin2. unfold DEGREE in Hmin2. simpl in Hmin2. lia.
    + cbn [keys children]. rewrite !length_drop. lia.
    + by apply Forall_drop.
Qed.

(** [BTree.add_key_value] that returns: the tree is well-formed and holds one
    value more for the key. *)
Lemma add_ok h t k v t' :
  wf h (root t) -> BTree.add_key_value t k v = Ok t' ->
  (exists h', wf h' (root t')) /\
  forall k', assoc k' (contents (root t'))
             = if decide (k' = k)
               then Some (default [] (assoc k (contents (root t))) ++ [v])
               else assoc k' (contents (root t)).
Proof.
  intros Hw Hadd. unfold BTree.add_key_value in Hadd.
  apply bind_Ok in Hadd as (root1 & Hput & Hadd).
  destruct (put_ok h _ k v root1 Hw Hput) as [Hw1 Hassoc].
  destruct (Page.is_full root1) eqn:Hfull.
  - unfold Page.is_full in Hfull. apply Nat.eqb_eq in Hfull.
    destruct (split_root h root1 Hw1 Hfull) as (l & rk & r & Hsp & Hw2 & Hc2).
    rewrite Hsp in Hadd. cbn [bind] in Hadd. injection Hadd as <-. cbn [root].
    split; [eauto|]. by rewrite Hc2.
  - injection Hadd as <-. cbn [root]. eauto.
Qed.


Lemma init_wf : wf 0 (root BTree.__init__).
Proof. split; [done|]. apply sorted_nil. Qed.

(** Every tree that a run of calls builds from the empty tree is
    well-formed. *)
Lemma reachable_wf ops t : run BTree.__init__ ops = Ok t -> exists h, wf h (root t).
Proof.
  revert t. induction ops as [|o ops IH] using rev_ind; intros t Hrun.
  - injection Hrun as <-. exists 0%nat. apply init_wf.
  - rewrite run_app in Hrun. apply bind_Ok in Hrun as (t1 & Hrun & Hstep).
    destruct (IH t1 Hrun) as [h Hw]. cbn [run] in Hstep.
    apply bind_Ok in Hstep as (t2 & Hstep & [= ->]).
    destruct o as [k v|k]; cbn [step] in Hstep.
    + by destruct (add_ok h t1 k v t Hw Hstep) as [? _].
    + destruct (remove_ok h t1 k Hw) as (t' & h' & Hrem & Hw' & _).
      rewrite Hrem in Hstep. injection Hstep as ->. eauto.
Qed.

Ltac wf_by_computation :=
  split;
  [ vm_compute; repeat split; try discriminate; repeat constructor
  | vm_compute; repeat constructor; unfold key_lt; simpl; lia ].

(** ** When an insertion returns *)

Lemma split_Ok self :
  (DEGREE <= length (keys self))%nat -> exists res, Page.split self = Ok res.
Proof.
  intros Hge. unfold DEGREE in Hge.
  destruct (lookup_lt_is_Some_2 (keys self) 15) as [rk Hrk]; [lia|].
  unfold Page.split. change (DEGREE - 1)%nat with 15%nat.
  rewrite (py_get_Some _ _ _ Hrk). cbn [bind]. eauto.
Qed.

Lemma existsb_key_false ks k :
  existsb (fun e => key e =? k) ks = false <-> Forall (fun e => key e <> k) ks.
Proof.
  induction ks as [|e ks IH]; simpl.
  - split; [constructor|done].
  - rewrite orb_false_iff, IH, Forall_cons, Z.eqb_neq. done.
Qed.

Lemma add_key_value_Ok self k v :
  sorted (keys self) -> exists self', Page.add_key_value self k v = Ok self'.
Proof.
  intros Hs. destruct (add_key_value_cases self k v Hs)
    as [(? & ? & ? & _ & _ & ->)|(? & ? & _ & _ & _ & ->)]; eauto.
Qed.

(** [_put] from a page that is not a leaf and lacks the key ends at the call
    of [close]. *)
Lemma put_raises h p k v :
  wf (S h) p -> Forall (fun e => key e <> k) (keys p) ->
  BTree._put p k v = Raise AttributeError.
Proof.
  revert p. induction h as [|h IH]; intros p [Hsh Hs] Hk; pose proof Hsh as Hsh';
    apply shape_node_inv in Hsh' as (ks & cs & -> & Hne & Hlen & Hall);
    pose proof (sorted_interleave_keys _ _ Hs) as Hks; cbn [keys] in Hk;
    cbn [BTree._put orb]; rewrite (proj2 (existsb_key_false ks k) Hk); cbv zeta;
    (destruct (bisect_cases ks k Hks)
      as [(l1 & e & l2 & -> & Hek & Hr)|(l1 & l2 & -> & Hr & H1 & H2)];
     [apply Forall_app in Hk as [_ Hk]; apply Forall_cons in Hk as [Hk _]; done|]);
    rewrite Hr;
    destruct (children_split cs l1 l2 Hlen) as (cs1 & c & cs2 & -> & Hl1 & Hl2);
    destruct (wf_child _ l1 l2 cs1 c cs2 (conj Hsh Hs) Hl1) as [[Hshc Hsc] _];
    rewrite <- Hl1, on_item_middle.
  - (* the child is a leaf *)
    apply shape_leaf_inv in Hshc as [kc ->]. cbn [BTree._put orb].
    destruct (add_key_value_Ok (mkPage true kc []) k v Hsc) as [c' ->]. cbn [bind].
    rewrite insert_middle. destruct (Page.is_full c') eqn:Hfull; [|done].
    unfold Page.split_and_add_page. cbn [children]. rewrite py_get_middle. cbn [bind].
    destruct (split_Ok c') as [[c1 [rk z]] ->]; [|done].
    unfold Page.is_full in Hfull. apply Nat.eqb_eq in Hfull. rewrite Hfull.
    unfold DEGREE. lia.
  - (* the child is not a leaf *)
    pose proof Hshc as Hshc'.
    apply shape_node_inv in Hshc' as (kc & cc & -> & _ & _ & _).
    destruct (existsb (fun e => key e =? k) kc) eqn:Hex.
    + cbn [BTree._put orb]. rewrite Hex.
      pose proof (sorted_interleave_keys _ _ Hsc) as Hkc.
      destruct (add_key_value_Ok (mkPage false kc cc) k v Hkc) as [c' ->]. cbn [bind].
      rewrite insert_middle. destruct (Page.is_full c') eqn:Hfull; [|done].
      unfold Page.split_and_add_page. cbn [children]. rewrite py_get_middle. cbn [bind].
      destruct (split_Ok c') as [[c1 [rk z]] ->]; [|done].
      unfold Page.is_full in Hfull. apply Nat.eqb_eq in Hfull. rewrite Hfull.
      unfold DEGREE. lia.
    + rewrite (IH (mkPage false kc cc)); [done|done|]. by apply existsb_key_false.
Qed.



(** ** Lookups after insertions (C2) *)



(** ** Removal (C3, C8) *)

(** C3.  [remove] on a well-formed tree returns, the tree it leaves is
    well-formed, and a lookup of the removed key in it returns absence,
    whether the key was present or not. *)
Theorem remove_then_find_absent h t k :
  wf h (root t) ->
  exists t', BTree.remove t k = Ok t' /\
    (exists h', wf h' (root t')) /\
    BTree.find_key t' k = Ok None.
Proof.
  intros Hw. destruct (remove_ok h t k Hw) as (t' & h' & Hrem & Hw' & Hc).
  exists t'. split; [done|]. split; [eauto|].
  unfold BTree.find_key. rewrite (find_assoc h') by done.
  by rewrite Hc, assoc_without_eq.
Qed.

Lemma remove_then_find_absent_witness :
  BTree.find_key two_level 16 = Ok (Some [16]) /\
  exists t', BTree.remove two_level 16 = Ok t' /\
    (exists h', wf h' (root t')) /\
    BTree.find_key t' 16 = Ok None.
Proof.
  split; [reflexivity|].
  apply (remove_then_find_absent 1 two_level 16).
  wf_by_computation.
Defined.

(** C8.  [remove] of a key that a well-formed tree lacks returns, and every
    lookup returns in the tree it leaves what it returned before. *)
Theorem remove_absent_keeps_finds h t k :
  wf h (root t) -> BTree.find_key t k = Ok None ->
  exists t', BTree.remove t k = Ok t' /\
    forall k', BTree.find_key t' k' = BTree.find_key t k'.
Proof.
  intros Hw Hfind. unfold BTree.find_key in *.
  rewrite (find_assoc h) in Hfind by done. injection Hfind as Hnone.
  destruct (remove_ok h t k Hw) as (t' & h' & Hrem & Hw' & Hc).
  exists t'. split; [done|]. intros k'.
  rewrite (find_assoc h'), (find_assoc h) by done.
  rewrite Hc, without_id; [done|]. by apply assoc_None_inv.
Qed.

Lemma remove_absent_keeps_finds_witness :
  exists t', BTree.remove two_level 100 = Ok t' /\
    forall k', BTree.find_key t' k' = BTree.find_key two_level k'.
Proof.
  apply (remove_absent_keeps_finds 1 two_level 100).
  - wf_by_computation.
  - reflexivity.
Defined.

(** ** The key in a page that is not a leaf (C5) *)

(** The three cases, on a well-formed page [self] with the entry [e] between
    its children [c] and [d]. *)
Lemma separator_predecessor_case h ks1 e ks2 cs1 c d cs2 n :
  wf (S h) (mkPage false (ks1 ++ e :: ks2) (cs1 ++ c :: d :: cs2)) ->
  length cs1 = length ks1 -> (2 * h + 1 <= n)%nat ->
  (DEGREE <= length (keys c))%nat ->
  exists X kp c',
    contents c = X ++ [kp] /\ Forall (fun x => key x < key kp) X /\
    Page.find_predecessor c = Ok kp /\
    Page.remove n c (key kp) = Ok (c', c') /\
    contents c' = X /\ shape h c' /\
    Page.remove (S n) (mkPage false (ks1 ++ e :: ks2) (cs1 ++ c :: d :: cs2)) (key e)
    = Ok (mkPage false (ks1 ++ kp :: ks2) (cs1 ++ c' :: d :: cs2),
          mkPage false (ks1 ++ kp :: ks2) (cs1 ++ c' :: d :: cs2)).
Proof.
  intros Hw Hl Hn Hc. pose proof Hw as [Hsh Hs].
  pose proof (sorted_interleave_keys _ _ Hs) as Hks.
  destruct (wf_two h _ _ _ _ _ _ _ Hw Hl) as (Hwc & Hwd & Hminc & Hmind & Hl2 & Hs2).
  destruct (find_predecessor_last h c) as (X & kp & HX & Hp);
    [apply Hwc|by apply min_fill_nonempty|].
  destruct (remove_child h (remove_wf h) c (key kp) n Hwc) as (c' & Hrem & Hc' & Hshc & _);
    [unfold DEGREE in *; lia|lia|].
  pose proof (proj2 Hwc) as Hsc. rewrite HX in Hsc.
  exists X, kp, c'. split; [done|]. split; [by apply sorted_snoc in Hsc as [? _]|].
  split; [done|]. split; [done|]. split.
  { rewrite Hc', HX. pose proof (without_middle X kp [] Hsc) as Hwm.
    by rewrite app_nil_r in Hwm. }
  split; [done|].
  rewrite (remove_at_separator n _ (length ks1) e c d); cbn [keys children bottom]; try done.
  2:{ by apply list_lookup_middle. }
  2:{ rewrite <- Hl. by apply list_lookup_middle. }
  2:{ rewrite <- Hl. apply lookup_second. }
  destruct (Nat.leb_spec DEGREE (length (keys c))); [|lia].
  rewrite Hp. cbn [bind]. rewrite Hrem. cbn [bind]. cbv zeta.
  rewrite insert_middle. rewrite <- Hl, insert_middle. done.
Qed.

Lemma separator_successor_case h ks1 e ks2 cs1 c d cs2 n :
  wf (S h) (mkPage false (ks1 ++ e :: ks2) (cs1 ++ c :: d :: cs2)) ->
  length cs1 = length ks1 -> (2 * h + 1 <= n)%nat ->
  (length (keys c) < DEGREE)%nat -> (DEGREE <= length (keys d))%nat ->
  exists kn X d',
    contents d = kn :: X /\ Forall (fun x => key kn < key x) X /\
    Page.find_successor d = Ok kn /\
    Page.remove n d (key kn) = Ok (d', d') /\
    contents d' = X /\ shape h d' /\
    Page.remove (S n) (mkPage false (ks1 ++ e :: ks2) (cs1 ++ c :: d :: cs2)) (key e)
    = Ok (mkPage false (ks1 ++ kn :: ks2) (cs1 ++ c :: d' :: cs2),
          mkPage false (ks1 ++ kn :: ks2) (cs1 ++ c :: d' :: cs2)).
Proof.
  intros Hw Hl Hn Hc Hd. pose proof Hw as [Hsh Hs].
  pose proof (sorted_interleave_keys _ _ Hs) as Hks.
  destruct (wf_two h _ _ _ _ _ _ _ Hw Hl) as (Hwc & Hwd & Hminc & Hmind & Hl2 & Hs2).
  destruct (find_successor_first h d) as (X & kn & HX & Hp);
    [apply Hwd|by apply min_fill_nonempty|].
  destruct (remove_child h (remove_wf h) d (key kn) n Hwd) as (d' & Hrem & Hd' & Hshd & _);
    [unfold DEGREE in *; lia|lia|].
  pose proof (proj2 Hwd) as Hsd. rewrite HX in Hsd.
  exists kn, X, d'. split; [done|]. split; [by apply sorted_cons in Hsd as [? _]|].
  split; [done|]. split; [done|]. split.
  { rewrite Hd', HX. apply (without_middle [] kn X Hsd). }
  split; [done|].
  rewrite (remove_at_separator n _ (length ks1) e c d); cbn [keys children bottom]; try done.
  2:{ by apply list_lookup_middle. }
  2:{ rewrite <- Hl. by apply list_lookup_middle. }
  2:{ rewrite <- Hl. apply lookup_second. }
  destruct (Nat.leb_spec DEGREE (length (keys c))); [lia|].
  destruct (Nat.leb_spec DEGREE (length (keys d))); [|lia].
  rewrite Hp. cbn [bind]. rewrite Hrem. cbn [bind]. cbv zeta.
  rewrite insert_middle. rewrite <- Hl, insert_second. done.
Qed.

Lemma separator_merge_case h ks1 e ks2 cs1 c d cs2 n :
  wf (S h) (mkPage false (ks1 ++ e :: ks2) (cs1 ++ c :: d :: cs2)) ->
  length cs1 = length ks1 -> (2 * h + 1 <= n)%nat ->
  (length (keys c) < DEGREE)%nat -> (length (keys d) < DEGREE)%nat ->
  exists m',
    Page.remove n
      (mkPage (bottom c && bottom d) (keys c ++ [e] ++ keys d) (children c ++ children d))
      (key e) = Ok (m', m') /\
    contents m' = contents c ++ contents d /\ shape h m' /\
    Page.remove (S n) (mkPage false (ks1 ++ e :: ks2) (cs1 ++ c :: d :: cs2)) (key e)
    = Ok (mkPage false (ks1 ++ ks2) (cs1 ++ m' :: cs2),
          if (length (ks1 ++ ks2) =? 0)%nat then m'
          else mkPage false (ks1 ++ ks2) (cs1 ++ m' :: cs2)).
Proof.
  intros Hw Hl Hn Hc Hd. pose proof Hw as [Hsh Hs].
  pose proof (sorted_interleave_keys _ _ Hs) as Hks.
  destruct (wf_two h _ _ _ _ _ _ _ Hw Hl) as (Hwc & Hwd & Hminc & Hmind & Hl2 & Hs2).
  set (m := mkPage (bottom c && bottom d) (keys c ++ [e] ++ keys d)
              (children c ++ children d)).
  assert (Hcm : contents m = contents c ++ e :: contents d)
    by (apply (merged_contents h); [apply Hwc|apply Hwd]).
  assert (Hwm : wf h m).
  { split; [apply merged_shape; [apply Hwc|apply Hwd]|]. rewrite Hcm.
    apply sorted_app in Hs2 as (_ & _ & Hs2). rewrite app_comm_cons, app_assoc in Hs2.
    by apply sorted_app in Hs2 as (_ & Hs2 & _). }
  destruct (remove_child h (remove_wf h) m (key e) n Hwm) as (m' & Hrem & Hm' & Hshm & _).
  { unfold m. cbn [keys]. rewrite !length_app. simpl. unfold DEGREE in *. lia. }
  { lia. }
  exists m'. split; [done|]. split.
  { rewrite Hm', Hcm. apply without_middle. rewrite <- Hcm. apply Hwm. }
  split; [done|].
  rewrite (remove_at_separator n _ (length ks1) e c d); cbn [keys children bottom]; try done.
  2:{ by apply list_lookup_middle. }
  2:{ rewrite <- Hl. by apply list_lookup_middle. }
  2:{ rewrite <- Hl. apply lookup_second. }
  destruct (Nat.leb_spec DEGREE (length (keys c))); [lia|].
  destruct (Nat.leb_spec DEGREE (length (keys d))); [lia|].
  cbv zeta. fold m. rewrite Hrem. cbn [bind keys].
  rewrite delete_middle. rewrite <- Hl, delete_second, insert_middle.
  by destruct (length (ks1 ++ ks2) =? 0)%nat.
Qed.

(** C5.  A page of a well-formed tree that is not a leaf, with the entry [e]
    of the removed key between its children [c] and [d].  If [c] has
    [DEGREE] entries or more: [find_predecessor] returns the last entry
    below [c], the one with the greatest key there; it takes the place of
    [e] in the page and is removed from [c].  Else, if [d] has [DEGREE]
    entries or more: the same with the first entry below [d], the one with
    the least key there.  Else the page that [merge] makes of [c], [e] and
    [d] takes the place of [c] and [d], the key is removed from it, and it
    is the page that [remove] returns when the page has no entry left; the
    other cases return the page itself.  [BTree.remove] on a root with one
    entry over two children with fewer than [DEGREE] entries makes the merged
    page the root. *)
Theorem remove_separator_cases :
  (forall h ks1 e ks2 cs1 c d cs2 n,
     wf (S h) (mkPage false (ks1 ++ e :: ks2) (cs1 ++ c :: d :: cs2)) ->
     length cs1 = length ks1 -> (2 * h + 1 <= n)%nat ->
     ((DEGREE <= length (keys c))%nat ->
        exists X kp c',
          contents c = X ++ [kp] /\ Forall (fun x => key x < key kp) X /\
          Page.find_predecessor c = Ok kp /\
          Page.remove n c (key kp) = Ok (c', c') /\
          contents c' = X /\ shape h c' /\
          Page.remove (S n) (mkPage false (ks1 ++ e :: ks2) (cs1 ++ c :: d :: cs2)) (key e)
          = Ok (mkPage false (ks1 ++ kp :: ks2) (cs1 ++ c' :: d :: cs2),
                mkPage false (ks1 ++ kp :: ks2) (cs1 ++ c' :: d :: cs2))) /\
     ((length (keys c) < DEGREE)%nat -> (DEGREE <= length (keys d))%nat ->
        exists kn X d',
          contents d = kn :: X /\ Forall (fun x => key kn < key x) X /\
          Page.find_successor d = Ok kn /\
          Page.remove n d (key kn) = Ok (d', d') /\
          contents d' = X /\ shape h d' /\
          Page.remove (S n) (mkPage false (ks1 ++ e :: ks2) (cs1 ++ c :: d :: cs2)) (key e)
          = Ok (mkPage false (ks1 ++ kn :: ks2) (cs1 ++ c :: d' :: cs2),
                mkPage false (ks1 ++ kn :: ks2) (cs1 ++ c :: d' :: cs2))) /\
     ((length (keys c) < DEGREE)%nat -> (length (keys d) < DEGREE)%nat ->
        exists m',
          Page.remove n
            (mkPage (bottom c && bottom d) (keys c ++ [e] ++ keys d)
               (children c ++ children d)) (key e) = Ok (m', m') /\
          contents m' = contents c ++ contents d /\ shape h m' /\
          Page.remove (S n) (mkPage false (ks1 ++ e :: ks2) (cs1 ++ c :: d :: cs2)) (key e)
          = Ok (mkPage false (ks1 ++ ks2) (cs1 ++ m' :: cs2),
                if (length (ks1 ++ ks2) =? 0)%nat then m'
                else mkPage false (ks1 ++ ks2) (cs1 ++ m' :: cs2)))) /\
  (forall h e c d,
     wf (S h) (mkPage false [e] [c; d]) ->
     (length (keys c) < DEGREE)%nat -> (length (keys d) < DEGREE)%nat ->
     exists m',
       BTree.remove (mkBTree (mkPage false [e] [c; d])) (key e) = Ok (mkBTree m') /\
       contents m' = contents c ++ contents d /\ shape h m').
Proof.
  split.
  - intros h ks1 e ks2 cs1 c d cs2 n Hw Hl Hn. split; [|split].
    + by apply separator_predecessor_case.
    + by apply separator_successor_case.
    + by apply separator_merge_case.
  - intros h e c d Hw Hc Hd.
    destruct (separator_merge_case h [] e [] [] c d [] (2 * h + 2) Hw eq_refl)
      as (m' & _ & Hm' & Hsh & Hrem); [lia|done|done|].
    exists m'. split; [|done]. unfold BTree.remove. cbn [root].
    rewrite (shape_depth (S h)) by apply Hw.
    replace (2 * S h + 1)%nat with (S (2 * h + 2)) by lia.
    cbn [app] in Hrem. rewrite Hrem. done.
Qed.

Lemma remove_separator_cases_witness :
  (exists kp c',
     Page.find_predecessor (mkPage true (take 16 (entries_upto 32)) []) = Ok kp /\
     key kp = 16 /\
     Page.remove 2 (mkPage true (take 16 (entries_upto 32)) []) 16 = Ok (c', c') /\
     Page.remove 3
       (mkPage false (take 1 (drop 16 (entries_upto 32)))
          [mkPage true (take 16 (entries_upto 32)) [];
           mkPage true (drop 17 (entries_upto 32)) []]) 17
     = Ok (mkPage false [kp] [c'; mkPage true (drop 17 (entries_upto 32)) []],
           mkPage false [kp] [c'; mkPage true (drop 17 (entries_upto 32)) []])) /\
  (exists kn d',
     Page.find_successor (mkPage true (drop 16 (entries_upto 32)) []) = Ok kn /\
     key kn = 17 /\
     Page.remove 3
       (mkPage false (take 1 (drop 15 (entries_upto 32)))
          [mkPage true (take 15 (entries_upto 32)) [];
           mkPage true (drop 16 (entries_upto 32)) []]) 16
     = Ok (mkPage false [kn] [mkPage true (take 15 (entries_upto 32)) []; d'],
           mkPage false [kn] [mkPage true (take 15 (entries_upto 32)) []; d'])) /\
  (exists m', BTree.remove two_level 16 = Ok (mkBTree m') /\
     contents m' = take 15 (entries_upto 31) ++ drop 16 (entries_upto 31)).
Proof.
  split; [|split].
  - destruct (proj1 remove_separator_cases 0%nat [] (mkSmartKey 17 [17]) [] []
                (mkPage true (take 16 (entries_upto 32)) [])
                (mkPage true (drop 17 (entries_upto 32)) []) [] 2%nat)
      as (HA & _ & _); [wf_by_computation|reflexivity|lia|].
    destruct HA as (X & kp & c' & _ & _ & Hp & Hrc & _ & _ & Hrem); [vm_compute; lia|].
    exists kp, c'.
    assert (Hk : key kp = 16) by (vm_compute in Hp; by injection Hp as <-).
    split; [exact Hp|]. split; [exact Hk|]. rewrite Hk in Hrc.
    split; [exact Hrc|exact Hrem].
  - destruct (proj1 remove_separator_cases 0%nat [] (mkSmartKey 16 [16]) [] []
                (mkPage true (take 15 (entries_upto 32)) [])
                (mkPage true (drop 16 (entries_upto 32)) []) [] 2%nat)
      as (_ & HB & _); [wf_by_computation|reflexivity|lia|].
    destruct HB as (kn & X & d' & _ & _ & Hp & _ & _ & _ & Hrem);
      [vm_compute; lia|vm_compute; lia|].
    exists kn, d'.
    assert (Hk : key kn = 17) by (vm_compute in Hp; by injection Hp as <-).
    split; [exact Hp|]. split; [exact Hk|exact Hrem].
  - destruct (proj2 remove_separator_cases 0%nat (mkSmartKey 16 [16])
                (mkPage true (take 15 (entries_upto 31)) [])
                (mkPage true (drop 16 (entries_upto 31)) []))
      as (m' & Hrem & Hm' & _); [wf_by_computation|vm_compute; lia|vm_compute; lia|].
    exists m'. split; [exact Hrem|exact Hm'].
Defined.

(** * Further properties *)

(** ** Lookup, insertion and removal on well-formed trees *)

Lemma assoc_Some_elem k l vs :
  sorted l ->
  assoc k l = Some vs <-> exists e, e ∈ l /\ key e = k /\ value e = vs.
Proof.
  intros Hs. split.
  - clear Hs. induction l as [|e l IH]; simpl; [done|].
    destruct (Z.eqb_spec (key e) k) as [Hk|Hk].
    + intros [= <-]. exists e. split; [left|done].
    + intros H. destruct (IH H) as (e' & He' & Hk' & Hv). exists e'. split; [by right|done].
  - intros (e & He & <- & <-). apply list_elem_of_split in He as (l1 & l2 & ->).
    by apply assoc_middle.
Qed.

(** X1.  [find] on a well-formed page of any height returns, and what it
    returns is the values of the one entry of the tree with the key, or
    absence when no entry of the tree has the key. *)
Theorem find_returns_entry_values h p k :
  wf h p ->
  Page.find p k = Ok (assoc k (contents p)) /\
  (forall vs, Page.find p k = Ok (Some vs) <->
              exists e, e ∈ contents p /\ key e = k /\ value e = vs) /\
  (Page.find p k = Ok None <-> Forall (fun e => key e <> k) (contents p)).
Proof.
  intros Hw. pose proof (find_assoc h p k Hw) as Hf. split; [done|]. rewrite Hf. split.
  - intros vs. rewrite <- (assoc_Some_elem k (contents p) vs) by apply Hw.
    split; [by intros [= ->]|by intros ->].
  - split.
    + intros [= Hn]. by apply assoc_None_inv.
    + intros Hn. by rewrite assoc_None.
Qed.

Lemma find_returns_entry_values_witness :
  Page.find (root two_level) 16 = Ok (assoc 16 (contents (root two_level))).
Proof.
  destruct (find_returns_entry_values 1 (root two_level) 16) as [H _];
    [wf_by_computation|exact H].
Defined.

(** [BTree.remove] with the height of the tree it leaves. *)
Lemma remove_ok_height h t k :
  wf h (root t) ->
  exists t' h', BTree.remove t k = Ok t' /\ wf h' (root t') /\
    (h' = h \/ h = S h') /\
    contents (root t') = without k (contents (root t)).
Proof.
  intros Hw. unfold BTree.remove.
  destruct (remove_wf h (root t) k (2 * depth (root t) + 1) Hw) as ([p' r] & Hrem & Hc & Hcase).
  { rewrite (shape_depth h) by apply Hw. lia. }
  rewrite Hrem. cbn [bind snd fst] in *.
  assert (Hs : sorted (contents r)).
  { rewrite Hc. apply sorted_without, Hw. }
  destruct Hcase as [(-> & Hsh & _)|(h' & -> & _ & Hsh)].
  - exists (mkBTree p'), h. split; [done|]. split; [done|]. split; [by left|done].
  - exists (mkBTree r), h'. split; [done|]. split; [done|]. split; [by right|done].
Qed.

(** X2.  [BTree.remove] on a well-formed tree returns a well-formed tree, of
    the same height or one level lower, which holds the entries of the tree
    but the one of the key (at most one entry less); every lookup of another
    key returns what it returned before. *)
Theorem remove_keeps_other_keys h t k :
  wf h (root t) ->
  exists t' h', BTree.remove t k = Ok t' /\ wf h' (root t') /\
    (h' = h \/ h = S h') /\
    contents (root t') = without k (contents (root t)) /\
    (length (contents (root t)) <= S (length (contents (root t'))))%nat /\
    forall k', k' <> k -> BTree.find_key t' k' = BTree.find_key t k'.
Proof.
  intros Hw. destruct (remove_ok_height h t k Hw) as (t' & h' & Hrem & Hw' & Hh & Hc).
  exists t', h'. do 4 (split; [done|]). split.
  - rewrite Hc. apply length_without_sorted, Hw.
  - intros k' Hne. unfold BTree.find_key.
    rewrite (find_assoc h'), (find_assoc h) by done.
    by rewrite Hc, assoc_without_ne.
Qed.

Lemma remove_keeps_other_keys_witness :
  exists t' h', BTree.remove two_level 16 = Ok t' /\ wf h' (root t') /\
    (h' = 1%nat \/ 1%nat = S h') /\
    contents (root t') = without 16 (contents (root two_level)) /\
    (length (contents (root two_level)) <= S (length (contents (root t'))))%nat /\
    forall k', k' <> 16 -> BTree.find_key t' k' = BTree.find_key two_level k'.
Proof.
  apply (remove_keeps_other_keys 1 two_level 16).
  wf_by_computation.
Defined.

(** X3.  [BTree.add_key_value] that returns on a well-formed tree leaves a
    well-formed tree, in which the key holds the values it held, then the
    new value; every lookup of another key returns what it returned
    before. *)
Theorem add_key_value_appends_value h t k v t' :
  wf h (root t) -> BTree.add_key_value t k v = Ok t' ->
  (exists h', wf h' (root t')) /\
  (exists old, BTree.find_key t k = Ok old /\
               BTree.find_key t' k = Ok (Some (default [] old ++ [v]))) /\
  forall k', k' <> k -> BTree.find_key t' k' = BTree.find_key t k'.
Proof.
  intros Hw Hadd. destruct (add_ok h t k v t' Hw Hadd) as [[h' Hw'] Hassoc].
  split; [eauto|]. unfold BTree.find_key. split.
  - exists (assoc k (contents (root t))). split; [by apply (find_assoc h)|].
    rewrite (find_assoc h') by done. by rewrite Hassoc, decide_True.
  - intros k' Hne. rewrite (find_assoc h'), (find_assoc h) by done.
    by rewrite Hassoc, decide_False.
Qed.

Lemma add_key_value_appends_value_witness :
  exists t', BTree.add_key_value two_level 16 7 = Ok t' /\
    BTree.find_key t' 16 = Ok (Some [16; 7]).
Proof.
  eexists. split; [vm_compute; reflexivity|].
  destruct (add_key_value_appends_value 1 two_level 16 7 _
              ltac:(wf_by_computation) ltac:(vm_compute; reflexivity))
    as (_ & (old & Hold & Hnew) & _).
  vm_compute in Hold. injection Hold as <-. exact Hnew.
Defined.

(** X4.  A run of insertions and removals that return, from a well-formed
    tree: the tree it leaves is well-formed, with its leaves at the depth
    of its first leaf. *)
Theorem run_keeps_well_formed h t0 ops t :
  wf h (root t0) -> run t0 ops = Ok t ->
  exists h', wf h' (root t) /\ depth (root t) = h'.
Proof.
  revert h t0. induction ops as [|o ops IH]; intros h t0 Hw Hrun.
  - injection Hrun as <-. exists h. split; [done|]. apply shape_depth, Hw.
  - cbn [run] in Hrun. apply bind_Ok in Hrun as (t1 & Hstep & Hrun).
    destruct o as [k v|k]; cbn [step] in Hstep.
    + destruct (add_ok h t0 k v t1 Hw Hstep) as [[h1 Hw1] _]. by apply (IH h1 t1).
    + destruct (remove_ok h t0 k Hw) as (t1' & h1 & Hrem & Hw1 & _).
      rewrite Hrem in Hstep. injection Hstep as ->. by apply (IH h1 t1).
Qed.

Lemma run_keeps_well_formed_witness :
  exists t h', run BTree.__init__ (inserts_upto 31 ++ [Remove 40; Insert 16 0]) = Ok t /\
    wf h' (root t) /\ depth (root t) = h'.
Proof.
  assert (Hrun : exists t,
            run BTree.__init__ (inserts_upto 31 ++ [Remove 40; Insert 16 0]) = Ok t)
    by (eexists; vm_compute; reflexivity).
  destruct Hrun as [t Hrun].
  destruct (run_keeps_well_formed 0 BTree.__init__ _ t ltac:(wf_by_computation) Hrun)
    as (h' & Hw & Hd).
  exists t, h'. split; [exact Hrun|]. split; [exact Hw|exact Hd].
Defined.

Lemma without_comm k1 k2 l : without k1 (without k2 l) = without k2 (without k1 l).
Proof.
  induction l as [|e l IH]; [done|].
  destruct (decide (key e = k1)) as [H1|H1], (decide (key e = k2)) as [H2|H2];
    repeat first [rewrite (without_cons_eq k1) by done | rewrite (without_cons_eq k2) by done
                 | rewrite (without_cons_ne k1) by done | rewrite (without_cons_ne k2) by done];
    by rewrite ?IH.
Qed.

(** X5.  Two removals on a well-formed tree return in either order, and the
    two trees hold the same entries (their pages may differ); a removal
    done twice leaves the entries of the removal done once. *)
Theorem removes_commute h t k1 k2 :
  wf h (root t) ->
  (exists ta tb,
     run t [Remove k1; Remove k2] = Ok ta /\ run t [Remove k2; Remove k1] = Ok tb /\
     contents (root ta) = contents (root tb) /\
     forall k, BTree.find_key ta k = BTree.find_key tb k) /\
  (exists t1 t2,
     run t [Remove k1] = Ok t1 /\ run t [Remove k1; Remove k1] = Ok t2 /\
     contents (root t2) = contents (root t1)).
Proof.
  intros Hw.
  destruct (remove_ok h t k1 Hw) as (t1 & h1 & Hr1 & Hw1 & Hc1).
  destruct (remove_ok h t k2 Hw) as (t2 & h2 & Hr2 & Hw2 & Hc2).
  destruct (remove_ok h1 t1 k2 Hw1) as (t12 & h12 & Hr12 & Hw12 & Hc12).
  destruct (remove_ok h2 t2 k1 Hw2) as (t21 & h21 & Hr21 & Hw21 & Hc21).
  destruct (remove_ok h1 t1 k1 Hw1) as (t11 & h11 & Hr11 & Hw11 & Hc11).
  assert (Hc : contents (root t12) = contents (root t21)).
  { by rewrite Hc12, Hc21, Hc1, Hc2, without_comm. }
  split.
  - exists t12, t21. cbn [run step]. rewrite Hr1, Hr2. cbn [bind]. rewrite Hr12, Hr21.
    do 3 (split; [done|]). intros k. unfold BTree.find_key.
    rewrite (find_assoc h12), (find_assoc h21) by done. by rewrite Hc.
  - exists t1, t11. cbn [run step]. rewrite Hr1. cbn [bind]. rewrite Hr11.
    do 2 (split; [done|]). by rewrite Hc11, Hc1, without_without.
Qed.

Lemma removes_commute_witness :
  exists ta tb,
    run two_level [Remove 16; Remove 3] = Ok ta /\
    run two_level [Remove 3; Remove 16] = Ok tb /\
    contents (root ta) = contents (root tb) /\
    forall k, BTree.find_key ta k = BTree.find_key tb k.
Proof.
  destruct (removes_commute 1 two_level 16 3) as [H _]; [wf_by_computation|exact H].
Defined.

(** X6.  An insertion that returns, then the removal of its key, on a
    well-formed tree: the removal returns, the key is absent, and every
    other lookup returns what it returned before the insertion. *)
Theorem add_then_remove h t k v t1 :
  wf h (root t) -> BTree.add_key_value t k v = Ok t1 ->
  exists t2, BTree.remove t1 k = Ok t2 /\
    BTree.find_key t2 k = Ok None /\
    forall k', k' <> k -> BTree.find_key t2 k' = BTree.find_key t k'.
Proof.
  intros Hw Hadd. destruct (add_ok h t k v t1 Hw Hadd) as [[h1 Hw1] Hassoc].
  destruct (remove_ok h1 t1 k Hw1) as (t2 & h2 & Hrem & Hw2 & Hc).
  exists t2. split; [done|]. unfold BTree.find_key. split.
  - rewrite (find_assoc h2) by done. by rewrite Hc, assoc_without_eq.
  - intros k' Hne. rewrite (find_assoc h2), (find_assoc h) by done.
    by rewrite Hc, assoc_without_ne, Hassoc, decide_False.
Qed.

Lemma add_then_remove_witness :
  exists t1 t2, BTree.add_key_value two_level 16 7 = Ok t1 /\
    BTree.remove t1 16 = Ok t2 /\
    BTree.find_key t2 16 = Ok None /\
    forall k', k' <> 16 -> BTree.find_key t2 k' = BTree.find_key two_level k'.
Proof.
  assert (Hadd : exists t1, BTree.add_key_value two_level 16 7 = Ok t1)
    by (eexists; vm_compute; reflexivity).
  destruct Hadd as [t1 Hadd]. exists t1.
  destruct (add_then_remove 1 two_level 16 7 t1 ltac:(wf_by_computation) Hadd)
    as (t2 & H). exists t2. split; [exact Hadd|exact H].
Defined.

(** ** The tree against the index on a [dict] *)

Lemma naive_find_lookup (n : gmap Z (list Z)) k : NaiveTreeIndex.find n k = n !! k.
Proof. unfold NaiveTreeIndex.find. by destruct (n !! k). Qed.

Lemma naive_add_lookup (n : gmap Z (list Z)) k v k' :
  NaiveTreeIndex.add_key_value n k v !! k'
  = if decide (k' = k) then Some (default [] (n !! k) ++ [v]) else n !! k'.
Proof.
  unfold NaiveTreeIndex.add_key_value.
  destruct (decide (k' = k)) as [->|Hne].
  - destruct (n !! k); by rewrite lookup_insert_eq.
  - destruct (n !! k); by rewrite lookup_insert_ne.
Qed.

Lemma naive_remove_lookup (n : gmap Z (list Z)) k k' :
  NaiveTreeIndex.remove n k !! k' = if decide (k' = k) then None else n !! k'.
Proof.
  unfold NaiveTreeIndex.remove.
  destruct (decide (k' = k)) as [->|Hne].
  - destruct (n !! k) eqn:E; [by rewrite lookup_delete_eq|done].
  - destruct (n !! k); [by rewrite lookup_delete_ne|done].
Qed.

Lemma run_agrees h t0 n0 ops t :
  wf h (root t0) -> (forall k, assoc k (contents (root t0)) = n0 !! k) ->
  run t0 ops = Ok t ->
  forall k, BTree.find_key t k = Ok (NaiveTreeIndex.find (naive_run n0 ops) k).
Proof.
  revert h t0 n0. induction ops as [|o ops IH]; intros h t0 n0 Hw Hn Hrun k.
  - injection Hrun as <-. unfold BTree.find_key. rewrite (find_assoc h) by done.
    by rewrite naive_find_lookup, Hn.
  - cbn [run] in Hrun. apply bind_Ok in Hrun as (t1 & Hstep & Hrun).
    unfold naive_run. cbn [foldl]. fold (naive_run (naive_step n0 o) ops).
    destruct o as [k0 v|k0]; cbn [step naive_step] in *.
    + destruct (add_ok h t0 k0 v t1 Hw Hstep) as [[h1 Hw1] Hassoc].
      apply (IH h1 t1); [done| |done].
      intros k'. by rewrite Hassoc, naive_add_lookup, !Hn.
    + destruct (remove_ok h t0 k0 Hw) as (t1' & h1 & Hrem & Hw1 & Hc).
      rewrite Hrem in Hstep. injection Hstep as ->.
      apply (IH h1 t1); [done| |done].
      intros k'. rewrite Hc, naive_remove_lookup.
      destruct (decide (k' = k0)) as [->|Hne].
      * apply assoc_without_eq.
      * by rewrite assoc_without_ne, Hn.
Qed.

(** X7.  The comparison that the test run makes.  After the same insertions
    and removals on an empty [BTree] and on an empty [NaiveTreeIndex], all
    calls on the tree returning, every lookup in the tree returns what the
    lookup in the [dict] returns. *)
Theorem btree_agrees_with_naive ops t :
  run BTree.__init__ ops = Ok t ->
  forall k, BTree.find_key t k
            = Ok (NaiveTreeIndex.find (naive_run NaiveTreeIndex.__init__ ops) k).
Proof.
  intros Hrun. apply (run_agrees 0 BTree.__init__); [apply init_wf| |done].
  intros k. unfold NaiveTreeIndex.__init__. by rewrite lookup_empty.
Qed.

Lemma btree_agrees_with_naive_witness :
  exists t, run BTree.__init__ (scenario ++ [Remove 8]) = Ok t /\
    forall k, BTree.find_key t k
              = Ok (NaiveTreeIndex.find
                      (naive_run NaiveTreeIndex.__init__ (scenario ++ [Remove 8])) k).
Proof.
  eexists. split; [vm_compute; reflexivity|].
  apply (btree_agrees_with_naive (scenario ++ [Remove 8])).
  vm_compute. reflexivity.
Defined.

(** ** The index on a list of pairs *)

Lemma find_loop_spec self rest q :
  NaiveListIndex.find_loop self rest q
  = if decide (q ∈ map fst rest) then let* e := py_getZ self q in Ok (Some e)
    else Ok None.
Proof.
  induction rest as [|[k vs] rest IH]; cbn [NaiveListIndex.find_loop map fst].
  - rewrite decide_False; [done|]. apply not_elem_of_nil.
  - destruct (Z.eqb_spec k q) as [->|Hne].
    + rewrite decide_True; [done|]. by left.
    + rewrite IH. destruct (decide (q ∈ map fst rest)) as [Hin|Hin].
      * rewrite decide_True; [done|]. by right.
      * rewrite decide_False; [done|].
        intros [Hx|Hx]%elem_of_cons; [by apply Hne|done].
Qed.

(** X8.  [NaiveListIndex.find_key] returns absence for a key that no pair
    has.  For a key [q] that some pair has, it reads the list at the index
    [q]: it returns the pair at that position (from the end when [q] is
    negative), whatever the key of that pair, and raises [IndexError] when
    [q] is no index of the list. *)
Theorem list_find_key_reads_at_key l q :
  (q ∉ map fst l -> NaiveListIndex.find_key l q = Ok None) /\
  (q ∈ map fst l ->
     (forall e, 0 <= q -> l !! Z.to_nat q = Some e ->
                NaiveListIndex.find_key l q = Ok (Some e)) /\
     (forall e, q < 0 -> l !! Z.to_nat (Z.of_nat (length l) + q) = Some e ->
                0 <= Z.of_nat (length l) + q ->
                NaiveListIndex.find_key l q = Ok (Some e)) /\
     (Z.of_nat (length l) <= q \/ q < - Z.of_nat (length l) ->
        NaiveListIndex.find_key l q = Raise IndexError)).
Proof.
  unfold NaiveListIndex.find_key. rewrite find_loop_spec. split.
  - intros Hq. by rewrite decide_False.
  - intros Hq. rewrite decide_True by done. unfold py_getZ, py_index. repeat split.
    + intros e H0 He. pose proof (lookup_lt_Some _ _ _ He) as Hlt.
      destruct (Z.leb_spec 0 q); [|lia].
      destruct (Z.ltb_spec q (Z.of_nat (length l))); [|lia].
      cbn [andb bind]. by rewrite (py_get_Some _ _ _ He).
    + intros e H0 He Hge.
      destruct (Z.leb_spec 0 q); [lia|]. cbn [andb].
      destruct (Z.ltb_spec q 0); [|lia].
      destruct (Z.leb_spec 0 (Z.of_nat (length l) + q)); [|lia].
      cbn [andb bind]. by rewrite (py_get_Some _ _ _ He).
    + intros [Hge|Hlt].
      * destruct (Z.leb_spec 0 q); [|lia].
        destruct (Z.ltb_spec q (Z.of_nat (length l))); [lia|].
        cbn [andb]. destruct (Z.ltb_spec q 0); [lia|]. done.
      * destruct (Z.leb_spec 0 q); [lia|]. cbn [andb].
        destruct (Z.ltb_spec q 0); [|lia].
        destruct (Z.leb_spec 0 (Z.of_nat (length l) + q)); [lia|]. done.
Qed.

Lemma list_find_key_reads_at_key_witness :
  NaiveListIndex.find_key (list_run NaiveListIndex.__init__ [(5, 1)]) 5 = Raise IndexError /\
  NaiveListIndex.find_key (list_run NaiveListIndex.__init__ [(1, 10); (0, 20)]) 1
  = Ok (Some (0, [20])).
Proof.
  split.
  - destruct (proj2 (list_find_key_reads_at_key [(5, [1])] 5)) as (_ & _ & H).
    + vm_compute. by left.
    + apply H. left. simpl. lia.
  - destruct (proj2 (list_find_key_reads_at_key [(1, [10]); (0, [20])] 1)) as (H & _ & _).
    + vm_compute. by left.
    + apply (H (0, [20])); [lia|reflexivity].
Defined.

Lemma list_add_to_map l q v :
  (list_to_map (NaiveListIndex.add_key_value l q v) : gmap Z (list Z))
  = NaiveTreeIndex.add_key_value (list_to_map l) q v.
Proof.
  induction l as [|[k vs] l IH]; cbn [NaiveListIndex.add_key_value].
  - unfold NaiveTreeIndex.add_key_value. cbn [list_to_map foldr curry fst snd].
    by rewrite lookup_empty.
  - destruct (Z.eqb_spec k q) as [->|Hne].
    + rewrite !list_to_map_cons. unfold NaiveTreeIndex.add_key_value.
      by rewrite lookup_insert_eq, insert_insert_eq.
    + rewrite !list_to_map_cons, IH. unfold NaiveTreeIndex.add_key_value.
      rewrite lookup_insert_ne by done.
      destruct (list_to_map l !! q); by rewrite insert_insert_ne.
Qed.

Lemma list_add_keys l q v :
  map fst (NaiveListIndex.add_key_value l q v)
  = if decide (q ∈ map fst l) then map fst l else map fst l ++ [q].
Proof.
  induction l as [|[k vs] l IH]; cbn [NaiveListIndex.add_key_value map fst].
  - rewrite decide_False; [done|]. apply not_elem_of_nil.
  - destruct (Z.eqb_spec k q) as [->|Hne].
    + rewrite decide_True; [done|]. by left.
    + cbn [map fst]. rewrite IH. destruct (decide (q ∈ map fst l)) as [Hin|Hin].
      * rewrite decide_True; [done|]. by right.
      * rewrite decide_False; [done|].
        intros [Hx|Hx]%elem_of_cons; [by apply Hne|done].
Qed.

Lemma list_run_inv l0 kvs :
  NoDup (map fst l0) ->
  NoDup (map fst (list_run l0 kvs)) /\
  (list_to_map (list_run l0 kvs) : gmap Z (list Z))
  = naive_run (list_to_map l0) (inserts_of kvs).
Proof.
  revert l0. induction kvs as [|[k v] kvs IH]; intros l0 Hnd; [done|].
  unfold list_run, naive_run. cbn [foldl inserts_of map naive_step fst snd].
  fold (list_run (NaiveListIndex.add_key_value l0 k v) kvs).
  rewrite <- list_add_to_map.
  apply IH. rewrite list_add_keys. destruct (decide (k ∈ map fst l0)); [done|].
  apply NoDup_app. split; [done|]. split.
  - intros x Hx Hx'. apply list_elem_of_singleton in Hx'. by subst.
  - apply NoDup_singleton.
Qed.

(** X9.  After the same insertions into an empty [NaiveListIndex] and an
    empty [NaiveTreeIndex]: the list holds one pair for each key, and a pair
    is in the list exactly when the [dict] maps its key to its values. *)
Theorem list_index_agrees_with_naive kvs :
  NoDup (map fst (list_run NaiveListIndex.__init__ kvs)) /\
  forall k vs,
    (k, vs) ∈ list_run NaiveListIndex.__init__ kvs <->
    NaiveTreeIndex.find (naive_run NaiveTreeIndex.__init__ (inserts_of kvs)) k = Some vs.
Proof.
  destruct (list_run_inv NaiveListIndex.__init__ kvs) as [Hnd Hmap]; [apply NoDup_nil_2|].
  split; [done|]. intros k vs. rewrite naive_find_lookup.
  change NaiveTreeIndex.__init__ with (list_to_map [] : gmap Z (list Z)).
  unfold NaiveListIndex.__init__ in *.
  rewrite <- Hmap. by apply elem_of_list_to_map.
Qed.

(** ** The greatest and the least entry below a page *)

(** X10.  On a well-formed page with an entry, [find_successor] returns the
    first and [find_predecessor] the last of the entries in order: the entry
    with the least key and the one with the greatest key below the page.  On
    a leaf without entries both raise [IndexError]. *)
Theorem predecessor_successor_extremes :
  (forall h p, wf h p -> keys p <> [] ->
     exists lo hi,
       Page.find_successor p = Ok lo /\ Page.find_predecessor p = Ok hi /\
       head (contents p) = Some lo /\ last (contents p) = Some hi /\
       Forall (fun e => key lo <= key e <= key hi) (contents p)) /\
  (forall cs, Page.find_successor (mkPage true [] cs) = Raise IndexError /\
              Page.find_predecessor (mkPage true [] cs) = Raise IndexError).
Proof.
  split; [|done]. intros h p [Hsh Hs] Hne.
  destruct (find_successor_first h p Hsh Hne) as (X & lo & Hlo & Hsucc).
  destruct (find_predecessor_last h p Hsh Hne) as (Y & hi & Hhi & Hpred).
  exists lo, hi. split; [done|]. split; [done|].
  split; [by rewrite Hlo|]. split; [by rewrite Hhi, last_snoc|].
  apply Forall_forall. intros e He. split.
  - rewrite Hlo in Hs, He. apply sorted_cons in Hs as [Hall _].
    apply elem_of_cons in He as [->|He]; [lia|].
    rewrite Forall_forall in Hall. specialize (Hall e He). lia.
  - rewrite Hhi in Hs, He. apply sorted_snoc in Hs as [Hall _].
    apply elem_of_app in He as [He|He].
    + rewrite Forall_forall in Hall. specialize (Hall e He). lia.
    + apply list_elem_of_singleton in He as ->. lia.
Qed.

Lemma predecessor_successor_extremes_witness :
  exists lo hi,
    Page.find_successor (root two_level) = Ok lo /\
    Page.find_predecessor (root two_level) = Ok hi /\
    head (contents (root two_level)) = Some lo /\
    last (contents (root two_level)) = Some hi /\
    Forall (fun e => key lo <= key e <= key hi) (contents (root two_level)).
Proof.
  apply (proj1 predecessor_successor_extremes 1%nat (root two_level)).
  - wf_by_computation.
  - vm_compute. discriminate.
Defined.

(** ** Merging, borrowing and splitting keep the entries *)

(** X11.  [merge] of the children [c] and [d] around the entry [sep] of a
    page: the entry and the child [d] leave the page, the new page takes the
    place of [c]; it holds the entries of [c], then [sep], then those of [d],
    and the entries below the page are the same, in the same order.  An index
    that is no position of an entry raises [IndexError]. *)
Theorem merge_joins_two_children :
  (forall h ks1 sep ks2 cs1 c d cs2,
     length cs1 = length ks1 -> shape h c -> shape h d ->
     exists self' m,
       Page.merge (mkPage false (ks1 ++ sep :: ks2) (cs1 ++ c :: d :: cs2)) (length ks1) c d
       = Ok (self', m) /\
       keys self' = ks1 ++ ks2 /\ children self' = cs1 ++ m :: cs2 /\
       shape h m /\
       length (keys m) = (length (keys c) + 1 + length (keys d))%nat /\
       contents m = contents c ++ sep :: contents d /\
       contents self'
       = contents (mkPage false (ks1 ++ sep :: ks2) (cs1 ++ c :: d :: cs2))) /\
  (forall self ind l r,
     (length (keys self) <= ind)%nat -> Page.merge self ind l r = Raise IndexError).
Proof.
  split.
  - intros h ks1 sep ks2 cs1 c d cs2 Hl Hc Hd.
    rewrite merge_middle by done. do 2 eexists. split; [done|].
    cbn [keys children]. do 2 (split; [done|]).
    split; [by apply merged_shape|].
    split; [rewrite !length_app; simpl; lia|].
    pose proof (merged_contents h c sep d Hc Hd) as Hm. split; [done|].
    rewrite contents_at_child, contents_at_sep by done. by rewrite Hm, <- app_assoc.
  - intros self ind l r Hind. unfold Page.merge, py_get.
    by rewrite lookup_ge_None_2.
Qed.

Lemma merge_joins_two_children_witness :
  exists self' m,
    Page.merge (root two_level) 0
      (mkPage true (take 15 (entries_upto 31)) [])
      (mkPage true (drop 16 (entries_upto 31)) []) = Ok (self', m) /\
    keys self' = [] /\ children self' = [m] /\ shape 0 m /\
    length (keys m) = 31%nat.
Proof.
  destruct (proj1 merge_joins_two_children 0%nat [] (mkSmartKey 16 [16]) [] []
              (mkPage true (take 15 (entries_upto 31)) [])
              (mkPage true (drop 16 (entries_upto 31)) []) [])
    as (self' & m & Hm & Hk & Hc & Hsh & Hlen & _); [reflexivity|done|done|].
  exists self', m. split; [exact Hm|]. split; [exact Hk|]. split; [exact Hc|].
  split; [exact Hsh|]. exact Hlen.
Defined.

(** X12.  [borrow_from_right], when the right sibling [d] of the child [c]
    holds more than [DEGREE - 1] entries: the entry between them goes to the
    end of [c], the first entry of [d] takes its place in the page (with the
    first child of [d] going to [c] below the leaves); [c] has one entry
    more and [d] one less, both keep their height, and the entries below the
    page are the same, in the same order. *)
Theorem borrow_from_right_keeps_entries h ks1 sep ks2 cs1 c d cs2 :
  length cs1 = length ks1 -> shape h c -> shape h d ->
  (DEGREE - 1 < length (keys d))%nat ->
  exists c' d' rk,
    Page.borrow_from_right (mkPage false (ks1 ++ sep :: ks2) (cs1 ++ c :: d :: cs2))
      (length ks1)
    = Ok (mkPage false (ks1 ++ rk :: ks2) (cs1 ++ c' :: d' :: cs2)) /\
    shape h c' /\ shape h d' /\
    length (keys c') = S (length (keys c)) /\
    S (length (keys d')) = length (keys d) /\
    head (keys d) = Some rk /\
    contents (mkPage false (ks1 ++ rk :: ks2) (cs1 ++ c' :: d' :: cs2))
    = contents (mkPage false (ks1 ++ sep :: ks2) (cs1 ++ c :: d :: cs2)).
Proof.
  intros Hl Hc Hd Hsur.
  destruct (borrow_from_right_wf h ks1 sep ks2 cs1 c d cs2 Hl Hc Hd Hsur)
    as (c' & d' & rk & Hb & Hc' & Hd' & Hlc & Hld & Hrk & Hcont).
  exists c', d', rk. do 5 (split; [done|]). split.
  - unfold Page.borrow_from_right in Hb. cbn [keys children bottom] in Hb.
    rewrite <- Hl in Hb. rewrite py_get_second, py_get_middle in Hb. cbn [bind] in Hb.
    rewrite Hl, py_get_middle in Hb. cbn [bind] in Hb.
    destruct (keys d) as [|rk' kd]; [simpl in Hsur; unfold DEGREE in Hsur; lia|].
    cbn [py_get lookup list_lookup bind] in Hb. rewrite py_set_middle in Hb.
    cbn [bind] in Hb.
    assert (Hks : ks1 ++ rk' :: ks2 = ks1 ++ rk :: ks2).
    { destruct (py_pop (rk' :: kd) 0); [|done|done]. cbn [bind] in Hb.
      destruct (negb _); [|by injection Hb].
      destruct (py_get _ 0); [|done|done]. cbn [bind] in Hb.
      destruct (py_pop _ 0); [|done|done]. cbn [bind] in Hb. by injection Hb. }
    apply app_inv_head in Hks. by injection Hks as ->.
  - rewrite !contents_at_sep by done. f_equal.
    rewrite !app_comm_cons, !app_assoc. by rewrite Hcont.
Qed.

Lemma borrow_from_right_keeps_entries_witness :
  exists c' d' rk,
    Page.borrow_from_right
      (mkPage false (take 1 (drop 15 (entries_upto 32)))
         [mkPage true (take 15 (entries_upto 32)) [];
          mkPage true (drop 16 (entries_upto 32)) []]) 0
    = Ok (mkPage false [rk] [c'; d']) /\
    length (keys c') = 16%nat /\ length (keys d') = 15%nat /\ key rk = 17.
Proof.
  destruct (borrow_from_right_keeps_entries 0 [] (mkSmartKey 16 [16]) [] []
              (mkPage true (take 15 (entries_upto 32)) [])
              (mkPage true (drop 16 (entries_upto 32)) []) [])
    as (c' & d' & rk & Hb & _ & _ & Hc & Hd & Hrk & _).
  - reflexivity.
  - done.
  - done.
  - vm_compute. lia.
  - exists c', d', rk. split; [exact Hb|]. split; [exact Hc|].
    split.
    { cbn [keys] in Hd. change (length (drop 16 (entries_upto 32))) with 16%nat in Hd. lia. }
    vm_compute in Hrk. by injection Hrk as <-.
Defined.

(** X13.  [borrow_from_left], when the left sibling [l] of the child [c]
    holds more than [DEGREE - 1] entries: the entry between them goes to the
    front of [c], the last entry of [l] takes its place in the page (with the
    last child of [l] going to [c] below the leaves); [c] has one entry more
    and [l] one less, both keep their height, and the entries below the page
    are the same, in the same order. *)
Theorem borrow_from_left_keeps_entries h ks1 sep ks2 cs1 l c cs2 :
  length cs1 = length ks1 -> shape h l -> shape h c ->
  (DEGREE - 1 < length (keys l))%nat ->
  exists l' c' lk,
    Page.borrow_from_left (mkPage false (ks1 ++ sep :: ks2) (cs1 ++ l :: c :: cs2))
      (length ks1) (length ks1 + 1)
    = Ok (mkPage false (ks1 ++ lk :: ks2) (cs1 ++ l' :: c' :: cs2)) /\
    shape h l' /\ shape h c' /\
    length (keys c') = S (length (keys c)) /\
    S (length (keys l')) = length (keys l) /\
    last (keys l) = Some lk /\
    contents (mkPage false (ks1 ++ lk :: ks2) (cs1 ++ l' :: c' :: cs2))
    = contents (mkPage false (ks1 ++ sep :: ks2) (cs1 ++ l :: c :: cs2)).
Proof.
  intros Hl Hsl Hsc Hsur.
  destruct (borrow_from_left_wf h ks1 sep ks2 cs1 l c cs2 Hl Hsl Hsc Hsur)
    as (l' & c' & lk & Hb & Hl' & Hc' & Hlc & Hll & Hlk & Hcont).
  exists l', c', lk. do 5 (split; [done|]). split.
  - clear Hlk Hcont Hll Hsl Hl'.
    unfold Page.borrow_from_left in Hb. cbn [keys children bottom] in Hb.
    replace (Z.of_nat (length ks1 + 1) - 1) with (Z.of_nat (length cs1)) in Hb by lia.
    rewrite py_index_nat in Hb by (rewrite length_app; simpl; lia). cbn [bind] in Hb.
    rewrite <- Hl in Hb. rewrite py_get_second in Hb. cbn [bind] in Hb.
    rewrite Hl, py_get_middle in Hb. cbn [bind] in Hb. rewrite <- Hl in Hb.
    rewrite py_insert_0 in Hb. rewrite insert_second, py_get_middle in Hb.
    cbn [bind] in Hb.
    destruct l as [bl kl cl]. cbn [keys children bottom] in *.
    destruct kl as [|lk' lks _] using rev_ind; [simpl in Hsur; unfold DEGREE in Hsur; lia|].
    rewrite py_getZ_last in Hb. cbn [bind] in Hb.
    rewrite Hl, py_set_middle in Hb. cbn [bind] in Hb.
    rewrite last_snoc. f_equal.
    assert (Hks : ks1 ++ lk' :: ks2 = ks1 ++ lk :: ks2).
    { repeat match type of Hb with
             | bind ?m _ = _ => destruct m; [cbn [bind] in Hb|done|done]
             | (if ?b then _ else _) = _ => destruct b
             | (match ?x with _ => _ end) = _ => destruct x
             end; by injection Hb. }
    apply app_inv_head in Hks. by injection Hks.
  - rewrite !contents_at_sep by done. f_equal.
    rewrite !app_comm_cons, !app_assoc. by rewrite Hcont.
Qed.

Lemma borrow_from_left_keeps_entries_witness :
  exists l' c' lk,
    Page.borrow_from_left
      (mkPage false (take 1 (drop 16 (entries_upto 32)))
         [mkPage true (take 16 (entries_upto 32)) [];
          mkPage true (drop 17 (entries_upto 32)) []]) 0 1
    = Ok (mkPage false [lk] [l'; c']) /\
    length (keys c') = 16%nat /\ length (keys l') = 15%nat /\ key lk = 16.
Proof.
  destruct (borrow_from_left_keeps_entries 0 [] (mkSmartKey 17 [17]) [] []
              (mkPage true (take 16 (entries_upto 32)) [])
              (mkPage true (drop 17 (entries_upto 32)) []) [])
    as (l' & c' & lk & Hb & _ & _ & Hc & Hd & Hlk & _).
  - reflexivity.
  - done.
  - done.
  - vm_compute. lia.
  - exists l', c', lk. split; [exact Hb|]. split; [exact Hc|].
    split.
    { cbn [keys] in Hd. change (length (take 16 (entries_upto 32))) with 16%nat in Hd. lia. }
    vm_compute in Hlk. by injection Hlk as <-.
Defined.

(** A full page of a well-formed tree gives two pages of the same height. *)
Lemma split_shape h p :
  shape h p -> length (keys p) = (2 * DEGREE - 1)%nat ->
  exists l rk r, Page.split p = Ok (l, (rk, r)) /\
    shape h l /\ shape h r /\
    length (keys l) = (DEGREE - 1)%nat /\ length (keys r) = (DEGREE - 1)%nat /\
    contents l ++ rk :: contents r = contents p.
Proof.
  intros Hsh Hlen. destruct p as [b ks cs]. cbn [keys] in Hlen.
  change (2 * DEGREE - 1)%nat with 31%nat in Hlen.
  destruct (lookup_lt_is_Some_2 ks 15) as [rk Hrk]; [lia|].
  unfold Page.split. cbn [keys children bottom]. change (DEGREE - 1)%nat with 15%nat.
  change DEGREE with 16%nat. rewrite (py_get_Some _ _ _ Hrk). cbn [bind].
  do 3 eexists. split; [done|]. cbn [keys].
  assert (Hks : ks = take 15 ks ++ rk :: drop 16 ks) by (symmetry; by apply take_drop_middle).
  assert (Hcs : cs = take 16 cs ++ drop 16 cs) by (by rewrite take_drop).
  assert (H1 : length (take 15 ks) = 15%nat) by (rewrite length_take; lia).
  assert (H2 : length (drop 16 ks) = 15%nat) by (rewrite length_drop; lia).
  destruct h as [|h]; simpl in Hsh.
  - destruct Hsh as [-> ->]. by repeat split.
  - destruct Hsh as (-> & _ & Hl & Hall).
    assert (Hl1 : length (take 16 cs) = 16%nat) by (rewrite length_take; lia).
    split; [|split; [|split; [done|split; [done|]]]].
    + simpl. repeat split.
      * intros Hz. rewrite Hz in H1. done.
      * rewrite H1, Hl1. done.
      * by apply Forall_take.
    + simpl. repeat split.
      * intros Hz. rewrite Hz in H2. done.
      * rewrite H2, length_drop. lia.
      * by apply Forall_drop.
    + rewrite !contents_node. rewrite Hks at 3. rewrite Hcs at 3.
      rewrite map_app, interleave_sep; [done|]. rewrite length_map. lia.
Qed.

(** X14.  [split] raises [IndexError] on a page with fewer than [DEGREE]
    entries.  On any other page it loses nothing: the entries of the page
    are those it keeps (the first [DEGREE - 1]), the promoted entry, then
    the entries of the new page, and likewise for the children; both pages
    are leaves or not as the page was.  On a full page of a well-formed tree
    both halves have the height of the page and [DEGREE - 1] entries, and
    the entries below them are those below the page, in the same order. *)
Theorem split_partitions_entries :
  (forall self, (length (keys self) < DEGREE)%nat -> Page.split self = Raise IndexError) /\
  (forall self, (DEGREE <= length (keys self))%nat ->
     exists l rk r, Page.split self = Ok (l, (rk, r)) /\
       keys self = keys l ++ rk :: keys r /\ length (keys l) = (DEGREE - 1)%nat /\
       children self = children l ++ children r /\
       bottom l = bottom self /\ bottom r = bottom self) /\
  (forall h self, shape h self -> length (keys self) = (2 * DEGREE - 1)%nat ->
     exists l rk r, Page.split self = Ok (l, (rk, r)) /\
       shape h l /\ shape h r /\
       length (keys l) = (DEGREE - 1)%nat /\ length (keys r) = (DEGREE - 1)%nat /\
       contents l ++ rk :: contents r = contents self).
Proof.
  split; [|split].
  - intros self Hlt. unfold Page.split, py_get.
    rewrite lookup_ge_None_2; [done|]. unfold DEGREE in *. lia.
  - intros self Hge. unfold DEGREE in Hge.
    destruct (lookup_lt_is_Some_2 (keys self) 15) as [rk Hrk]; [lia|].
    unfold Page.split. change (DEGREE - 1)%nat with 15%nat. change DEGREE with 16%nat.
    rewrite (py_get_Some _ _ _ Hrk). cbn [bind]. do 3 eexists. split; [done|].
    cbn [keys children bottom]. repeat split.
    + symmetry. by apply take_drop_middle.
    + rewrite length_take. lia.
    + by rewrite take_drop.
  - apply split_shape.
Qed.

Lemma split_partitions_entries_witness :
  Page.split (mkPage true (entries_upto 15) []) = Raise IndexError /\
  exists l rk r, Page.split (mkPage true (entries_upto 20) []) = Ok (l, (rk, r)) /\
    entries_upto 20 = keys l ++ rk :: keys r /\ length (keys l) = 15%nat.
Proof.
  split.
  - apply (proj1 split_partitions_entries (mkPage true (entries_upto 15) [])).
    vm_compute. lia.
  - destruct (proj1 (proj2 split_partitions_entries) (mkPage true (entries_upto 20) []))
      as (l & rk & r & Hs & Hk & Hl & _).
    + vm_compute. lia.
    + exists l, rk, r. split; [exact Hs|]. split; [exact Hk|exact Hl].
Defined.

(** X15.  [split_and_add_page] for a full child [c] of a page of a
    well-formed tree: the child is split, the promoted entry enters the page
    at the position of the child and the new page next to the child; the
    entries below the page are the same, in the same order. *)
Theorem split_and_add_page_keeps_entries h b ks1 ks2 cs1 c cs2 :
  length cs1 = length ks1 -> shape h c -> length (keys c) = (2 * DEGREE - 1)%nat ->
  exists l rk r,
    Page.split c = Ok (l, (rk, r)) /\
    Page.split_and_add_page (mkPage b (ks1 ++ ks2) (cs1 ++ c :: cs2)) (length ks1)
    = Ok (mkPage b (ks1 ++ rk :: ks2) (cs1 ++ l :: r :: cs2)) /\
    shape h l /\ shape h r /\
    length (keys l) = (DEGREE - 1)%nat /\ length (keys r) = (DEGREE - 1)%nat /\
    contents (mkPage b (ks1 ++ rk :: ks2) (cs1 ++ l :: r :: cs2))
    = contents (mkPage b (ks1 ++ ks2) (cs1 ++ c :: cs2)).
Proof.
  intros Hl Hc Hfull.
  destruct (split_shape h c Hc Hfull) as (l & rk & r & Hs & Hsl & Hsr & Hll & Hlr & Hcont).
  exists l, rk, r. split; [done|]. split.
  - unfold Page.split_and_add_page. cbn [keys children bottom].
    rewrite <- Hl at 1. rewrite py_get_middle. cbn [bind]. rewrite Hs. cbn [bind].
    rewrite py_insert_app. rewrite <- Hl. rewrite insert_middle.
    replace (cs1 ++ l :: cs2) with ((cs1 ++ [l]) ++ cs2) by (by rewrite <- app_assoc).
    replace (length cs1 + 1)%nat with (length (cs1 ++ [l]))
      by (rewrite length_app; simpl; lia).
    rewrite py_insert_app. by rewrite <- app_assoc.
  - do 4 (split; [done|]).
    rewrite contents_at_sep, contents_at_child by done. f_equal.
    rewrite <- Hcont. rewrite <- app_assoc. done.
Qed.

Lemma split_and_add_page_keeps_entries_witness :
  exists l rk r,
    Page.split_and_add_page
      (mkPage false [] [mkPage true (entries_upto 31) []]) 0
    = Ok (mkPage false [rk] [l; r]) /\
    length (keys l) = 15%nat /\ length (keys r) = 15%nat.
Proof.
  destruct (split_and_add_page_keeps_entries 0 false [] [] []
              (mkPage true (entries_upto 31) []) [])
    as (l & rk & r & _ & Hs & _ & _ & Hl & Hr & _).
  - reflexivity.
  - done.
  - reflexivity.
  - exists l, rk, r. split; [exact Hs|]. split; [exact Hl|exact Hr].
Defined.

(** ** The child to go to *)

(** X16.  [next] on a page of a well-formed tree that is not a leaf and has
    no entry with the key returns one of its children, well-formed and one
    level lower, and the key has in the tree below the page the values it has
    below that child (none if it has none there).  On a page without
    children [next] raises [IndexError]. *)
Theorem next_holds_the_key :
  (forall h p k,
     wf (S h) p -> Forall (fun e => key e <> k) (keys p) ->
     exists c, Page.next p k = Ok c /\ c ∈ children p /\ wf h c /\
       assoc k (contents p) = assoc k (contents c)) /\
  (forall p k, children p = [] -> Page.next p k = Raise IndexError).
Proof.
  split.
  - intros h p k [Hsh Hs] Hk. pose proof Hsh as Hsh'.
    apply shape_node_inv in Hsh' as (ks & cs & -> & Hne & Hlen & Hall).
    pose proof (sorted_interleave_keys _ _ Hs) as Hks. cbn [keys] in Hk.
    unfold Page.next. cbn [keys children].
    destruct (bisect_cases ks k Hks) as [(l1 & e & l2 & -> & Hek & Hr)|(l1 & l2 & -> & Hr & H1 & H2)].
    { apply Forall_app in Hk as [_ Hk]. apply Forall_cons in Hk as [Hk _]. done. }
    rewrite Hr.
    destruct (children_split cs l1 l2 Hlen) as (cs1 & c & cs2 & -> & Hl1 & Hl2).
    destruct (wf_child h l1 l2 cs1 c cs2 (conj Hsh Hs) Hl1) as [Hwc _].
    exists c. rewrite <- Hl1, py_get_middle. split; [done|].
    split; [apply elem_of_app; right; by left|]. split; [done|].
    rewrite contents_at_child in Hs |- * by done.
    destruct (around_child_ne (map contents cs1) l1 (contents c)
                (map contents cs2) l2 k) as [Hb Ha];
      [by rewrite length_map|by rewrite length_map|done..|].
    by rewrite assoc_app_l, assoc_app_r.
  - intros p k Hc. unfold Page.next, py_get. by rewrite Hc.
Qed.

Lemma next_holds_the_key_witness :
  exists c, Page.next (root two_level) 20 = Ok c /\ c ∈ children (root two_level) /\
    wf 0 c /\ assoc 20 (contents (root two_level)) = assoc 20 (contents c).
Proof.
  apply (proj1 next_holds_the_key 0%nat (root two_level) 20).
  - wf_by_computation.
  - vm_compute. repeat constructor. discriminate.
Defined.

(** ** The printed levels *)

Lemma interleave_perm C ks : interleave C ks ≡ₚ ks ++ concat C.
Proof.
  revert ks. induction C as [|c C IH]; intros ks; simpl.
  - by rewrite app_nil_r.
  - destruct ks as [|k ks]; simpl.
    + by rewrite IH.
    + rewrite IH. rewrite <- Permutation_middle. constructor.
      rewrite !app_assoc. apply Permutation_app_tail, Permutation_app_comm.
Qed.

Lemma level_perm ps :
  concat (map contents ps)
  ≡ₚ concat (map keys ps) ++ concat (map contents (concat (map children ps))).
Proof.
  induction ps as [|[b ks cs] ps IH]; [done|].
  cbn [map concat keys children]. rewrite contents_node, interleave_perm, IH.
  rewrite map_app, concat_app, <- !app_assoc. apply Permutation_app_head.
  rewrite !app_assoc. apply Permutation_app_tail, Permutation_app_comm.
Qed.

Lemma leaves_no_children ps : Forall (shape 0) ps -> concat (map children ps) = [].
Proof. induction 1 as [|p ps [_ Hp] _ IH]; [done|]. simpl. by rewrite Hp, IH. Qed.

Lemma leaves_contents ps : Forall (shape 0) ps -> map contents ps = map keys ps.
Proof.
  induction 1 as [|p ps Hp _ IH]; [done|]. simpl. rewrite IH. f_equal.
  by apply shape_leaf_inv in Hp as [ks ->].
Qed.

Lemma concat_map_keys ps :
  concat (map (fun node => map key (keys node)) ps) = map key (concat (map keys ps)).
Proof. induction ps as [|p ps IH]; [done|]. simpl. by rewrite IH, map_app. Qed.

Lemma print_levels_spec h ps fuel :
  ps <> [] -> Forall (shape h) ps -> (S h <= fuel)%nat ->
  exists lines, BTree.print_levels fuel ps = Ok lines /\
    length lines = S h /\
    head lines = Some (map (fun node => map key (keys node)) ps) /\
    concat (concat lines) ≡ₚ map key (concat (map contents ps)).
Proof.
  revert ps fuel. induction h as [|h IH]; intros ps fuel Hne Hall Hfuel.
  - destruct fuel as [|n]; [lia|]. destruct ps as [|p ps]; [done|].
    cbn [BTree.print_levels]. cbv zeta. rewrite (leaves_no_children _ Hall).
    assert (Hnil : BTree.print_levels n [] = Ok []) by (by destruct n).
    rewrite Hnil. cbn [bind]. eexists. split; [done|]. split; [done|]. split; [done|].
    cbn [concat]. rewrite app_nil_r, concat_map_keys, (leaves_contents _ Hall). done.
  - destruct fuel as [|n]; [lia|]. destruct ps as [|p ps]; [done|].
    cbn [BTree.print_levels]. cbv zeta.
    destruct (IH (concat (map children (p :: ps))) n) as (rest & Hrest & Hlen & _ & Hperm).
    + apply Forall_cons in Hall as [(_ & _ & Hl & _) _]. simpl.
      destruct (children p); [done|done].
    + apply Forall_concat, Forall_map. eapply Forall_impl; [exact Hall|].
      intros q (_ & _ & _ & Hq). eapply Forall_impl; [exact Hq|]. by intros c [Hc _].
    + lia.
    + rewrite Hrest. cbn [bind]. eexists. split; [done|]. split; [simpl; lia|].
      split; [done|]. cbn [concat]. rewrite concat_app, Hperm, concat_map_keys.
      rewrite <- map_app. apply Permutation_map. symmetry. apply level_perm.
Qed.

(** X17.  [print_tree] on a tree of height [h] prints [h + 1] lines, the
    first one the keys of the root; every key of the tree is printed once
    (the printed keys are the keys of the entries in order, rearranged level
    by level). *)
Theorem print_tree_levels h t :
  shape h (root t) ->
  exists lines, BTree.print_tree t = Ok lines /\
    length lines = S h /\
    head lines = Some [map key (keys (root t))] /\
    concat (concat lines) ≡ₚ map key (contents (root t)).
Proof.
  intros Hsh. unfold BTree.print_tree. rewrite (shape_depth h) by done.
  destruct (print_levels_spec h [root t] (S h)) as (lines & Hp & Hl & Hh & Hperm);
    [done|by constructor|lia|].
  exists lines. split; [done|]. split; [done|]. split; [done|].
  rewrite Hperm. simpl. by rewrite app_nil_r.
Qed.

Lemma print_tree_levels_witness :
  exists lines, BTree.print_tree two_level = Ok lines /\ length lines = 2%nat /\
    head lines = Some [[16]] /\
    concat (concat lines) ≡ₚ map key (contents (root two_level)).
Proof.
  apply (print_tree_levels 1 two_level).
  vm_compute; repeat split; try discriminate; repeat constructor.
Defined.

(** ** Pages that grow past the full size *)

(** X18.  The root over two leaves of [DEGREE - 1] entries each: any removal
    merges the leaves and leaves one leaf as the root, with all the entries
    but the one of the key, so [2 * DEGREE - 1] entries, a full page, when
    the key was absent.  An insertion of a new key into a root leaf that
    holds [2 * DEGREE - 1] entries or more returns and does not split: the
    root is a leaf with one entry more, and it is not full. *)
Theorem full_root_from_merge_is_not_split :
  (forall l r sep k,
     wf 1 (mkPage false [sep] [l; r]) ->
     length (keys l) = (DEGREE - 1)%nat -> length (keys r) = (DEGREE - 1)%nat ->
     BTree.remove (mkBTree (mkPage false [sep] [l; r])) k
     = Ok (mkBTree (mkPage true (without k (keys l ++ sep :: keys r)) []))) /\
  (forall ks k v,
     sorted ks -> (2 * DEGREE - 1 <= length ks)%nat ->
     Forall (fun e => key e <> k) ks ->
     exists ks', BTree.add_key_value (mkBTree (mkPage true ks [])) k v
                 = Ok (mkBTree (mkPage true ks' [])) /\
       length ks' = S (length ks) /\
       Page.is_full (mkPage true ks' []) = false).
Proof.
  split.
  - intros l r sep k [Hsh Hs] Hl Hr. simpl in Hsh.
    destruct Hsh as (_ & _ & _ & Hall).
    apply Forall_cons in Hall as [[Hsl _] Hall]. apply Forall_cons in Hall as [[Hsr _] _].
    apply shape_leaf_inv in Hsl as [kl ->]. apply shape_leaf_inv in Hsr as [kr ->].
    cbn [keys] in *.
    rewrite contents_node in Hs. cbn [map interleave] in Hs.
    rewrite !contents_leaf, app_nil_r in Hs.
    unfold BTree.remove. cbn [root depth]. change (2 * 1 + 1)%nat with 3%nat.
    assert (Hn1 : (DEGREE <=? length kl)%nat = false)
      by (apply Nat.leb_gt; rewrite Hl; unfold DEGREE; lia).
    assert (Hn2 : (DEGREE <=? length kr)%nat = false)
      by (apply Nat.leb_gt; rewrite Hr; unfold DEGREE; lia).
    assert (Hn3 : (DEGREE - 1 <? length kl)%nat = false) by (apply Nat.ltb_ge; lia).
    assert (Hn4 : (DEGREE - 1 <? length kr)%nat = false) by (apply Nat.ltb_ge; lia).
    assert (Hm : Page.remove 2 (mkPage true (kl ++ sep :: kr) []) k
                 = Ok (mkPage true (without k (kl ++ sep :: kr)) [],
                       mkPage true (without k (kl ++ sep :: kr)) []))
      by (by apply remove_leaf).
    pose proof Hs as Hs'. apply sorted_middle in Hs' as (Hlt & Hgt & _).
    pose proof (merge_middle [] sep [] [] (mkPage true kl []) (mkPage true kr []) []
                  eq_refl) as Hmg.
    cbn [app length] in Hmg.
    destruct (Z.lt_trichotomy k (key sep)) as [Hk|[Hk|Hk]].
    + pose proof (remove_first_of_two 2 [] sep [] [] (mkPage true kl [])
                    (mkPage true kr []) [] k) as Hrem.
      cbv zeta in Hrem. cbn [app length keys children] in Hrem.
      rewrite Hrem; [|done|apply sorted_singleton|constructor|by repeat constructor|done].
      rewrite Hn4. cbn [Nat.ltb Nat.leb andb Nat.sub py_get lookup list_lookup bind Nat.add].
      rewrite Hmg. cbn [bind keys children bottom andb app]. rewrite Hm. by cbn [bind].
    + subst k.
      rewrite (remove_at_separator 2 _ 0 sep (mkPage true kl []) (mkPage true kr []));
        [|done|apply sorted_singleton|done..].
      cbn [keys children bottom andb app]. rewrite Hn1, Hn2. cbv zeta.
      rewrite Hm. by cbn [bind].
    + pose proof (remove_second_of_two 2 [] sep [] [] (mkPage true kl [])
                    (mkPage true kr []) [] k) as Hrem.
      cbv zeta in Hrem. cbn [app length keys children] in Hrem.
      rewrite Hrem; [|done|apply sorted_singleton|by repeat constructor|constructor|done
                     |constructor].
      rewrite Hn3.
      rewrite Hmg. cbn [bind keys children bottom andb app]. rewrite Hm. by cbn [bind].
  - intros ks k v Hs Hlen Hk. unfold BTree.add_key_value. cbn [root BTree._put orb].
    destruct (add_key_value_cases (mkPage true ks []) k v Hs)
      as [(l1 & e & l2 & Hks & Hek & _)|(l1 & l2 & Hks & H1 & H2 & Ha)];
      cbn [keys] in Hks; subst ks.
    { apply Forall_app in Hk as [_ Hk]. apply Forall_cons in Hk as [Hk _]. done. }
    rewrite Ha. cbn [bind]. unfold set_keys. cbn [bottom children].
    assert (Hlen' : length (l1 ++ mkSmartKey k [v] :: l2) = S (length (l1 ++ l2)))
      by (rewrite !length_app; simpl; lia).
    assert (Hnf : Page.is_full (mkPage true (l1 ++ mkSmartKey k [v] :: l2) []) = false).
    { unfold Page.is_full. cbn [keys]. apply Nat.eqb_neq. rewrite Hlen'.
      unfold DEGREE in *. lia. }
    rewrite Hnf. eauto.
Qed.

Lemma full_root_from_merge_is_not_split_witness :
  BTree.remove two_level 40 = Ok (mkBTree (mkPage true (entries_upto 31) [])) /\
  exists ks', BTree.add_key_value (mkBTree (mkPage true (entries_upto 31) [])) 32 32
              = Ok (mkBTree (mkPage true ks' [])) /\
    length ks' = 32%nat /\ Page.is_full (mkPage true ks' []) = false.
Proof.
  split.
  - apply (proj1 full_root_from_merge_is_not_split
             (mkPage true (take 15 (entries_upto 31)) [])
             (mkPage true (drop 16 (entries_upto 31)) [])
             (mkSmartKey 16 [16]) 40).
    + wf_by_computation.
    + reflexivity.
    + reflexivity.
  - apply (proj2 full_root_from_merge_is_not_split (entries_upto 31) 32 32).
    + vm_compute; repeat constructor; unfold key_lt; simpl; lia.
    + vm_compute. lia.
    + vm_compute. repeat constructor; discriminate.
Defined.

(** ** The outcome of an insertion *)

(** X19.  When [BTree.add_key_value] returns, on a well-formed tree: it
    returns when the root is a leaf or has an entry with the key, and raises
    [AttributeError] in every other case, that is whenever the insertion has
    to go below the root. *)
Theorem add_key_value_outcome h t k v :
  wf h (root t) ->
  (bottom (root t) = true \/ Exists (fun e => key e = k) (keys (root t)) ->
     exists t', BTree.add_key_value t k v = Ok t') /\
  (bottom (root t) = false -> Forall (fun e => key e <> k) (keys (root t)) ->
     BTree.add_key_value t k v = Raise AttributeError).
Proof.
  intros Hw. split.
  - intros Hcase. unfold BTree.add_key_value.
    assert (Hput : exists root1, BTree._put (root t) k v = Ok root1).
    { destruct (root t) as [b ks cs] eqn:Hroot. cbn [bottom keys] in Hcase.
      pose proof (sorted_interleave_keys _ _ (proj2 Hw)) as Hks.
      cbn [BTree._put].
      replace (b || existsb (fun e => key e =? k) ks) with true.
      - by apply add_key_value_Ok.
      - symmetry. destruct Hcase as [->|Hex]; [done|].
        apply orb_true_iff. right. apply existsb_exists.
        apply Exists_exists in Hex as (e & He & Hek). exists e.
        split; [by apply list_elem_of_In|by apply Z.eqb_eq]. }
    destruct Hput as [root1 Hput]. rewrite Hput. cbn [bind].
    destruct (Page.is_full root1) eqn:Hfull; [|eauto].
    destruct (split_Ok root1) as [[c1 [rk z]] ->]; [|cbn [bind]; eauto].
    unfold Page.is_full in Hfull. apply Nat.eqb_eq in Hfull. rewrite Hfull.
    unfold DEGREE. lia.
  - intros Hb Hk. unfold BTree.add_key_value.
    destruct h as [|h]; [destruct Hw as [[Hb' _] _]; congruence|].
    by rewrite (put_raises h).
Qed.

Lemma add_key_value_outcome_witness :
  (exists t', BTree.add_key_value two_level 16 0 = Ok t') /\
  BTree.add_key_value two_level 5 0 = Raise AttributeError.
Proof.
  destruct (add_key_value_outcome 1 two_level 16 0) as [H1 _]; [wf_by_computation|].
  destruct (add_key_value_outcome 1 two_level 5 0) as [_ H2]; [wf_by_computation|].
  split.
  - apply H1. right. vm_compute. by left.
  - apply H2; [reflexivity|]. vm_compute. repeat constructor. discriminate.
Defined.

(** ** [remove] on a page *)

(** X20.  [Page.remove] on a well-formed page of height [h] returns, within
    [2 h + 1] nested calls.  The page it returns holds the entries below the
    page but the one of the key, in order.  It is the page itself, of the
    same height, with at most one entry less in the page; or the page held
    one entry and it is the page made by [merge], one level lower.  A page
    with [DEGREE] entries or more is returned itself, with [DEGREE - 1]
    entries or more. *)
Theorem page_remove_returns h p k n :
  wf h p -> (2 * h + 1 <= n)%nat ->
  exists p' r, Page.remove n p k = Ok (p', r) /\
    contents r = without k (contents p) /\ sorted (contents r) /\
    ((r = p' /\ shape h p' /\ (length (keys p) <= S (length (keys p')))%nat) \/
     (exists h', h = S h' /\ length (keys p) = 1%nat /\ shape h' r)) /\
    ((DEGREE <= length (keys p))%nat ->
       r = p' /\ (DEGREE - 1 <= length (keys p'))%nat).
Proof.
  intros Hw Hn. destruct (remove_wf h p k n Hw Hn) as ([p' r] & Hrem & Hc & Hcase).
  cbn [fst snd] in *. exists p', r. split; [done|]. split; [done|].
  split; [rewrite Hc; apply sorted_without, Hw|]. split; [done|].
  intros Hd. destruct Hcase as [(-> & _ & Hl)|(h' & _ & Hl & _)].
  - split; [done|]. unfold DEGREE in *. lia.
  - unfold DEGREE in Hd. lia.
Qed.

Lemma page_remove_returns_witness :
  exists p' r, Page.remove 3 (root two_level) 3 = Ok (p', r) /\
    contents r = without 3 (contents (root two_level)) /\ sorted (contents r).
Proof.
  destruct (page_remove_returns 1 (root two_level) 3 3) as (p' & r & H1 & H2 & H3 & _).
  - wf_by_computation.
  - lia.
  - exists p', r. split; [exact H1|]. split; [exact H2|exact H3].
Defined.
